(** * The HDP-HMM beam sampler of [microscopes/hmm/model.hpp]

    A shallow embedding of the header: the ragged container [meta_vector],
    the sampler class [hmm] with its constructor and its sampling stages, and
    the properties of the stages.

    Conventions of the embedding.
    - [size_t] is an integer in [0, 2^64); every addition or subtraction the
    source performs on it is written with its wrap-around.
    - [float] is IEEE binary32, computed with the reference implementation of
    the Standard Library ([SpecFloat] at precision 24).
    - [operator[]] of [std::vector] does not check its index.  An access out
    of range is undefined behaviour; the embedding stops with [Undefined].
    - A loop [for (int i = 0; i < n; i++)] whose bound exceeds [INT_MAX]
    overflows its counter, which is undefined behaviour as well.
    - The random number generator and the functions of the [distributions]
    library are not part of the header; they are a parameter. *)

From Stdlib Require Import ZArith Bool Lia.
From Stdlib Require Import Floats.SpecFloat.
From stdpp Require Import base option list gmap.

Local Open Scope Z_scope.

(** ** Machine numbers *)

Definition size_t := Z.

Definition SIZE_MAX : Z := 2 ^ 64 - 1.
Definition INT_MAX : Z := 2 ^ 31 - 1.

(** Reduction of an unsigned 64-bit result. *)
Definition wrap (z : Z) : size_t := z mod 2 ^ 64.

Definition float := spec_float.

Definition prec : Z := 24.
Definition emax : Z := 128.

Definition fadd : float -> float -> float := SFadd prec emax.
Definition fsub : float -> float -> float := SFsub prec emax.
Definition fmul : float -> float -> float := SFmul prec emax.
Definition fdiv : float -> float -> float := SFdiv prec emax.

(** [x < y], [x > y] and [x >= y] of the source; all three are false as soon
    as one operand is a NaN. *)
Definition flt (x y : float) : bool := SFltb x y.
Definition fgt (x y : float) : bool := SFltb y x.
Definition fge (x y : float) : bool := SFleb y x.

Definition f0 : float := S754_zero false.
Definition f1 : float := S754_finite false 8388608 (-23).

(** Conversion of an unsigned integer to [float] (round to nearest even). *)
Definition float_of_size (z : size_t) : float := binary_normalize prec emax z 0 false.

Definition is_zero (x : float) : bool :=
  match x with S754_zero _ => true | _ => false end.

Definition is_finite (x : float) : bool :=
  match x with S754_zero _ | S754_finite _ _ _ => true | _ => false end.

(** ** Outcomes

    A run of the code completes ([Ok]), meets undefined behaviour
    ([Undefined]), or is cut because the fuel given to the one unbounded loop
    is spent ([OutOfFuel]).  The header contains no [throw] and returns no
    error code; the four errors are those the specification of the sampler
    names, and [Raise] is kept among the outcomes so that its absence from
    every path of the code can be stated. *)

Inductive error : Type :=
| InvalidHyperparameter
| DegenerateObservation
| NumericUnderflow
| NonConvergentGrowth.

Inductive result (A : Type) : Type :=
| Ok (a : A)
| Raise (e : error)
| Undefined
| OutOfFuel.

Arguments Ok {A} a.
Arguments Raise {A} e.
Arguments Undefined {A}.
Arguments OutOfFuel {A}.

(** Computations over a store [S]. *)
Definition M (S A : Type) : Type := S -> result (A * S).

Definition ret {S A} (a : A) : M S A := fun s => Ok (a, s).

Definition bind {S A B} (m : M S A) (k : A -> M S B) : M S B :=
  fun s =>
    match m s with
    | Ok (a, s') => k a s'
    | Raise e => Raise e
    | Undefined => Undefined
    | OutOfFuel => OutOfFuel
    end.

Definition undefined {S A} : M S A := fun _ => Undefined.
Definition out_of_fuel {S A} : M S A := fun _ => OutOfFuel.

(** An access that must be in range. *)
Definition must {S A} (o : option A) : M S A :=
  match o with
  | Some a => ret a
  | None => undefined
  end.

Notation "'let*' x ':=' m 'in' k" := (bind m (fun x => k))
  (at level 10, x binder, m at level 100, k at level 200).
Notation "m1 ';;' m2" := (bind m1 (fun _ => m2))
  (at level 100, m2 at level 200, right associativity).

(** Reading and writing the whole store, and running a computation. *)
Definition load {S} : M S S := fun s => Ok (s, s).
Definition store {S} (s : S) : M S unit := fun _ => Ok (tt, s).

Definition exec {S A} (m : M S A) (s : S) : result S :=
  match m s with
  | Ok (_, s') => Ok s'
  | Raise e => Raise e
  | Undefined => Undefined
  | OutOfFuel => OutOfFuel
  end.

(** [for (int i = 0; i < bound; i++) acc = body(i, acc);] *)
Fixpoint iter_from {S A} (n : nat) (i : Z) (body : Z -> A -> M S A) (a : A) : M S A :=
  match n with
  | O => ret a
  | Datatypes.S n' => let* a' := body i a in iter_from n' (i + 1) body a'
  end.

Definition for_int {S A} (bound : size_t) (body : Z -> A -> M S A) (a : A) : M S A :=
  if INT_MAX <? bound then undefined
  else iter_from (Z.to_nat bound) 0 body a.

(** ** Vectors *)

(** [v[i]] as an rvalue. *)
Definition vget {A} (v : list A) (i : Z) : option A :=
  if (0 <=? i) && (i <? Z.of_nat (length v)) then v !! Z.to_nat i else None.

(** [v[i] = x]. *)
Definition vset {A} (v : list A) (i : Z) (x : A) : option (list A) :=
  if (0 <=? i) && (i <? Z.of_nat (length v)) then Some (<[Z.to_nat i := x]> v) else None.

(** [v.size()]. *)
Definition vsize {A} (v : list A) : size_t := Z.of_nat (length v).

(** [std::vector<T>(n)]: [n] value-initialised elements. *)
Definition vmake {A} (n : size_t) (d : A) : list A := replicate (Z.to_nat n) d.

(** ** The ragged container *)

Definition meta_vector (T : Type) : Type := list (list T).

Module MetaVector.

(** [meta_vector()] *)
Definition make0 {T} : meta_vector T := [].

(** [meta_vector(size_t size)]: [size] empty rows. *)
Definition make1 {T} (size : size_t) : meta_vector T := vmake size [].

(** [meta_vector(size_t size_1, size_t size_2)] *)
Definition make2 {T} (d : T) (size_1 size_2 : size_t) : result (meta_vector T) :=
  exec
    (for_int size_1
       (fun i _ =>
          let* data := load in
          let* data' := must (vset data i (vmake size_2 d)) in
          store data')
       tt)
    (vmake size_1 []).

(** [meta_vector(std::vector<size_t> size)] *)
Definition make_sizes {T} (d : T) (size : list size_t) : result (meta_vector T) :=
  exec
    (let* data_ := load in
     for_int (vsize data_)
       (fun i _ =>
          let* data := load in
          let* n := must (vget size i) in
          let* data' := must (vset data i (vmake n d)) in
          store data')
       tt)
    (vmake (vsize size) []).

(** [operator[]] followed by an element access: [mv[i][j]]. *)
Definition get {T} (mv : meta_vector T) (i j : Z) : option T :=
  row ← vget mv i; vget row j.

(** [mv[i][j] = x]. *)
Definition set {T} (mv : meta_vector T) (i j : Z) (x : T) : option (meta_vector T) :=
  row ← vget mv i; row' ← vset row j x; vset mv i row'.

(** [push_back(vec)] *)
Definition push_back {T} (mv : meta_vector T) (vec : list T) : meta_vector T :=
  mv ++ [vec].

(** [size()]: the result vector is created with [data_.size()] elements,
    all zero, and the length of every row is then appended to it. *)
Definition size {T} (mv : meta_vector T) : list size_t :=
  fold_left (fun sizes vec => sizes ++ [vsize vec]) mv (vmake (vsize mv) 0).

(** [sum(i)] at [T = size_t]. *)
Definition sum (mv : meta_vector size_t) (i : Z) : option size_t :=
  row ← vget mv i; Some (fold_left (fun result t => wrap (result + t)) row 0).

End MetaVector.

(** ** The collaborators outside the header

    The sampling functions and [log_stirling1_row] belong to the library
    [distributions], which the header includes but does not contain.
    [uniform_real] is the call [sampler(rng)] of the
    [std::uniform_real_distribution<float>(0.0, 1.0)] of [sample_u] and [log]
    is the logarithm of the C library; they are listed with the others.
    Every sampling function consumes the generator and returns the generator
    that follows. *)

Module distributions.

Record Provider : Type := {
  rng_t : Type;
  uniform_real : rng_t -> float * rng_t;
  sample_from_likelihoods : rng_t -> list float -> size_t * rng_t;
  sample_from_scores_overwrite : rng_t -> list float -> size_t * rng_t;
  sample_beta : rng_t -> float -> float -> float * rng_t;
  sample_dirichlet : rng_t -> size_t -> list float -> list float * rng_t;
  log_stirling1_row : size_t -> list float;
  log : float -> float
}.

End distributions.

(** ** The sampler *)

Record hmm : Type := {
  data_ : meta_vector size_t;     (* the observations *)
  s_ : meta_vector size_t;        (* the state sequence *)
  u_ : meta_vector float;         (* the slice value of each timestep *)
  m_ : meta_vector size_t;        (* the table counts, K x K *)
  counts_ : meta_vector size_t;   (* the transition counts, K x K *)
  pi_ : meta_vector float;        (* the transition matrix, K x K+1 *)
  phi_ : meta_vector float;       (* the emission matrix, K x N *)
  beta_ : list float;             (* the stick lengths, K+1 *)
  gamma_ : float;
  alpha0_ : float;
  H_ : list float;
  memoized_log_stirling_ : gmap Z (list float);
  max_pi : float;                 (* the greatest unseen mass of a row of pi_ *)
  K : size_t                      (* the number of instantiated states *)
}.

Definition set_s (v : meta_vector size_t) (h : hmm) : hmm :=
  {| data_ := data_ h; s_ := v; u_ := u_ h; m_ := m_ h; counts_ := counts_ h;
     pi_ := pi_ h; phi_ := phi_ h; beta_ := beta_ h; gamma_ := gamma_ h;
     alpha0_ := alpha0_ h; H_ := H_ h;
     memoized_log_stirling_ := memoized_log_stirling_ h;
     max_pi := max_pi h; K := K h |}.

Definition set_u (v : meta_vector float) (h : hmm) : hmm :=
  {| data_ := data_ h; s_ := s_ h; u_ := v; m_ := m_ h; counts_ := counts_ h;
     pi_ := pi_ h; phi_ := phi_ h; beta_ := beta_ h; gamma_ := gamma_ h;
     alpha0_ := alpha0_ h; H_ := H_ h;
     memoized_log_stirling_ := memoized_log_stirling_ h;
     max_pi := max_pi h; K := K h |}.

Definition set_m (v : meta_vector size_t) (h : hmm) : hmm :=
  {| data_ := data_ h; s_ := s_ h; u_ := u_ h; m_ := v; counts_ := counts_ h;
     pi_ := pi_ h; phi_ := phi_ h; beta_ := beta_ h; gamma_ := gamma_ h;
     alpha0_ := alpha0_ h; H_ := H_ h;
     memoized_log_stirling_ := memoized_log_stirling_ h;
     max_pi := max_pi h; K := K h |}.

Definition set_counts (v : meta_vector size_t) (h : hmm) : hmm :=
  {| data_ := data_ h; s_ := s_ h; u_ := u_ h; m_ := m_ h; counts_ := v;
     pi_ := pi_ h; phi_ := phi_ h; beta_ := beta_ h; gamma_ := gamma_ h;
     alpha0_ := alpha0_ h; H_ := H_ h;
     memoized_log_stirling_ := memoized_log_stirling_ h;
     max_pi := max_pi h; K := K h |}.

Definition set_pi (v : meta_vector float) (h : hmm) : hmm :=
  {| data_ := data_ h; s_ := s_ h; u_ := u_ h; m_ := m_ h; counts_ := counts_ h;
     pi_ := v; phi_ := phi_ h; beta_ := beta_ h; gamma_ := gamma_ h;
     alpha0_ := alpha0_ h; H_ := H_ h;
     memoized_log_stirling_ := memoized_log_stirling_ h;
     max_pi := max_pi h; K := K h |}.

Definition set_beta (v : list float) (h : hmm) : hmm :=
  {| data_ := data_ h; s_ := s_ h; u_ := u_ h; m_ := m_ h; counts_ := counts_ h;
     pi_ := pi_ h; phi_ := phi_ h; beta_ := v; gamma_ := gamma_ h;
     alpha0_ := alpha0_ h; H_ := H_ h;
     memoized_log_stirling_ := memoized_log_stirling_ h;
     max_pi := max_pi h; K := K h |}.

Definition set_memoized (v : gmap Z (list float)) (h : hmm) : hmm :=
  {| data_ := data_ h; s_ := s_ h; u_ := u_ h; m_ := m_ h; counts_ := counts_ h;
     pi_ := pi_ h; phi_ := phi_ h; beta_ := beta_ h; gamma_ := gamma_ h;
     alpha0_ := alpha0_ h; H_ := H_ h;
     memoized_log_stirling_ := v;
     max_pi := max_pi h; K := K h |}.

Definition set_max_pi (v : float) (h : hmm) : hmm :=
  {| data_ := data_ h; s_ := s_ h; u_ := u_ h; m_ := m_ h; counts_ := counts_ h;
     pi_ := pi_ h; phi_ := phi_ h; beta_ := beta_ h; gamma_ := gamma_ h;
     alpha0_ := alpha0_ h; H_ := H_ h;
     memoized_log_stirling_ := memoized_log_stirling_ h;
     max_pi := v; K := K h |}.

Definition set_K (v : size_t) (h : hmm) : hmm :=
  {| data_ := data_ h; s_ := s_ h; u_ := u_ h; m_ := m_ h; counts_ := counts_ h;
     pi_ := pi_ h; phi_ := phi_ h; beta_ := beta_ h; gamma_ := gamma_ h;
     alpha0_ := alpha0_ h; H_ := H_ h;
     memoized_log_stirling_ := memoized_log_stirling_ h;
     max_pi := max_pi h; K := v |}.

(** Binding of a [result] without a store, for the constructor. *)
Definition and_then {A B} (r : result A) (k : A -> result B) : result B :=
  match r with
  | Ok a => k a
  | Raise e => Raise e
  | Undefined => Undefined
  | OutOfFuel => OutOfFuel
  end.

(** [hmm(float gamma, float alpha0, float *H, meta_vector<size_t> data)].
    The template parameter [N] is the number of entries of [H].  The members
    are initialised in the order of their declaration; [s_] is not named in
    the initialiser list and is default-constructed, and [max_pi] is not
    initialised at all: [garbage] stands for the value it happens to hold. *)
Definition hmm_new (gamma alpha0 : float) (H : list float)
    (data : meta_vector size_t) (garbage : float) : result hmm :=
  and_then (MetaVector.make_sizes f0 (MetaVector.size data)) (fun u =>
  and_then (MetaVector.make2 0 1 1) (fun m =>
  and_then (MetaVector.make2 0 1 1) (fun counts =>
  and_then (MetaVector.make2 f0 1 2) (fun pi =>
  and_then (MetaVector.make2 f0 1 (vsize H)) (fun phi =>
  Ok {| data_ := data; s_ := MetaVector.make0; u_ := u; m_ := m;
        counts_ := counts; pi_ := pi; phi_ := phi; beta_ := vmake 2 f0;
        gamma_ := gamma; alpha0_ := alpha0; H_ := H;
        memoized_log_stirling_ := ∅; max_pi := garbage; K := 1 |}))))).

(** ** The sampling stages *)

Section Stages.

Context (P : distributions.Provider).

(** The sampler object together with the namespace-level generator [rng]. *)
Record world : Type := { self : hmm; rng : distributions.rng_t P }.

Definition this : M world hmm := fun w => Ok (self w, w).

Definition update (f : hmm -> hmm) : M world unit :=
  fun w => Ok (tt, {| self := f (self w); rng := rng w |}).

Definition draw {A} (f : distributions.rng_t P -> A * distributions.rng_t P) : M world A :=
  fun w => let '(a, g) := f (rng w) in Ok (a, {| self := self w; rng := g |}).

(** [int t = n] for an [n] of type [size_t]. *)
Definition int_of_size (n : size_t) : Z :=
  let r := n mod 2 ^ 32 in if r <=? INT_MAX then r else r - 2 ^ 32.

(** [for (int t = start; t > 0; t--) acc = body(t, acc);] *)
Fixpoint iter_down {A} (n : nat) (t : Z) (body : Z -> A -> M world A) (a : A)
    : M world A :=
  match n with
  | O => ret a
  | Datatypes.S n' => let* a' := body t a in iter_down n' (t - 1) body a'
  end.

Definition for_down {A} (start : Z) (body : Z -> A -> M world A) (a : A)
    : M world A :=
  iter_down (Z.to_nat start) start body a.

(** The greater of [max_pi] and [x], as the source writes it:
    [max_pi = max_pi > x ? max_pi : x]. *)
Definition raise_max_pi (x : float) : M world unit :=
  let* h := this in
  update (set_max_pi (if fgt (max_pi h) x then max_pi h else x)).

(** *** [sample_pi_row] *)

Definition sample_pi_row (i : size_t) : M world unit :=
  let* h := this in
  let* alphas :=
    for_int (K h)
      (fun k alphas =>
         let* h := this in
         let* c := must (MetaVector.get (counts_ h) i k) in
         let* b := must (vget (beta_ h) k) in
         ret (alphas ++ [fadd (float_of_size c) (fmul (alpha0_ h) b)]))
      [] in
  let* h := this in
  let* bK := must (vget (beta_ h) (K h)) in
  let alphas := alphas ++ [fmul (alpha0_ h) bK] in
  let* drawn :=
    draw (fun g => distributions.sample_dirichlet P g (wrap (K h + 1)) alphas) in
  let new_pi := take (Z.to_nat (wrap (K h + 1))) drawn in
  for_int (wrap (K h + 1))
    (fun j _ =>
       let* h := this in
       let* x := must (vget new_pi i) in
       let* pi' := must (MetaVector.set (pi_ h) i j x) in
       update (set_pi pi'))
    tt ;;
  let* h := this in
  let* x := must (vget new_pi (K h)) in
  raise_max_pi x.

(** *** [sample_pi] *)

Definition sample_pi : M world unit :=
  update (set_max_pi f0) ;;
  let* h := this in
  for_int (K h) (fun i _ => sample_pi_row i) tt.

(** *** [sample_phi] *)

Definition sample_phi : M world unit := ret tt.

(** *** [sample_u] *)

(** Lines 177 to 183: the slice value of timestep [j] of row [i]. *)
Definition sample_u_at (i j : Z) (min_u : float) : M world float :=
  let* h := this in
  let* prev_state :=
    if j =? 0 then ret 0 else must (MetaVector.get (s_ h) i (j - 1)) in
  let* r := draw (distributions.uniform_real P) in
  let* cur := must (MetaVector.get (s_ h) i j) in
  let* p := must (MetaVector.get (pi_ h) prev_state cur) in
  let* u' := must (MetaVector.set (u_ h) i j (fdiv r p)) in
  update (set_u u') ;;
  let* h := this in
  let* uij := must (MetaVector.get (u_ h) i j) in
  ret (if flt min_u uij then min_u else uij).

(** Lines 175 to 185. *)
Definition sample_u_slices : M world float :=
  let* h := this in
  let sizes := MetaVector.size (u_ h) in
  for_int (vsize sizes)
    (fun i min_u =>
       let* n := must (vget sizes i) in
       for_int n (fun j min_u => sample_u_at i j min_u) min_u)
    f1.

(** Lines 190 to 208: the row, the stick weight and the column of one more
    state. *)
Definition instantiate_state : M world unit :=
  let* h := this in
  update (set_pi (MetaVector.push_back (pi_ h) (vmake (wrap (K h + 1)) f0))) ;;
  sample_pi_row (K h) ;;
  let* h := this in
  let* bu := must (vget (beta_ h) (K h)) in
  let* bk := draw (fun g => distributions.sample_beta P g f1 (gamma_ h)) in
  let* beta' := must (vset (beta_ h) (K h) (fmul bu bk)) in
  update (set_beta (beta' ++ [fmul bu (fsub f1 bk)])) ;;
  update (set_max_pi f0) ;;
  for_int (wrap (K h + 1))
    (fun i _ =>
       let* h := this in
       let* pu := must (MetaVector.get (pi_ h) i (K h)) in
       let* bK := must (vget (beta_ h) (K h)) in
       let* bK1 := must (vget (beta_ h) (wrap (K h + 1))) in
       let* pk :=
         draw (fun g => distributions.sample_beta P g (fmul (alpha0_ h) bK)
                          (fmul (alpha0_ h) bK1)) in
       let* pi' := must (MetaVector.set (pi_ h) i (K h) (fmul pu pk)) in
       let* row := must (vget pi' i) in
       let* pi'' := must (vset pi' i (row ++ [fmul pu (fsub f1 pk)])) in
       update (set_pi pi'') ;;
       let* h := this in
       let* a := must (MetaVector.get (pi_ h) i (K h)) in
       raise_max_pi a ;;
       let* b := must (MetaVector.get (pi_ h) i (wrap (K h + 1))) in
       raise_max_pi b)
    tt.

(** Lines 190 to 209: the body of the growth loop, which ends with [K++]. *)
Definition add_state : M world unit :=
  instantiate_state ;;
  let* h := this in
  update (set_K (wrap (K h + 1))).

(** Lines 188 to 210: [while (max_pi > min_u)].  The loop has no variant in
    the source; [fuel] bounds the number of tests of the condition. *)
Fixpoint grow (fuel : nat) (min_u : float) : M world unit :=
  match fuel with
  | O => out_of_fuel
  | Datatypes.S fuel' =>
      let* h := this in
      if fgt (max_pi h) min_u then add_state ;; grow fuel' min_u
      else ret tt
  end.

Definition sample_u (fuel : nat) : M world unit :=
  let* min_u := sample_u_slices in
  grow fuel min_u.

(** *** [sample_s] *)

(** Lines 136 to 147: the assignment of [probs[t][k]] before it is
    normalised.  The indicator of line 137 is a [double]; its product with a
    [float] is exactly that [float] or a zero, so that rounding the product
    back to [float] changes nothing. *)
Definition fill_prob (i t k : Z) (probs : meta_vector float)
    : M world (meta_vector float) :=
  let* h := this in
  if t =? 0 then
    let* d := must (MetaVector.get (data_ h) i t) in
    let* e := must (MetaVector.get (phi_ h) k d) in
    let* u := must (MetaVector.get (u_ h) i t) in
    let* p := must (MetaVector.get (pi_ h) 0 k) in
    must (MetaVector.set probs t k (fmul e (if flt u p then f1 else f0)))
  else
    let* probs := must (MetaVector.set probs t k f0) in
    let* probs :=
      for_int (K h)
        (fun l probs =>
           let* u := must (MetaVector.get (u_ h) i t) in
           let* p := must (MetaVector.get (pi_ h) l k) in
           if flt u p then
             let* cur := must (MetaVector.get probs t k) in
             let* prev := must (MetaVector.get probs (t - 1) l) in
             must (MetaVector.set probs t k (fadd cur prev))
           else ret probs)
        probs in
    let* cur := must (MetaVector.get probs t k) in
    let* d := must (MetaVector.get (data_ h) i t) in
    let* e := must (MetaVector.get (phi_ h) k d) in
    must (MetaVector.set probs t k (fmul cur e)).

(** Lines 133 to 149: the probabilities of timestep [t] before they are
    normalised, together with [total_prob]. *)
Definition accumulate_step (i t : Z) (probs : meta_vector float)
    : M world (meta_vector float * float) :=
  let* h := this in
  let* probs := must (vset probs t (vmake (K h) f0)) in
  for_int (K h)
    (fun k '(probs, total_prob) =>
       let* probs := fill_prob i t k probs in
       let* x := must (MetaVector.get probs t k) in
       ret (probs, fadd total_prob x))
    (probs, f0).

(** Lines 150 to 152. *)
Definition normalize_step (t : Z) (total_prob : float) (probs : meta_vector float)
    : M world (meta_vector float) :=
  let* h := this in
  for_int (K h)
    (fun k probs =>
       let* x := must (MetaVector.get probs t k) in
       must (MetaVector.set probs t k (fdiv x total_prob)))
    probs.

(** Lines 133 to 152: timestep [t] of the forward filter. *)
Definition filter_step (i t : Z) (probs : meta_vector float)
    : M world (meta_vector float) :=
  let* '(probs, total_prob) := accumulate_step i t probs in
  normalize_step t total_prob probs.

(** Lines 131 to 153. *)
Definition forward_filter (i : Z) (n : size_t) : M world (meta_vector float) :=
  for_int n (fun t probs => filter_step i t probs) (MetaVector.make1 n).

(** Lines 156 to 166. *)
Definition backward_sample (i : Z) (n : size_t) (probs : meta_vector float)
    : M world unit :=
  let* h := this in
  let* last := must (vget probs (wrap (n - 1))) in
  let* r := draw (fun g => distributions.sample_from_likelihoods P g last) in
  let* s' := must (MetaVector.set (s_ h) i (wrap (n - 1)) (wrap r)) in
  update (set_s s') ;;
  for_down (int_of_size (wrap (n - 1)))
    (fun t probs =>
       let* h := this in
       let* probs :=
         for_int (K h)
           (fun k probs =>
              let* h := this in
              let* u := must (MetaVector.get (u_ h) i t) in
              let* st := must (MetaVector.get (s_ h) i t) in
              let* p := must (MetaVector.get (pi_ h) k st) in
              if fge u p then must (MetaVector.set probs (t - 1) k f0)
              else ret probs)
           probs in
       let* row := must (vget probs (t - 1)) in
       let* r := draw (fun g => distributions.sample_from_likelihoods P g row) in
       let* h := this in
       let* s' := must (MetaVector.set (s_ h) i (t - 1) (wrap r)) in
       update (set_s s') ;;
       ret probs)
    probs ;;
  ret tt.

(** Lines 130 to 166: the body of the loop over the sequences. *)
Definition sample_s_seq (sizes : list size_t) (i : Z) : M world unit :=
  let* n := must (vget sizes i) in
  let* probs := forward_filter i n in
  backward_sample i n probs.

Definition sample_s : M world unit :=
  let* h := this in
  let sizes := MetaVector.size (data_ h) in
  update (set_counts (MetaVector.make1 (vsize (MetaVector.size (pi_ h))))) ;;
  for_int (vsize sizes) (fun i _ => sample_s_seq sizes i) tt.

(** *** [sample_m] *)

(** Lines 241 to 252: the table count of the pair [(i, j)].  The scores are
    computed in [float] here; they are only handed to the library. *)
Definition sample_m_at (i j : Z) : M world unit :=
  let* h := this in
  let* n_ij := must (MetaVector.get (counts_ h) i j) in
  (if decide (memoized_log_stirling_ h !! n_ij = None) then
     update (set_memoized
               (<[n_ij := distributions.log_stirling1_row P n_ij]>
                  (memoized_log_stirling_ h)))
   else ret tt) ;;
  let* h := this in
  let* stirling_row := must (memoized_log_stirling_ h !! n_ij) in
  let* scores :=
    for_int n_ij
      (fun m scores =>
         let* h := this in
         let* sr := must (vget stirling_row (m + 1)) in
         let* b := must (vget (beta_ h) j) in
         must (vset scores m
                 (fadd sr
                    (fmul (float_of_size (m + 1))
                       (fadd (distributions.log P (alpha0_ h))
                             (distributions.log P b))))))
      (vmake n_ij f0) in
  let* r := draw (fun g => distributions.sample_from_scores_overwrite P g scores) in
  let* h := this in
  let* m' := must (MetaVector.set (m_ h) i j (wrap (wrap r + 1))) in
  update (set_m m').

Definition sample_m : M world unit :=
  let* h := this in
  for_int (K h)
    (fun i _ => for_int (K h) (fun j _ => sample_m_at i j) tt)
    tt.

(** *** [sample_beta] *)

(** The last loop is [for (int k = 0; k <= K; k++)]: it has [K + 1] turns. *)
Definition sample_beta : M world unit :=
  sample_m ;;
  let* h := this in
  let* alphas :=
    for_int (K h)
      (fun k alphas =>
         let* h := this in
         let* s := must (MetaVector.sum (m_ h) k) in
         ret (alphas ++ [float_of_size s]))
      [] in
  let alphas := alphas ++ [gamma_ h] in
  let* drawn :=
    draw (fun g => distributions.sample_dirichlet P g (wrap (K h + 1)) alphas) in
  let new_beta := take (Z.to_nat (wrap (K h + 1))) drawn in
  for_int (K h + 1)
    (fun k _ =>
       let* h := this in
       let* x := must (vget new_beta k) in
       let* beta' := must (vset (beta_ h) k x) in
       update (set_beta beta'))
    tt.

(** *** [sample_beam] *)

Definition sample_beam (fuel : nat) : M world unit :=
  sample_u fuel ;;
  sample_s ;;
  sample_pi ;;
  sample_phi ;;
  sample_beta.

(** A sequence of sweeps, each with the fuel of its growth loop. *)
Fixpoint sweeps (fuels : list nat) : M world unit :=
  match fuels with
  | [] => ret tt
  | fuel :: fuels' => sample_beam fuel ;; sweeps fuels'
  end.

End Stages.

Arguments self {P} w.
Arguments rng {P} w.

(** ** What the transition counts are meant to be

    The specification of the sampler asks for the number of consecutive
    timestep pairs whose earlier state is [a] and whose later state is [b]:
    [pairs_in] counts them in one sequence and [expected_count] in all the
    sequences.  Nothing in the code computes these numbers. *)

Fixpoint pairs_in (row : list size_t) (a b : size_t) : nat :=
  match row with
  | x :: (y :: _) as rest =>
      let hit := if (x =? a) && (y =? b) then 1%nat else 0%nat in
      (hit + pairs_in rest a b)%nat
  | _ => 0%nat
  end.

Definition expected_count (s : meta_vector size_t) (a b : size_t) : nat :=
  foldr (fun row n => (pairs_in row a b + n)%nat) 0%nat s.

(** The lengths of the rows of a ragged container. *)
Definition shape {T} (mv : meta_vector T) : list size_t := vsize <$> mv.

(** ** Properties of computations *)

(** [respects R m]: every completed run of [m] relates the store it started
    from to the store it leaves. *)
Definition respects {S A} (R : S -> S -> Prop) (m : M S A) : Prop :=
  forall s a s', m s = Ok (a, s') -> R s s'.

(** [silent m]: no run of [m] raises an error. *)
Definition silent {S A} (m : M S A) : Prop :=
  forall s e, m s <> Raise e.

(** [same f]: the component [f] of the sampler is left as it was. *)
Definition same {P X} (f : hmm -> X) (w w' : world P) : Prop :=
  f (self w') = f (self w).

(** [K_le]: the number of states has not gone down. *)
Definition K_le {P} (w w' : world P) : Prop :=
  K (self w) <= K (self w').

(** ** Sample inputs *)

Definition quarter : float := S754_finite false 8388608 (-25).
Definition half : float := S754_finite false 8388608 (-24).
Definition three_quarters : float := S754_finite false 12582912 (-24).
Definition two : float := S754_finite false 8388608 (-22).

(** A provider without randomness: every uniform and Beta draw is 1/2, every
    Dirichlet draw is (1) in dimension one and (1/4, 3/4, 0, ...) above, and
    every sampled index is [index]. *)
Definition fixed (index : size_t) : distributions.Provider :=
  {| distributions.rng_t := unit;
     distributions.uniform_real := fun g => (half, g);
     distributions.sample_from_likelihoods := fun g _ => (index, g);
     distributions.sample_from_scores_overwrite := fun g _ => (index, g);
     distributions.sample_beta := fun g _ _ => (half, g);
     distributions.sample_dirichlet := fun g dim _ =>
     (if dim =? 1 then [f1]
      else quarter :: three_quarters :: vmake (dim - 2) f0, g);
     distributions.log_stirling1_row := fun n => vmake (n + 1) f0;
     distributions.log := fun _ => f0 |}.

(** A sampler with one state whose transition row is (1/2, 1/2). *)
Definition toy (data : meta_vector size_t) (emission : float) : hmm :=
  {| data_ := data; s_ := [[0; 0]]; u_ := [[quarter; quarter]]; m_ := [[0]];
     counts_ := [[0]]; pi_ := [[half; half]]; phi_ := [[emission]];
     beta_ := [half; half]; gamma_ := f1; alpha0_ := f1; H_ := [f1];
     memoized_log_stirling_ := ∅; max_pi := half; K := 1 |}.

(** What the constructor builds from [gamma = alpha0 = 1], [H = (1)] and
    [data]: [u] is the container of slice values it derives from [data], and
    [garbage] the content of the uninitialised [max_pi]. *)
Definition constructed (data : meta_vector size_t) (u : meta_vector float)
    (garbage : float) : hmm :=
  {| data_ := data; s_ := []; u_ := u; m_ := [[0]]; counts_ := [[0]];
     pi_ := [[f0; f0]]; phi_ := [[f0]]; beta_ := [f0; f0];
     gamma_ := f1; alpha0_ := f1; H_ := [f1];
     memoized_log_stirling_ := ∅; max_pi := garbage; K := 1 |}.

(** A sampler without any state and without data. *)
Definition bare (top : float) : hmm :=
  {| data_ := []; s_ := []; u_ := []; m_ := []; counts_ := []; pi_ := [];
     phi_ := []; beta_ := [f1]; gamma_ := f1; alpha0_ := f1; H_ := [f1];
     memoized_log_stirling_ := ∅; max_pi := top; K := 0 |}.

Definition on (index : size_t) (h : hmm) : world (fixed index) :=
  Build_world (fixed index) h tt.

(** A sampler with one state whose only pair of states has been counted
    [count] times. *)
Definition counted (count : size_t) : hmm :=
  {| data_ := []; s_ := []; u_ := []; m_ := [[0]]; counts_ := [[count]];
     pi_ := [[half; half]]; phi_ := [[f1]]; beta_ := [half; half];
     gamma_ := f1; alpha0_ := f1; H_ := [f1];
     memoized_log_stirling_ := ∅; max_pi := half; K := 1 |}.

(** ** Relations between the sampler before and after a stage *)

(** [cache_le]: a key of the table of Stirling numbers keeps the row it
    has; a key without a row is left without one or gets the row that
    [log_stirling1_row] computes for it. *)
Definition cache_le {P} (w w' : world P) : Prop :=
  forall n,
    match memoized_log_stirling_ (self w) !! n with
    | Some row => memoized_log_stirling_ (self w') !! n = Some row
    | None =>
        memoized_log_stirling_ (self w') !! n = None \/
        memoized_log_stirling_ (self w') !! n
        = Some (distributions.log_stirling1_row P n)
    end.

(** The sizes that the comments of the class give to the transition matrix
    and to the stick lengths: [K] rows of [K + 1] entries, and [K + 1]
    lengths. *)
Definition sized (h : hmm) : Prop :=
  0 <= K h /\ shape (pi_ h) = vmake (K h) (K h + 1) /\ vsize (beta_ h) = K h + 1.

(** [keeps_sized]: these sizes hold after if they held before. *)
Definition keeps_sized {P} (w w' : world P) : Prop :=
  sized (self w) -> sized (self w').

(** [same_outside_row f i]: the container [f] has the shape it had, and
    outside its row [i] the entries it had. *)
Definition same_outside_row {P T} (f : hmm -> meta_vector T) (i : Z)
    (w w' : world P) : Prop :=
  shape (f (self w')) = shape (f (self w)) /\
  forall i' j, i' <> i ->
    MetaVector.get (f (self w')) i' j = MetaVector.get (f (self w)) i' j.

(** * Reasoning about computations *)

Section Logic.

Context {S : Type}.

Lemma bind_Ok {A B} (m : M S A) (k : A -> M S B) s b s' :
  bind m k s = Ok (b, s') ->
  exists a s1, m s = Ok (a, s1) /\ k a s1 = Ok (b, s').
Proof.
  unfold bind. destruct (m s) as [[a s1]| | |]; try discriminate.
  intros H. exists a, s1. split; [reflexivity | exact H].
Qed.

Lemma must_Ok {A} (o : option A) (s : S) a s' :
  must o s = Ok (a, s') -> o = Some a /\ s' = s.
Proof.
  destruct o as [x|]; cbn; [|discriminate].
  intros H. injection H as -> ->. split; reflexivity.
Qed.

Section Respects.

Context (R : S -> S -> Prop) `{!PreOrder R}.

Lemma respects_ret {A} (a : A) : respects R (ret a).
Proof. intros s a' s' H. injection H as _ <-. reflexivity. Qed.

Lemma respects_undefined {A} : respects R (@undefined S A).
Proof. intros s a s' H. discriminate. Qed.

Lemma respects_out_of_fuel {A} : respects R (@out_of_fuel S A).
Proof. intros s a s' H. discriminate. Qed.

Lemma respects_must {A} (o : option A) : respects R (must o).
Proof. destruct o; [apply respects_ret | apply respects_undefined]. Qed.

Lemma respects_bind {A B} (m : M S A) (k : A -> M S B) :
  respects R m -> (forall a, respects R (k a)) -> respects R (bind m k).
Proof.
  intros Hm Hk s b s' H.
  apply bind_Ok in H as (a & s1 & H1 & H2).
  transitivity s1; [eapply Hm | eapply Hk]; eassumption.
Qed.

Lemma respects_if {A} (b : bool) (m1 m2 : M S A) :
  respects R m1 -> respects R m2 -> respects R (if b then m1 else m2).
Proof. destruct b; auto. Qed.

Lemma respects_iter_from {A} (body : Z -> A -> M S A) :
  (forall i a, respects R (body i a)) ->
  forall n i a, respects R (iter_from n i body a).
Proof.
  intros Hbody n. induction n as [|n IH]; intros i a; cbn [iter_from].
  - apply respects_ret.
  - apply respects_bind; [apply Hbody | intros a'; apply IH].
Qed.

Lemma respects_for_int {A} bound (body : Z -> A -> M S A) a :
  (forall i a, respects R (body i a)) -> respects R (for_int bound body a).
Proof.
  intros Hbody. unfold for_int.
  apply respects_if; [apply respects_undefined | now apply respects_iter_from].
Qed.

End Respects.

Lemma silent_ret {A} (a : A) : silent (@ret S A a).
Proof. intros s e H. discriminate. Qed.

Lemma silent_undefined {A} : silent (@undefined S A).
Proof. intros s e H. discriminate. Qed.

Lemma silent_out_of_fuel {A} : silent (@out_of_fuel S A).
Proof. intros s e H. discriminate. Qed.

Lemma silent_must {A} (o : option A) : silent (@must S A o).
Proof. destruct o; [apply silent_ret | apply silent_undefined]. Qed.

Lemma silent_bind {A B} (m : M S A) (k : A -> M S B) :
  silent m -> (forall a, silent (k a)) -> silent (bind m k).
Proof.
  intros Hm Hk s e. unfold bind.
  destruct (m s) as [[a s1]|e'| |] eqn:E; try discriminate.
  - apply Hk.
  - intros _. exact (Hm s e' E).
Qed.

Lemma silent_if {A} (b : bool) (m1 m2 : M S A) :
  silent m1 -> silent m2 -> silent (if b then m1 else m2).
Proof. destruct b; auto. Qed.

Lemma silent_iter_from {A} (body : Z -> A -> M S A) :
  (forall i a, silent (body i a)) ->
  forall n i a, silent (iter_from n i body a).
Proof.
  intros Hbody n. induction n as [|n IH]; intros i a; cbn [iter_from].
  - apply silent_ret.
  - apply silent_bind; [apply Hbody | intros a'; apply IH].
Qed.

Lemma silent_for_int {A} bound (body : Z -> A -> M S A) a :
  (forall i a, silent (body i a)) -> silent (for_int bound body a).
Proof.
  intros Hbody. unfold for_int.
  apply silent_if; [apply silent_undefined | now apply silent_iter_from].
Qed.

Lemma silent_load : silent (@load S).
Proof. intros s e H. discriminate. Qed.

Lemma silent_store (s0 : S) : silent (store s0).
Proof. intros s e H. discriminate. Qed.

(** A completed [for] loop had a bound that fits the counter. *)
Lemma for_int_Ok_bound {A} bound (body : Z -> A -> M S A) a s r :
  for_int bound body a s = Ok r -> bound <= INT_MAX.
Proof.
  unfold for_int. destruct (INT_MAX <? bound) eqn:E; [discriminate|].
  intros _. apply Z.ltb_ge in E. exact E.
Qed.

End Logic.

(** * Frame properties of the stages *)

#[global] Instance same_preorder {P X} (f : hmm -> X) : PreOrder (@same P X f).
Proof.
  split.
  - intros w. reflexivity.
  - intros w1 w2 w3 H12 H23. unfold same in *. congruence.
Qed.

#[global] Instance K_le_preorder {P} : PreOrder (@K_le P).
Proof.
  split.
  - intros w. unfold K_le. lia.
  - intros w1 w2 w3 H12 H23. unfold K_le in *. lia.
Qed.

Lemma same_K_le {P} (w w' : world P) : same K w w' -> K_le w w'.
Proof. unfold same, K_le. lia. Qed.

Section Primitives.

Context {P : distributions.Provider}.
Context (R : world P -> world P -> Prop) `{!PreOrder R}.

Lemma respects_this : respects R (this P).
Proof. intros w h w' H. injection H as _ <-. reflexivity. Qed.

Lemma respects_update (f : hmm -> hmm) :
  (forall h g, R (Build_world P h g) (Build_world P (f h) g)) ->
  respects R (update P f).
Proof.
  intros Hf [h g] [] w' H. injection H as <-. apply Hf.
Qed.

Lemma respects_draw {A} (f : distributions.rng_t P -> A * distributions.rng_t P) :
  (forall h g g', R (Build_world P h g) (Build_world P h g')) ->
  respects R (draw P f).
Proof.
  intros Hf [h g] a w'. unfold draw. cbn.
  destruct (f g) as [a' g'] eqn:E.
  intros H. injection H as _ <-. apply Hf.
Qed.

Lemma respects_for_down {A} start (body : Z -> A -> M (world P) A) a :
  (forall t a, respects R (body t a)) -> respects R (for_down P start body a).
Proof.
  intros Hbody. unfold for_down.
  generalize (Z.to_nat start) as n. generalize start as t. revert a.
  intros a t n. revert t a.
  induction n as [|n IH]; intros t a; cbn [iter_down].
  - apply respects_ret. exact _.
  - apply respects_bind; [exact _ | apply Hbody | intros a'; apply IH].
Qed.

End Primitives.

Section Silence.

Context {P : distributions.Provider}.

Lemma silent_this : silent (this P).
Proof. intros w e H. discriminate. Qed.

Lemma silent_update (f : hmm -> hmm) : silent (update P f).
Proof. intros w e H. discriminate. Qed.

Lemma silent_draw {A} (f : distributions.rng_t P -> A * distributions.rng_t P) :
  silent (draw P f).
Proof. intros w e. unfold draw. destruct (f (rng w)). discriminate. Qed.

Lemma silent_for_down {A} start (body : Z -> A -> M (world P) A) a :
  (forall t a, silent (body t a)) -> silent (for_down P start body a).
Proof.
  intros Hbody. unfold for_down.
  generalize (Z.to_nat start) as n. generalize start as t. revert a.
  intros a t n. revert t a.
  induction n as [|n IH]; intros t a; cbn [iter_down].
  - apply silent_ret.
  - apply silent_bind; [apply Hbody | intros a'; apply IH].
Qed.

End Silence.

Create HintDb frames discriminated.

(** One rule of the logic, chosen by the head of the computation. *)
Ltac frame_step :=
  lazymatch goal with
  | |- respects _ (bind _ _) => apply respects_bind; [exact _ | | intros ?]
  | |- respects _ (ret _) => apply respects_ret; exact _
  | |- respects _ (must _) => apply respects_must; exact _
  | |- respects _ undefined => apply respects_undefined
  | |- respects _ out_of_fuel => apply respects_out_of_fuel
  | |- respects _ (this _) => apply respects_this; exact _
  | |- respects _ (update _ _) =>
      apply respects_update; intros; first [reflexivity | unfold K_le; cbn; lia]
  | |- respects _ (draw _ _) =>
      apply respects_draw; intros; first [reflexivity | unfold K_le; cbn; lia]
  | |- respects _ (for_int _ _ _) => apply respects_for_int; [exact _ | intros ? ?]
  | |- respects _ (for_down _ _ _ _) => apply respects_for_down; [exact _ | intros ? ?]
  | |- respects _ (if ?b then _ else _) => first [apply respects_if | destruct b]
  | |- respects _ (match ?x with _ => _ end) => destruct x
  | |- silent (bind _ _) => apply silent_bind; [| intros ?]
  | |- silent (ret _) => apply silent_ret
  | |- silent (must _) => apply silent_must
  | |- silent undefined => apply silent_undefined
  | |- silent out_of_fuel => apply silent_out_of_fuel
  | |- silent (this _) => apply silent_this
  | |- silent (update _ _) => apply silent_update
  | |- silent (draw _ _) => apply silent_draw
  | |- silent (for_int _ _ _) => apply silent_for_int; intros ? ?
  | |- silent (for_down _ _ _ _) => apply silent_for_down; intros ? ?
  | |- silent (if ?b then _ else _) => first [apply silent_if | destruct b]
  | |- silent (match ?x with _ => _ end) => destruct x
  end.

Ltac frame := repeat first [solve [auto with frames nocore] | frame_step].

Lemma respects_weaken {S A} (R R' : S -> S -> Prop) (m : M S A) :
  (forall s s', R s s' -> R' s s') -> respects R m -> respects R' m.
Proof. intros HR Hm s a s' H. apply HR. eapply Hm. exact H. Qed.

Section StageFrames.

Context (P : distributions.Provider).

(** ** The number of states *)

Lemma raise_max_pi_K x : respects (same K) (raise_max_pi P x).
Proof. unfold raise_max_pi. frame. Qed.
Hint Resolve raise_max_pi_K : frames.

Lemma raise_max_pi_pi x : respects (same pi_) (raise_max_pi P x).
Proof. unfold raise_max_pi. frame. Qed.

Lemma sample_pi_row_K i : respects (same K) (sample_pi_row P i).
Proof. unfold sample_pi_row. frame. Qed.
Hint Resolve sample_pi_row_K : frames.

Lemma sample_pi_K : respects (same K) (sample_pi P).
Proof. unfold sample_pi. frame. Qed.

Lemma sample_phi_K : respects (same K) (sample_phi P).
Proof. unfold sample_phi. frame. Qed.

Lemma sample_u_at_K i j min_u : respects (same K) (sample_u_at P i j min_u).
Proof. unfold sample_u_at. frame. Qed.
Hint Resolve sample_u_at_K : frames.

Lemma sample_u_slices_K : respects (same K) (sample_u_slices P).
Proof. unfold sample_u_slices. frame. Qed.

Lemma instantiate_state_K : respects (same K) (instantiate_state P).
Proof. unfold instantiate_state. frame. Qed.

Lemma fill_prob_K i t k probs : respects (same K) (fill_prob P i t k probs).
Proof. unfold fill_prob. frame. Qed.
Hint Resolve fill_prob_K : frames.

Lemma accumulate_step_K i t probs : respects (same K) (accumulate_step P i t probs).
Proof. unfold accumulate_step. frame. Qed.
Hint Resolve accumulate_step_K : frames.

Lemma normalize_step_K t total probs : respects (same K) (normalize_step P t total probs).
Proof. unfold normalize_step. frame. Qed.
Hint Resolve normalize_step_K : frames.

Lemma filter_step_K i t probs : respects (same K) (filter_step P i t probs).
Proof. unfold filter_step. frame. Qed.
Hint Resolve filter_step_K : frames.

Lemma forward_filter_K i n : respects (same K) (forward_filter P i n).
Proof. unfold forward_filter. frame. Qed.
Hint Resolve forward_filter_K : frames.

Lemma backward_sample_K i n probs : respects (same K) (backward_sample P i n probs).
Proof. unfold backward_sample. frame. Qed.
Hint Resolve backward_sample_K : frames.

Lemma sample_s_seq_K sizes i : respects (same K) (sample_s_seq P sizes i).
Proof. unfold sample_s_seq. frame. Qed.
Hint Resolve sample_s_seq_K : frames.

Lemma sample_s_K : respects (same K) (sample_s P).
Proof. unfold sample_s. frame. Qed.

Lemma sample_m_at_K i j : respects (same K) (sample_m_at P i j).
Proof. unfold sample_m_at. frame. Qed.
Hint Resolve sample_m_at_K : frames.

Lemma sample_m_K : respects (same K) (sample_m P).
Proof. unfold sample_m. frame. Qed.
Hint Resolve sample_m_K : frames.

Lemma sample_beta_K : respects (same K) (sample_beta P).
Proof. unfold sample_beta. frame. Qed.

(** ** The transition counts in [sample_s] *)

Lemma fill_prob_counts i t k probs :
  respects (same counts_) (fill_prob P i t k probs).
Proof. unfold fill_prob. frame. Qed.
Hint Resolve fill_prob_counts : frames.

Lemma filter_step_counts i t probs :
  respects (same counts_) (filter_step P i t probs).
Proof. unfold filter_step, accumulate_step, normalize_step. frame. Qed.
Hint Resolve filter_step_counts : frames.

Lemma forward_filter_counts i n :
  respects (same counts_) (forward_filter P i n).
Proof. unfold forward_filter. frame. Qed.
Hint Resolve forward_filter_counts : frames.

Lemma backward_sample_counts i n probs :
  respects (same counts_) (backward_sample P i n probs).
Proof. unfold backward_sample. frame. Qed.
Hint Resolve backward_sample_counts : frames.

(** The body of the loop over the sequences samples the states of one
    sequence and leaves [counts_] alone. *)
Lemma sample_s_seq_counts sizes i :
  respects (same counts_) (sample_s_seq P sizes i).
Proof. unfold sample_s_seq. frame. Qed.

(** ** No stage raises an error *)

Lemma raise_max_pi_silent x : silent (raise_max_pi P x).
Proof. unfold raise_max_pi. frame. Qed.
Hint Resolve raise_max_pi_silent : frames.

Lemma sample_pi_row_silent i : silent (sample_pi_row P i).
Proof. unfold sample_pi_row. frame. Qed.
Hint Resolve sample_pi_row_silent : frames.

Lemma sample_pi_silent : silent (sample_pi P).
Proof. unfold sample_pi. frame. Qed.
Hint Resolve sample_pi_silent : frames.

Lemma sample_phi_silent : silent (sample_phi P).
Proof. unfold sample_phi. frame. Qed.
Hint Resolve sample_phi_silent : frames.

Lemma sample_u_at_silent i j min_u : silent (sample_u_at P i j min_u).
Proof. unfold sample_u_at. frame. Qed.
Hint Resolve sample_u_at_silent : frames.

Lemma sample_u_slices_silent : silent (sample_u_slices P).
Proof. unfold sample_u_slices. frame. Qed.
Hint Resolve sample_u_slices_silent : frames.

Lemma add_state_silent : silent (add_state P).
Proof. unfold add_state, instantiate_state. frame. Qed.
Hint Resolve add_state_silent : frames.

Lemma grow_silent fuel min_u : silent (grow P fuel min_u).
Proof. induction fuel as [|fuel IH]; cbn [grow]; frame. Qed.
Hint Resolve grow_silent : frames.

Lemma sample_u_silent fuel : silent (sample_u P fuel).
Proof. unfold sample_u. frame. Qed.
Hint Resolve sample_u_silent : frames.

Lemma fill_prob_silent i t k probs : silent (fill_prob P i t k probs).
Proof. unfold fill_prob. frame. Qed.
Hint Resolve fill_prob_silent : frames.

Lemma filter_step_silent i t probs : silent (filter_step P i t probs).
Proof. unfold filter_step, accumulate_step, normalize_step. frame. Qed.
Hint Resolve filter_step_silent : frames.

Lemma forward_filter_silent i n : silent (forward_filter P i n).
Proof. unfold forward_filter. frame. Qed.
Hint Resolve forward_filter_silent : frames.

Lemma backward_sample_silent i n probs : silent (backward_sample P i n probs).
Proof. unfold backward_sample. frame. Qed.
Hint Resolve backward_sample_silent : frames.

Lemma sample_s_seq_silent sizes i : silent (sample_s_seq P sizes i).
Proof. unfold sample_s_seq. frame. Qed.
Hint Resolve sample_s_seq_silent : frames.

Lemma sample_s_silent : silent (sample_s P).
Proof. unfold sample_s. frame. Qed.
Hint Resolve sample_s_silent : frames.

Lemma sample_m_at_silent i j : silent (sample_m_at P i j).
Proof. unfold sample_m_at. frame. Qed.
Hint Resolve sample_m_at_silent : frames.

Lemma sample_m_silent : silent (sample_m P).
Proof. unfold sample_m. frame. Qed.
Hint Resolve sample_m_silent : frames.

Lemma sample_beta_silent : silent (sample_beta P).
Proof. unfold sample_beta. frame. Qed.
Hint Resolve sample_beta_silent : frames.

Lemma sample_beam_silent fuel : silent (sample_beam P fuel).
Proof. unfold sample_beam. frame. Qed.

(** ** The growth loop and the number of states *)

(** A completed [sample_pi_row] ran its loop over [k < K] to the end, so that
    [K] fits the [int] counter. *)
Lemma sample_pi_row_Ok_bound i w r :
  sample_pi_row P i w = Ok r -> K (self w) <= INT_MAX.
Proof.
  unfold sample_pi_row. destruct r as [u w'].
  intros H. apply bind_Ok in H as (h & w1 & Hthis & H).
  injection Hthis as <- <-.
  apply bind_Ok in H as (alphas & w2 & Hloop & _).
  eapply for_int_Ok_bound. exact Hloop.
Qed.

Lemma instantiate_state_Ok_bound w r :
  instantiate_state P w = Ok r -> K (self w) <= INT_MAX.
Proof.
  unfold instantiate_state. destruct r as [u w'].
  intros H. apply bind_Ok in H as (h & w1 & Hthis & H).
  injection Hthis as <- <-.
  apply bind_Ok in H as ([] & w2 & Hupd & H).
  injection Hupd as <-.
  apply bind_Ok in H as ([] & w3 & Hrow & _).
  apply sample_pi_row_Ok_bound in Hrow. exact Hrow.
Qed.

(** [K++]: the body of the growth loop leaves [K + 1], reduced to 64 bits,
    and it completes only from a [K] that fits an [int]. *)
Lemma add_state_K w w' :
  add_state P w = Ok (tt, w') ->
  K (self w') = wrap (K (self w) + 1) /\ K (self w) <= INT_MAX.
Proof.
  unfold add_state. intros H.
  apply bind_Ok in H as ([] & w1 & Hinst & H).
  pose proof (instantiate_state_Ok_bound _ _ Hinst) as Hbound.
  apply instantiate_state_K in Hinst. unfold same in Hinst.
  apply bind_Ok in H as (h & w2 & Hthis & H).
  injection Hthis as <- <-.
  injection H as <-. cbn. rewrite Hinst. split; [reflexivity | exact Hbound].
Qed.

Lemma wrap_succ_small k : 0 <= k <= INT_MAX -> wrap (k + 1) = k + 1.
Proof.
  intros Hk. unfold wrap. apply Z.mod_small.
  unfold INT_MAX in Hk. lia.
Qed.

Lemma add_state_K_succ w w' :
  0 <= K (self w) -> add_state P w = Ok (tt, w') -> K (self w') = K (self w) + 1.
Proof.
  intros H0 H. apply add_state_K in H as [-> Hb].
  apply wrap_succ_small. lia.
Qed.

Lemma add_state_K_le : respects K_le (add_state P).
Proof.
  intros w [] w' H. apply add_state_K in H as [HK Hb]. unfold K_le. rewrite HK.
  destruct (Z.lt_ge_cases (K (self w)) 0) as [Hneg|Hpos].
  - unfold wrap. pose proof (Z.mod_pos_bound (K (self w) + 1) (2 ^ 64)). lia.
  - rewrite wrap_succ_small by lia. lia.
Qed.
Hint Resolve add_state_K_le : frames.

Lemma grow_K_le fuel min_u : respects K_le (grow P fuel min_u).
Proof. induction fuel as [|fuel IH]; cbn [grow]; frame. Qed.
Hint Resolve grow_K_le : frames.

Lemma sample_u_K_le fuel : respects K_le (sample_u P fuel).
Proof.
  unfold sample_u. frame.
  eapply respects_weaken; [apply same_K_le | apply sample_u_slices_K].
Qed.

Lemma sample_beam_K_le fuel : respects K_le (sample_beam P fuel).
Proof.
  unfold sample_beam.
  apply respects_bind; [exact _ | apply sample_u_K_le | intros _].
  apply respects_bind; [exact _ | | intros _].
  { eapply respects_weaken; [apply same_K_le | apply sample_s_K]. }
  apply respects_bind; [exact _ | | intros _].
  { eapply respects_weaken; [apply same_K_le | apply sample_pi_K]. }
  apply respects_bind; [exact _ | | intros _].
  { eapply respects_weaken; [apply same_K_le | apply sample_phi_K]. }
  eapply respects_weaken; [apply same_K_le | apply sample_beta_K].
Qed.

Lemma sweeps_K_le fuels : respects K_le (sweeps P fuels).
Proof.
  induction fuels as [|fuel fuels IH]; cbn [sweeps].
  - apply respects_ret. exact _.
  - apply respects_bind; [exact _ | apply sample_beam_K_le | intros _; exact IH].
Qed.

End StageFrames.

(** * Vectors and loops that stay in range *)

Section VectorFacts.

Context {A : Type}.
Implicit Types (v : list A).

Lemma vget_in_range v i : 0 <= i < vsize v -> is_Some (vget v i).
Proof.
  intros Hi. unfold vget, vsize in *.
  replace ((0 <=? i) && (i <? Z.of_nat (length v))) with true
    by (symmetry; apply andb_true_iff; split; [apply Z.leb_le | apply Z.ltb_lt]; lia).
  apply lookup_lt_is_Some. lia.
Qed.

Lemma vget_Some v i x : vget v i = Some x -> 0 <= i < vsize v.
Proof.
  unfold vget, vsize.
  destruct ((0 <=? i) && (i <? Z.of_nat (length v))) eqn:E; [|discriminate].
  intros _. apply andb_true_iff in E as [E1 E2].
  apply Z.leb_le in E1. apply Z.ltb_lt in E2. lia.
Qed.

Lemma vset_in_range v i x : 0 <= i < vsize v -> is_Some (vset v i x).
Proof.
  intros Hi. unfold vset, vsize in *.
  replace ((0 <=? i) && (i <? Z.of_nat (length v))) with true
    by (symmetry; apply andb_true_iff; split; [apply Z.leb_le | apply Z.ltb_lt]; lia).
  eexists. reflexivity.
Qed.

Lemma vset_Some v i x v' :
  vset v i x = Some v' -> 0 <= i < vsize v /\ v' = <[Z.to_nat i := x]> v.
Proof.
  unfold vset, vsize.
  destruct ((0 <=? i) && (i <? Z.of_nat (length v))) eqn:E; [|discriminate].
  intros H. injection H as <-. apply andb_true_iff in E as [E1 E2].
  apply Z.leb_le in E1. apply Z.ltb_lt in E2. split; [lia | reflexivity].
Qed.

Lemma vset_size v i x v' : vset v i x = Some v' -> vsize v' = vsize v.
Proof.
  intros H. apply vset_Some in H as [_ ->]. unfold vsize.
  rewrite length_insert. reflexivity.
Qed.

Lemma vget_vset_eq v i x v' : vset v i x = Some v' -> vget v' i = Some x.
Proof.
  intros H. pose proof (vset_size _ _ _ _ H) as Hsize.
  apply vset_Some in H as [Hi ->]. unfold vget, vsize in *.
  replace ((0 <=? i) && (i <? Z.of_nat (length (<[Z.to_nat i:=x]> v)))) with true
    by (symmetry; apply andb_true_iff; split; [apply Z.leb_le | apply Z.ltb_lt]; lia).
  apply list_lookup_insert_eq. lia.
Qed.

Lemma vget_vset_ne v i x v' j : vset v i x = Some v' -> j <> i -> vget v' j = vget v j.
Proof.
  intros H Hne. pose proof (vset_size _ _ _ _ H) as Hsize.
  apply vset_Some in H as [Hi ->]. unfold vget, vsize in *.
  rewrite Hsize.
  destruct ((0 <=? j) && (j <? Z.of_nat (length v))) eqn:E; [|reflexivity].
  apply andb_true_iff in E as [E1 E2]. apply Z.leb_le in E1.
  apply list_lookup_insert_ne. lia.
Qed.

Lemma vsize_vmake n (d : A) : vsize (vmake n d) = Z.max 0 n.
Proof. unfold vsize, vmake. rewrite length_replicate. lia. Qed.

End VectorFacts.

Section RaggedFacts.

Context {A : Type}.
Implicit Types (mv : meta_vector A).

Lemma get_in_shape mv i j n :
  vget (shape mv) i = Some n -> 0 <= j < n -> is_Some (MetaVector.get mv i j).
Proof.
  intros Hn Hj. unfold MetaVector.get.
  assert (exists row, vget mv i = Some row /\ vsize row = n) as (row & -> & Hrow).
  { unfold vget, shape in *. rewrite length_fmap in Hn.
    destruct ((0 <=? i) && (i <? Z.of_nat (length mv))); [|discriminate].
    rewrite list_lookup_fmap in Hn.
    match type of Hn with _ <$> ?o = _ => destruct o as [row|] end;
      cbn in Hn; [|discriminate].
    injection Hn as <-. exists row. split; reflexivity. }
  cbn. apply vget_in_range. lia.
Qed.

Lemma set_shape mv i j x mv' : MetaVector.set mv i j x = Some mv' -> shape mv' = shape mv.
Proof.
  unfold MetaVector.set. intros H.
  destruct (vget mv i) as [row|] eqn:Hrow; [|discriminate]. cbn in H.
  destruct (vset row j x) as [row'|] eqn:Hrow'; [|discriminate]. cbn in H.
  apply vset_size in Hrow'. apply vset_Some in H as [Hi ->].
  unfold shape. rewrite list_fmap_insert. apply list_insert_id.
  rewrite list_lookup_fmap. unfold vget in Hrow.
  destruct ((0 <=? i) && (i <? Z.of_nat (length mv))); [|discriminate].
  rewrite Hrow. cbn. congruence.
Qed.

Lemma set_in_range mv i j x :
  is_Some (MetaVector.get mv i j) -> is_Some (MetaVector.set mv i j x).
Proof.
  unfold MetaVector.get, MetaVector.set. intros [y Hy].
  destruct (vget mv i) as [row|] eqn:Hrow; [|discriminate]. cbn in *.
  apply vget_Some in Hy.
  destruct (vset_in_range row j x Hy) as [row' ->]. cbn.
  apply vset_in_range. eapply vget_Some. exact Hrow.
Qed.

Lemma get_set_eq mv i j x mv' :
  MetaVector.set mv i j x = Some mv' -> MetaVector.get mv' i j = Some x.
Proof.
  unfold MetaVector.get, MetaVector.set. intros H.
  destruct (vget mv i) as [row|] eqn:Hrow; [|discriminate]. cbn in H.
  destruct (vset row j x) as [row'|] eqn:Hrow'; [|discriminate]. cbn in H.
  rewrite (vget_vset_eq _ _ _ _ H). cbn. eapply vget_vset_eq. exact Hrow'.
Qed.

Lemma get_set_ne mv i j x mv' j' :
  MetaVector.set mv i j x = Some mv' -> j' <> j ->
  MetaVector.get mv' i j' = MetaVector.get mv i j'.
Proof.
  unfold MetaVector.get, MetaVector.set. intros H Hne.
  destruct (vget mv i) as [row|] eqn:Hrow; [|discriminate]. cbn in H.
  destruct (vset row j x) as [row'|] eqn:Hrow'; [|discriminate]. cbn in H.
  rewrite (vget_vset_eq _ _ _ _ H). cbn. eapply vget_vset_ne; eassumption.
Qed.

End RaggedFacts.

Section LoopFacts.

Context {S A : Type}.

(** A loop whose body stays in range as long as an invariant holds runs to
    its end and keeps the invariant. *)
Lemma iter_from_total (Inv : Z -> A -> S -> Prop) (body : Z -> A -> M S A) :
  forall n i a s,
    (forall k a s, i <= k < i + Z.of_nat n -> Inv k a s ->
                   exists a' s', body k a s = Ok (a', s') /\ Inv (k + 1) a' s') ->
    Inv i a s ->
    exists a' s', iter_from n i body a s = Ok (a', s') /\ Inv (i + Z.of_nat n) a' s'.
Proof.
  induction n as [|n IH]; intros i a s Hbody Hinv.
  - exists a, s. cbn. rewrite Z.add_0_r. split; [reflexivity | exact Hinv].
  - destruct (Hbody i a s ltac:(lia) Hinv) as (a1 & s1 & H1 & Hinv1).
    destruct (IH (i + 1) a1 s1) as (a' & s' & H' & Hinv').
    + intros k a2 s2 Hk. apply Hbody. lia.
    + exact Hinv1.
    + exists a', s'. cbn [iter_from]. unfold bind at 1. rewrite H1.
      split; [exact H' |].
      replace (i + Z.of_nat (Datatypes.S n)) with (i + 1 + Z.of_nat n) by lia.
      exact Hinv'.
Qed.

Lemma for_int_total (Inv : Z -> A -> S -> Prop) bound (body : Z -> A -> M S A) a s :
  0 <= bound <= INT_MAX ->
  (forall k a s, 0 <= k < bound -> Inv k a s ->
                 exists a' s', body k a s = Ok (a', s') /\ Inv (k + 1) a' s') ->
  Inv 0 a s ->
  exists a' s', for_int bound body a s = Ok (a', s') /\ Inv bound a' s'.
Proof.
  intros Hb Hbody Hinv. unfold for_int.
  replace (INT_MAX <? bound) with false by (symmetry; apply Z.ltb_ge; lia).
  destruct (iter_from_total Inv body (Z.to_nat bound) 0 a s) as (a' & s' & H & Hinv').
  - intros k a1 s1 Hk. apply Hbody. lia.
  - exact Hinv.
  - exists a', s'. split; [exact H |].
    replace bound with (0 + Z.of_nat (Z.to_nat bound)) at 1 by lia. exact Hinv'.
Qed.

(** A completed loop has carried an invariant from its first turn to its
    last. *)
Lemma iter_from_inv (Inv : Z -> A -> S -> Prop) (body : Z -> A -> M S A) :
  forall n i a s a' s',
    (forall k a s a' s', i <= k < i + Z.of_nat n -> Inv k a s ->
                         body k a s = Ok (a', s') -> Inv (k + 1) a' s') ->
    Inv i a s ->
    iter_from n i body a s = Ok (a', s') ->
    Inv (i + Z.of_nat n) a' s'.
Proof.
  induction n as [|n IH]; intros i a s a' s' Hbody Hinv H; cbn [iter_from] in H.
  - injection H as <- <-. rewrite Z.add_0_r. exact Hinv.
  - apply bind_Ok in H as (a1 & s1 & H1 & H2).
    replace (i + Z.of_nat (Datatypes.S n)) with (i + 1 + Z.of_nat n) by lia.
    eapply IH; [| |exact H2].
    + intros k a2 s2 a3 s3 Hk. apply Hbody. lia.
    + eapply Hbody; [|exact Hinv|exact H1]. lia.
Qed.

Lemma for_int_inv (Inv : Z -> A -> S -> Prop) bound (body : Z -> A -> M S A) a s a' s' :
  0 <= bound ->
  (forall k a s a' s', 0 <= k < bound -> Inv k a s ->
                       body k a s = Ok (a', s') -> Inv (k + 1) a' s') ->
  Inv 0 a s ->
  for_int bound body a s = Ok (a', s') ->
  Inv bound a' s'.
Proof.
  intros Hb Hbody Hinv. unfold for_int.
  destruct (INT_MAX <? bound); [discriminate|]. intros H.
  replace bound with (0 + Z.of_nat (Z.to_nat bound)) at 1 by lia.
  eapply iter_from_inv; [|exact Hinv|exact H].
  intros k a1 s1 a2 s2 Hk. apply Hbody. lia.
Qed.

(** The value a loop returns satisfies what its body maintains. *)
Lemma iter_from_yields (Q : A -> Prop) (body : Z -> A -> M S A) :
  (forall i a s a' s', Q a -> body i a s = Ok (a', s') -> Q a') ->
  forall n i a s a' s', Q a -> iter_from n i body a s = Ok (a', s') -> Q a'.
Proof.
  intros Hbody n. induction n as [|n IH]; intros i a s a' s' Ha H; cbn [iter_from] in H.
  - injection H as <- _. exact Ha.
  - apply bind_Ok in H as (a1 & s1 & H1 & H2).
    eapply IH; [|exact H2]. eapply Hbody; eassumption.
Qed.

Lemma for_int_yields (Q : A -> Prop) bound (body : Z -> A -> M S A) a s a' s' :
  (forall i a s a' s', Q a -> body i a s = Ok (a', s') -> Q a') ->
  Q a -> for_int bound body a s = Ok (a', s') -> Q a'.
Proof.
  intros Hbody Ha. unfold for_int.
  destruct (INT_MAX <? bound); [discriminate|].
  apply iter_from_yields; assumption.
Qed.

End LoopFacts.

(** * What [size()] returns *)

Lemma size_fold {T} (mv : meta_vector T) (acc : list size_t) :
  fold_left (fun sizes vec => sizes ++ [vsize vec]) mv acc = acc ++ shape mv.
Proof.
  revert acc. induction mv as [|row mv IH]; intros acc; cbn.
  - rewrite app_nil_r. reflexivity.
  - rewrite IH, <- app_assoc. reflexivity.
Qed.

Lemma size_eq {T} (mv : meta_vector T) :
  MetaVector.size mv = replicate (length mv) 0 ++ shape mv.
Proof.
  unfold MetaVector.size. rewrite size_fold. unfold vmake, vsize.
  rewrite Nat2Z.id. reflexivity.
Qed.

Lemma vsize_size {T} (mv : meta_vector T) : vsize (MetaVector.size mv) = 2 * vsize mv.
Proof.
  rewrite size_eq. unfold vsize, shape.
  rewrite length_app, length_replicate, length_fmap. lia.
Qed.

(** * The constructors stay in range *)

Lemma make2_one {T} (d : T) (n : size_t) : MetaVector.make2 d 1 n = Ok [vmake n d].
Proof. reflexivity. Qed.

Lemma make_sizes_Ok {T} (d : T) (size : list size_t) :
  vsize size <= INT_MAX ->
  exists mv, MetaVector.make_sizes d size = Ok mv /\ vsize mv = vsize size.
Proof.
  intros Hb. unfold MetaVector.make_sizes, exec.
  unfold bind at 1, load at 1.
  set (data0 := vmake (vsize size) ([] : list T)).
  assert (Hdata0 : vsize data0 = vsize size).
  { unfold data0. rewrite vsize_vmake. unfold vsize. lia. }
  edestruct (for_int_total
               (fun _ (_ : unit) (data : meta_vector T) => vsize data = vsize size)
               (vsize data0)) as ([] & mv & -> & Hmv).
  - unfold vsize in *. lia.
  - intros k [] data Hk Hinv.
    destruct (vget_in_range size k ltac:(lia)) as [n Hn].
    destruct (vset_in_range data k (vmake n d) ltac:(lia)) as [data' Hdata'].
    exists tt, data'. split.
    + unfold bind, load. rewrite Hn. cbn. rewrite Hdata'. reflexivity.
    + rewrite (vset_size _ _ _ _ Hdata'). exact Hinv.
  - exact Hdata0.
  - exists mv. split; [reflexivity | exact Hmv].
Qed.

(** * The forward filter *)

Lemma this_Ok {P} (w : world P) h w' : this P w = Ok (h, w') -> h = self w /\ w' = w.
Proof. intros H. injection H as <- <-. split; reflexivity. Qed.

Lemma ret_Ok {S A} (a : A) (s : S) a' s' : ret a s = Ok (a', s') -> a' = a /\ s' = s.
Proof. intros H. injection H as <- <-. split; reflexivity. Qed.

(** Decomposition of a completed run along its binds. *)
Ltac unbind :=
  repeat match goal with
  | H : bind _ _ _ = Ok _ |- _ =>
      let H1 := fresh "Hrun" in
      apply bind_Ok in H as (? & ? & H1 & H)
  | H : must _ _ = Ok _ |- _ => apply must_Ok in H as [? ?]
  | H : this _ _ = Ok _ |- _ => apply this_Ok in H as [? ?]
  | H : ret _ _ = Ok _ |- _ => apply ret_Ok in H as [? ?]
  end.

(** Division by a zero never gives a finite number: 0/0 is a NaN and x/0 is
    an infinity. *)
Lemma fdiv_by_zero (x z : float) : is_zero z = true -> is_finite (fdiv x z) = false.
Proof. destruct z; try discriminate. intros _. destruct x; reflexivity. Qed.

Section ForwardFilter.

Context (P : distributions.Provider).

Lemma fill_prob_shape i t k probs w q w' :
  fill_prob P i t k probs w = Ok (q, w') -> shape q = shape probs.
Proof.
  unfold fill_prob. intros H. unbind. subst.
  destruct (t =? 0).
  - unbind. subst. eapply set_shape. eassumption.
  - unbind. subst.
    match goal with H : for_int _ _ _ _ = Ok _ |- _ =>
      apply (for_int_yields (fun q => shape q = shape probs)) in H
    end.
    + etransitivity; [eapply set_shape; eassumption | assumption].
    + intros l q0 s0 q1 s1 Hq0 Hbody. unbind. subst.
      destruct (flt _ _).
      * unbind. subst. etransitivity; [eapply set_shape; eassumption | assumption].
      * unbind. subst. assumption.
    + eapply set_shape. eassumption.
Qed.

(** After the accumulation, row [t] of [probs] has an entry for each of the
    [K] states, and [K] fits the loop counter. *)
Lemma accumulate_step_row i t probs w q total w1 :
  accumulate_step P i t probs w = Ok ((q, total), w1) ->
  K (self w1) <= INT_MAX /\
  forall k, 0 <= k < K (self w1) -> is_Some (MetaVector.get q t k).
Proof.
  intros H. pose proof (accumulate_step_K P _ _ _ _ _ _ H) as HK. unfold same in HK.
  unfold accumulate_step in H. unbind. subst.
  rename x1 into probs1.
  pose proof (for_int_Ok_bound _ _ _ _ _ H) as Hb.
  apply (for_int_yields (fun '(q, _) => shape q = shape probs1)) in H.
  - rewrite HK. split; [exact Hb|]. intros k Hk.
    eapply get_in_shape; [|exact Hk]. rewrite H.
    unfold shape.
    match goal with H : vset _ _ _ = Some probs1 |- _ =>
      pose proof (vset_Some _ _ _ _ H) as [Ht ->] end.
    rewrite list_fmap_insert.
    unfold vget. rewrite length_insert, length_fmap.
    replace ((0 <=? t) && (t <? Z.of_nat (length probs))) with true
      by (symmetry; apply andb_true_iff; split; [apply Z.leb_le | apply Z.ltb_lt];
          unfold vsize in Ht; lia).
    rewrite list_lookup_insert_eq by (rewrite length_fmap; unfold vsize in Ht; lia).
    rewrite vsize_vmake. f_equal. lia.
  - intros k [q0 tot0] s0 [q1 tot1] s1 Hq0 Hbody. unbind. subst.
    match goal with H : (_, _) = (_, _) |- _ => injection H as ? ? end. subst.
    erewrite fill_prob_shape by eassumption. exact Hq0.
  - reflexivity.
Qed.

(** The normalisation divides every entry of row [t] by [total_prob],
    whatever [total_prob] is. *)
Lemma normalize_step_Ok t total q w :
  K (self w) <= INT_MAX ->
  (forall k, 0 <= k < K (self w) -> is_Some (MetaVector.get q t k)) ->
  exists q',
    normalize_step P t total q w = Ok (q', w) /\
    forall k, 0 <= k < K (self w) ->
              exists x, MetaVector.get q t k = Some x /\
                        MetaVector.get q' t k = Some (fdiv x total).
Proof.
  intros Hb Hrow. unfold normalize_step. unfold bind at 1, this at 1.
  destruct (Z.lt_ge_cases (K (self w)) 0) as [Hneg|Hpos].
  { exists q. unfold for_int.
    replace (INT_MAX <? K (self w)) with false by (symmetry; apply Z.ltb_ge; lia).
    replace (Z.to_nat (K (self w))) with 0%nat by lia. cbn.
    split; [reflexivity | intros k Hk; lia]. }
  edestruct (for_int_total
    (fun n (q' : meta_vector float) (w' : world P) =>
       w' = w /\
       (forall k, 0 <= k < n ->
                  exists x, MetaVector.get q t k = Some x /\
                            MetaVector.get q' t k = Some (fdiv x total)) /\
       (forall k, n <= k -> MetaVector.get q' t k = MetaVector.get q t k))
    (K (self w))) as (q' & w' & -> & -> & Hdone & _).
  - lia.
  - intros k q1 w1 Hk (-> & Hlow & Hhigh).
    destruct (Hrow k Hk) as [x Hx].
    assert (Hx1 : MetaVector.get q1 t k = Some x) by (rewrite Hhigh by lia; exact Hx).
    destruct (set_in_range q1 t k (fdiv x total) (mk_is_Some _ _ Hx1)) as [q2 Hq2].
    exists q2, w. split.
    + unfold bind. rewrite Hx1. cbn. rewrite Hq2. reflexivity.
    + split; [reflexivity|]. split.
      * intros j Hj. destruct (Z.eq_dec j k) as [->|Hne].
        -- exists x. split; [exact Hx | eapply get_set_eq; exact Hq2].
        -- destruct (Hlow j ltac:(lia)) as (y & Hy & Hy').
           exists y. split; [exact Hy|].
           rewrite (get_set_ne _ _ _ _ _ _ Hq2 Hne). exact Hy'.
      * intros j Hj. rewrite (get_set_ne q1 t k _ q2 j Hq2 ltac:(lia)).
        apply Hhigh. lia.
  - split; [reflexivity|]. split; [intros k Hk; lia | reflexivity].
  - exists q'. split; [reflexivity | exact Hdone].
Qed.

End ForwardFilter.

(** * The claims about the container and the constructor *)

(** C9.  [size()] is meant to return one length per row.  It returns twice as
    many numbers: a zero for every row first, and the lengths of the rows
    after them.  For the container of the two rows (7, 8) and (9) the result
    is (0, 0, 2, 1) instead of (2, 1). *)
Theorem size_prepends_zeros :
  (forall (T : Type) (mv : meta_vector T),
      MetaVector.size mv = replicate (length mv) 0 ++ shape mv) /\
  MetaVector.size [[7; 8]; [9]] = [0; 0; 2; 1].
Proof.
  split.
  - intros T mv. apply size_eq.
  - reflexivity.
Qed.

(** What the constructor builds from two observations in one sequence, and
    from no sequence at all. *)
Lemma hmm_new_of_one_sequence garbage :
  hmm_new f1 f1 [f1] [[0; 0]] garbage = Ok (constructed [[0; 0]] [[]; [f0; f0]] garbage).
Proof. reflexivity. Qed.

Lemma hmm_new_of_no_sequence garbage :
  hmm_new f1 f1 [f1] [] garbage = Ok (constructed [] [] garbage).
Proof. reflexivity. Qed.

(** C5, as stated, at [gamma = 0], [alpha0 = 0] and a single sequence of
    length zero: both hyperparameters are non-positive and a sequence is
    empty, and the constructor completes all the same. *)
Lemma hmm_new_accepts_degenerate_input :
  fge f0 f0 = true /\
  vsize ([] : list size_t) = 0 /\
  (exists h, hmm_new f0 f0 [f1] [[]] f0 = Ok h) /\
  hmm_new f0 f0 [f1] [[]] f0 <> Raise InvalidHyperparameter /\
  hmm_new f0 f0 [f1] [[]] f0 <> Raise DegenerateObservation.
Proof.
  split; [reflexivity|]. split; [reflexivity|]. split.
  - eexists. vm_compute. reflexivity.
  - split; vm_compute; discriminate.
Qed.

Lemma exec_silent {S A} (m : M S A) (s : S) (e : error) :
  silent m -> exec m s <> Raise e.
Proof.
  intros Hm. unfold exec. destruct (m s) as [[a s']|e'| |] eqn:E; try discriminate.
  exfalso. exact (Hm s e' E).
Qed.

Lemma make_sizes_silent {T} (d : T) (size : list size_t) (e : error) :
  MetaVector.make_sizes d size <> Raise e.
Proof.
  unfold MetaVector.make_sizes. apply exec_silent.
  apply silent_bind; [apply silent_load | intros data_].
  apply silent_for_int. intros i a.
  apply silent_bind; [apply silent_load | intros data].
  apply silent_bind; [apply silent_must | intros n].
  apply silent_bind; [apply silent_must | intros data'].
  apply silent_store.
Qed.

(** C5, amended.  The constructor validates nothing and has no error to
    report.  For every [gamma] and [alpha0], positive or not, and for all
    observation sequences, empty ones included, whose number, doubled, fits
    the [int] counter of the container, it completes; the sampler it builds
    has one state ([K = 1]), a 1 x 2 transition matrix and two stick weights,
    all zero. *)
Theorem hmm_new_always_constructs gamma alpha0 H data garbage :
  (forall e, hmm_new gamma alpha0 H data garbage <> Raise e) /\
  (2 * vsize data <= INT_MAX ->
   exists h,
     hmm_new gamma alpha0 H data garbage = Ok h /\
     K h = 1 /\ pi_ h = [[f0; f0]] /\ beta_ h = [f0; f0] /\
     gamma_ h = gamma /\ alpha0_ h = alpha0 /\ data_ h = data).
Proof.
  split.
  - intros e. unfold hmm_new.
    destruct (MetaVector.make_sizes f0 (MetaVector.size data)) as [u|e'| |] eqn:E;
      cbn [and_then]; try discriminate.
    exfalso. exact (make_sizes_silent _ _ _ E).
  - intros Hb. unfold hmm_new.
    destruct (make_sizes_Ok f0 (MetaVector.size data)) as (u & -> & _).
    { rewrite vsize_size. exact Hb. }
    cbn [and_then]. rewrite !make2_one. cbn [and_then].
    eexists. split; [reflexivity|]. cbn. repeat split; reflexivity.
Qed.

(** C5, amended, for a negative [alpha0], a zero [gamma] and two sequences of
    which one is empty. *)
Lemma hmm_new_always_constructs_witness :
  2 * vsize [[0; 1; 0]; []] <= INT_MAX /\
  exists h,
    hmm_new f0 (SFopp f1) [f1; f1] [[0; 1; 0]; []] two = Ok h /\
    K h = 1 /\ pi_ h = [[f0; f0]] /\ beta_ h = [f0; f0] /\
    gamma_ h = f0 /\ alpha0_ h = SFopp f1 /\ data_ h = [[0; 1; 0]; []].
Proof.
  split; [vm_compute; discriminate|].
  apply (proj2 (hmm_new_always_constructs f0 (SFopp f1) [f1; f1] [[0; 1; 0]; []] two)).
  vm_compute. discriminate.
Defined.

(** * The claims about the sampling stages *)

Lemma draw_eq {P A} (f : distributions.rng_t P -> A * distributions.rng_t P) w :
  draw P f w = Ok (fst (f (rng w)), Build_world P (self w) (snd (f (rng w)))).
Proof. unfold draw. destruct (f (rng w)). reflexivity. Qed.

(** The slice value that line 182 stores is the uniform draw divided by the
    probability of the transition taken. *)
Lemma sample_u_at_quotient P i j min_u (w : world P) m w' :
  sample_u_at P i j min_u w = Ok (m, w') ->
  exists prev cur p,
    (if j =? 0 then prev = 0 else MetaVector.get (s_ (self w)) i (j - 1) = Some prev) /\
    MetaVector.get (s_ (self w)) i j = Some cur /\
    MetaVector.get (pi_ (self w)) prev cur = Some p /\
    MetaVector.get (u_ (self w')) i j
    = Some (fdiv (fst (distributions.uniform_real P (rng w))) p).
Proof.
  unfold sample_u_at. intros H.
  apply bind_Ok in H as (h & w1 & Hthis & H). apply this_Ok in Hthis as [-> ->].
  apply bind_Ok in H as (prev & w1 & Hprev & H).
  assert (Hprev' : (if j =? 0 then prev = 0
                    else MetaVector.get (s_ (self w)) i (j - 1) = Some prev) /\ w1 = w).
  { destruct (j =? 0).
    - apply ret_Ok in Hprev as [-> ->]. split; reflexivity.
    - apply must_Ok in Hprev as [Hprev ->]. split; [exact Hprev | reflexivity]. }
  destruct Hprev' as [Hprev' ->]. clear Hprev.
  apply bind_Ok in H as (r & w2 & Hdraw & H).
  rewrite draw_eq in Hdraw. injection Hdraw as <- <-.
  apply bind_Ok in H as (cur & w3 & Hcur & H). apply must_Ok in Hcur as [Hcur ->].
  apply bind_Ok in H as (p & w3 & Hp & H). apply must_Ok in Hp as [Hp ->].
  apply bind_Ok in H as (u' & w3 & Hset & H). apply must_Ok in Hset as [Hset ->].
  apply bind_Ok in H as ([] & w3 & Hupd & H). injection Hupd as <-.
  apply bind_Ok in H as (h3 & w4 & Hthis & H). apply this_Ok in Hthis as [-> ->].
  apply bind_Ok in H as (uij & w4 & Hu & H). apply must_Ok in Hu as [Hu ->].
  apply ret_Ok in H as [_ ->].
  exists prev, cur, p. cbn in *.
  split; [exact Hprev'|]. split; [exact Hcur|]. split; [exact Hp|].
  eapply get_set_eq. exact Hset.
Qed.

(** C1.  The slice value is meant to stay below the probability of the
    transition that was taken.  Line 182 divides the uniform draw by that
    probability: with a draw of 1/2 and a transition of probability 1/2 the
    slice value of the first timestep is 1, which is not below 1/2.  The stage
    as a whole does not reach that assignment: it runs over [u_.size()], whose
    second half addresses rows that [u_] does not have, on this sampler and on
    the one the constructor builds for the same data. *)
Theorem slice_value_is_a_quotient :
  (exists w',
      sample_u_at (fixed 0) 0 0 f1 (on 0 (toy [[0; 0]] f1)) = Ok (f1, w') /\
      MetaVector.get (s_ (self w')) 0 0 = Some 0 /\
      MetaVector.get (pi_ (self w')) 0 0 = Some half /\
      MetaVector.get (u_ (self w')) 0 0 = Some f1 /\
      flt f1 half = false) /\
  (forall fuel, sample_u (fixed 0) fuel (on 0 (toy [[0; 0]] f1)) = Undefined) /\
  (forall fuel,
      sample_u (fixed 0) fuel (on 0 (constructed [[0; 0]] [[]; [f0; f0]] half))
      = Undefined).
Proof.
  split; [|split].
  - eexists. vm_compute. repeat split; reflexivity.
  - intros fuel. unfold sample_u, bind.
    replace (sample_u_slices (fixed 0) (on 0 (toy [[0; 0]] f1)))
      with (@Undefined (float * world (fixed 0))) by (vm_compute; reflexivity).
    reflexivity.
  - intros fuel. unfold sample_u, bind.
    replace (sample_u_slices (fixed 0) (on 0 (constructed [[0; 0]] [[]; [f0; f0]] half)))
      with (@Undefined (float * world (fixed 0))) by (vm_compute; reflexivity).
    reflexivity.
Qed.

(** Whatever is drawn, a completed [sample_pi_row] leaves one and the same
    number in all the [K + 1] columns of its row. *)
Lemma sample_pi_row_constant_row P i (w w' : world P) :
  sample_pi_row P i w = Ok (tt, w') ->
  exists x, forall j, 0 <= j < wrap (K (self w) + 1) ->
                      MetaVector.get (pi_ (self w')) i j = Some x.
Proof.
  unfold sample_pi_row. intros H.
  apply bind_Ok in H as (h & w1 & Hthis & H). apply this_Ok in Hthis as [-> ->].
  apply bind_Ok in H as (alphas & w2 & Halphas & H).
  assert (HK : K (self w2) = K (self w)).
  { apply (respects_for_int (same K)) in Halphas; [exact Halphas | intros k a; frame]. }
  apply bind_Ok in H as (h2 & w2' & Hthis & H). apply this_Ok in Hthis as [-> ->].
  apply bind_Ok in H as (bK & w2' & HbK & H). apply must_Ok in HbK as [_ ->].
  apply bind_Ok in H as (drawn & w3 & _ & H).
  rewrite HK in H.
  set (new_pi := take (Z.to_nat (wrap (K (self w) + 1))) drawn) in H.
  apply bind_Ok in H as ([] & w4 & Hloop & H).
  apply bind_Ok in H as (h4 & w4' & Hthis & H). apply this_Ok in Hthis as [-> ->].
  apply bind_Ok in H as (top & w4' & Htop & H). apply must_Ok in Htop as [_ ->].
  apply (raise_max_pi_pi P) in H. unfold same in H.
  assert (Hb : 0 <= wrap (K (self w) + 1))
    by (unfold wrap; apply Z.mod_pos_bound; lia).
  assert (Hfilled :
            forall j, 0 <= j < wrap (K (self w) + 1) ->
                      exists x, vget new_pi i = Some x /\
                                MetaVector.get (pi_ (self w4)) i j = Some x).
  { refine (for_int_inv
              (fun n (_ : unit) (s : world P) =>
                 forall j, 0 <= j < n ->
                           exists x, vget new_pi i = Some x /\
                                     MetaVector.get (pi_ (self s)) i j = Some x)
              _ _ _ _ _ _ Hb _ _ Hloop).
    - intros k [] s [] s' Hk Hinv Hbody.
      apply bind_Ok in Hbody as (hs & s1 & Hthis & Hbody).
      apply this_Ok in Hthis as [-> ->].
      apply bind_Ok in Hbody as (x & s1 & Hx & Hbody). apply must_Ok in Hx as [Hx ->].
      apply bind_Ok in Hbody as (pi' & s1 & Hset & Hbody).
      apply must_Ok in Hset as [Hset ->].
      injection Hbody as <-. cbn [self pi_ set_pi].
      intros j Hj. destruct (Z.eq_dec j k) as [->|Hne].
      + exists x. split; [exact Hx|]. eapply get_set_eq. exact Hset.
      + destruct (Hinv j ltac:(lia)) as (y & Hy & Hget).
        exists y. split; [exact Hy|].
        rewrite (get_set_ne (pi_ (self s)) i k x pi' j Hset Hne). exact Hget.
    - intros j Hj. lia. }
  destruct (vget new_pi i) as [x|] eqn:Hx.
  - exists x. intros j Hj. destruct (Hfilled j Hj) as (y & Hy & Hget).
    injection Hy as <-. rewrite H. exact Hget.
  - exists f0. intros j Hj. destruct (Hfilled j Hj) as (y & Hy & _). discriminate.
Qed.

(** C2.  Row [i] of the transition matrix is meant to receive the Dirichlet
    vector drawn for it.  The copy of lines 228 to 230 reads [new_pi[i]] for
    every column: with the draw (1/4, 3/4) row 0 becomes (1/4, 1/4), whose
    entries sum to 1/2. *)
Theorem sample_pi_row_repeats_one_component :
  (distributions.sample_dirichlet (fixed 0) tt 2 [half; half]
   = ([quarter; three_quarters], tt)) /\
  exists w',
    sample_pi (fixed 0) (on 0 (toy [[0; 0]] f1)) = Ok (tt, w') /\
    pi_ (self w') = [[quarter; quarter]] /\
    fadd quarter quarter = half.
Proof.
  split; [reflexivity|].
  eexists. vm_compute. repeat split; reflexivity.
Qed.

(** The state sequences sampled for one observation sequence never touch the
    counts: whatever [sample_s] leaves in [counts_] is what line 128 put
    there, twice as many empty rows as [pi_] has rows. *)
Lemma sample_s_resets_counts P w w' :
  sample_s P w = Ok (tt, w') ->
  counts_ (self w') = MetaVector.make1 (vsize (MetaVector.size (pi_ (self w)))).
Proof.
  unfold sample_s. intros H. unbind. subst.
  match goal with H : update _ _ _ = Ok _ |- _ => injection H as ? end.
  match goal with H : for_int _ _ _ _ = Ok _ |- _ =>
    apply (respects_for_int (same counts_)) in H end.
  - unfold same in H. rewrite H. subst. reflexivity.
  - intros i a. apply sample_s_seq_counts.
Qed.

(** C3.  The counts are meant to be the numbers of consecutive pairs of the
    sampled states.  The loop over the timesteps ends with the comment
    "Update counts" and no statement: for the sequence (0, 0) the sampled
    states are (0, 0), one transition from 0 to 0, and the count of that pair
    is what it was.  The stage as a whole is undefined for this sampler, as
    it is for the one the constructor builds (it runs over [data_.size()]);
    for a sampler without data it completes and leaves two empty rows, without
    an entry for the pair (0, 0). *)
Theorem sample_s_counts_nothing :
  (exists w',
      sample_s_seq (fixed 0) [2] 0 (on 0 (toy [[0; 0]] f1)) = Ok (tt, w') /\
      s_ (self w') = [[0; 0]] /\
      expected_count (s_ (self w')) 0 0 = 1%nat /\
      MetaVector.get (counts_ (self w')) 0 0 = Some 0) /\
  sample_s (fixed 0) (on 0 (toy [[0; 0]] f1)) = Undefined /\
  sample_s (fixed 0) (on 0 (constructed [[0; 0]] [[]; [f0; f0]] half)) = Undefined /\
  (exists w',
      sample_s (fixed 0) (on 0 (toy [] f1)) = Ok (tt, w') /\
      counts_ (self w') = [[]; []] /\
      MetaVector.get (counts_ (self w')) 0 0 = None).
Proof.
  split; [|split; [|split]].
  - eexists. vm_compute. repeat split; reflexivity.
  - vm_compute. reflexivity.
  - vm_compute. reflexivity.
  - eexists. vm_compute. repeat split; reflexivity.
Qed.

(** For a positive count, and a library that returns an index into the
    scores it is given, the table count of a pair lies between 1 and the
    transition count of the pair. *)
Lemma sample_m_at_positive_count P i j (w w' : world P) n :
  (forall g scores, scores <> [] ->
     0 <= fst (distributions.sample_from_scores_overwrite P g scores) < vsize scores) ->
  MetaVector.get (counts_ (self w)) i j = Some n ->
  0 < n ->
  sample_m_at P i j w = Ok (tt, w') ->
  exists m, MetaVector.get (m_ (self w')) i j = Some m /\ 1 <= m <= n.
Proof.
  intros Hindex Hn Hpos. unfold sample_m_at. intros H.
  apply bind_Ok in H as (h & w1 & Hthis & H). apply this_Ok in Hthis as [-> ->].
  apply bind_Ok in H as (n_ij & w1 & Hn' & H). apply must_Ok in Hn' as [Hn' ->].
  rewrite Hn in Hn'. injection Hn' as <-.
  apply bind_Ok in H as ([] & w1 & _ & H).
  apply bind_Ok in H as (h1 & w2 & Hthis & H). apply this_Ok in Hthis as [-> ->].
  apply bind_Ok in H as (stirling_row & w2 & _ & H).
  apply bind_Ok in H as (scores & w3 & Hscores & H).
  pose proof (for_int_Ok_bound _ _ _ _ _ Hscores) as Hb.
  apply (for_int_yields (fun scores => vsize scores = n)) in Hscores.
  - apply bind_Ok in H as (r & w4 & Hdraw & H).
    rewrite draw_eq in Hdraw. injection Hdraw as <- <-.
    apply bind_Ok in H as (h4 & w5 & Hthis & H). apply this_Ok in Hthis as [-> ->].
    apply bind_Ok in H as (m' & w5 & Hset & H). apply must_Ok in Hset as [Hset ->].
    injection H as <-. cbn [self m_ set_m].
    eexists. split; [eapply get_set_eq; exact Hset|].
    assert (Hne : scores <> []).
    { intros ->. unfold vsize in Hscores. cbn in Hscores. lia. }
    pose proof (Hindex (rng w3) scores Hne) as Hr. rewrite Hscores in Hr.
    unfold INT_MAX in Hb. unfold wrap.
    set (r := fst (distributions.sample_from_scores_overwrite P (rng w3) scores)) in *.
    assert (Hr1 : r mod 2 ^ 64 = r) by (apply Z.mod_small; lia).
    assert (Hr2 : (r + 1) mod 2 ^ 64 = r + 1) by (apply Z.mod_small; lia).
    rewrite Hr1, Hr2. lia.
  - intros k a s a' s' Ha Hbody.
    apply bind_Ok in Hbody as (hs & s1 & _ & Hbody).
    apply bind_Ok in Hbody as (sr & s2 & _ & Hbody).
    apply bind_Ok in Hbody as (b & s3 & _ & Hbody).
    apply must_Ok in Hbody as [Hset _].
    rewrite (vset_size _ _ _ _ Hset). exact Ha.
  - rewrite vsize_vmake. lia.
Qed.

(** C7.  A table count is meant to be at most the transition count of its
    pair, also when that count is zero.  For a count of zero, as in the
    sampler the constructor builds, [sample_m] makes an empty vector of
    scores, asks the library for an index into it and adds one.  Whatever
    number [r] the library returns, the table count is [r + 1] reduced to 64
    bits: it is zero only if [r] is [SIZE_MAX], and otherwise exceeds the
    count. *)
Theorem sample_m_of_zero_count (P : distributions.Provider) (g : distributions.rng_t P) :
  let h := constructed [[0; 0]] [[]; [f0; f0]] half in
  let r := wrap (fst (distributions.sample_from_scores_overwrite P g [])) in
  exists w',
    sample_m P (Build_world P h g) = Ok (tt, w') /\
    MetaVector.get (counts_ (self w')) 0 0 = Some 0 /\
    MetaVector.get (m_ (self w')) 0 0 = Some (wrap (r + 1)) /\
    wrap (r + 1) = (if r =? SIZE_MAX then 0 else r + 1).
Proof.
  intros h r.
  exists (Build_world P
            (set_m [[wrap (r + 1)]]
               (set_memoized {[ 0 := distributions.log_stirling1_row P 0 ]} h))
            (snd (distributions.sample_from_scores_overwrite P g []))).
  split; [|split; [reflexivity | split; [reflexivity |]]].
  - subst h r.
    with_strategy transparent [gmap_empty]
      (cbv -[wrap draw distributions.sample_from_scores_overwrite
             distributions.log_stirling1_row]).
    rewrite draw_eq.
    with_strategy transparent [gmap_empty]
      (cbv -[wrap distributions.sample_from_scores_overwrite
             distributions.log_stirling1_row]).
    reflexivity.
  - assert (Hr : 0 <= r < 2 ^ 64) by (apply Z.mod_pos_bound; lia).
    unfold wrap, SIZE_MAX in *.
    destruct (r =? 2 ^ 64 - 1) eqn:E.
    + apply Z.eqb_eq in E. rewrite E.
      replace (2 ^ 64 - 1 + 1) with (2 ^ 64) by lia. apply Z.mod_same. lia.
    + apply Z.eqb_neq in E. apply Z.mod_small. lia.
Qed.

(** C4, as stated, for a sampler whose only state emits the observed symbol
    with probability zero: the probabilities of the first timestep sum to
    zero, the step completes without an error, and what it stores is the NaN
    of 0/0; the filter goes on to the next timestep with it. *)
Lemma zero_total_yields_nan :
  let w := on 0 (toy [[0; 0]] f0) in
  accumulate_step (fixed 0) 0 0 [[]; []] w = Ok (([[f0]; []], f0), w) /\
  is_zero f0 = true /\
  filter_step (fixed 0) 0 0 [[]; []] w = Ok ([[S754_nan]; []], w) /\
  filter_step (fixed 0) 0 0 [[]; []] w <> Raise NumericUnderflow /\
  forward_filter (fixed 0) 0 2 w = Ok ([[S754_nan]; [S754_nan]], w).
Proof.
  repeat split; try (vm_compute; reflexivity). vm_compute. discriminate.
Qed.

(** C4, amended.  The sampler has no error to signal.  A timestep whose
    unnormalised probabilities sum to zero is normalised like any other: the
    step completes, and each of the [K] probabilities it stores is the
    unnormalised one divided by that zero, a NaN or an infinity and never a
    finite number. *)
Theorem zero_total_is_divided_by P i t probs w q total w1 :
  accumulate_step P i t probs w = Ok ((q, total), w1) ->
  is_zero total = true ->
  (forall w0 e, sample_s P w0 <> Raise e) /\
  exists q',
    filter_step P i t probs w = Ok (q', w1) /\
    forall k, 0 <= k < K (self w1) ->
      exists x, MetaVector.get q t k = Some x /\
                MetaVector.get q' t k = Some (fdiv x total) /\
                is_finite (fdiv x total) = false.
Proof.
  intros Hacc Hzero. split.
  - intros w0 e. apply sample_s_silent.
  - destruct (accumulate_step_row P _ _ _ _ _ _ _ Hacc) as [Hb Hrow].
    destruct (normalize_step_Ok P t total q w1 Hb Hrow) as (q' & Hq' & Hdiv).
    exists q'. split.
    + unfold filter_step, bind. rewrite Hacc. exact Hq'.
    + intros k Hk. destruct (Hdiv k Hk) as (x & Hx & Hx').
      exists x. split; [exact Hx|]. split; [exact Hx'|].
      apply fdiv_by_zero. exact Hzero.
Qed.

(** C4, amended, for the sampler whose only state emits the observed symbol
    with probability zero. *)
Lemma zero_total_is_divided_by_witness :
  let w := on 0 (toy [[0; 0]] f0) in
  accumulate_step (fixed 0) 0 0 [[]; []] w = Ok (([[f0]; []], f0), w) /\
  is_zero f0 = true /\
  exists q',
    filter_step (fixed 0) 0 0 [[]; []] w = Ok (q', w) /\
    forall k, 0 <= k < 1 ->
      exists x, MetaVector.get [[f0]; []] 0 k = Some x /\
                MetaVector.get q' 0 k = Some (fdiv x f0) /\
                is_finite (fdiv x f0) = false.
Proof.
  intros w. split; [vm_compute; reflexivity|]. split; [reflexivity|].
  apply (zero_total_is_divided_by (fixed 0) 0 0 [[]; []] w [[f0]; []] f0 w).
  - vm_compute. reflexivity.
  - reflexivity.
Defined.

Lemma grow_unfold P fuel min_u (w : world P) :
  grow P (Datatypes.S fuel) min_u w =
  if fgt (max_pi (self w)) min_u then (add_state P ;; grow P fuel min_u) w
  else Ok (tt, w).
Proof. cbn [grow]. unfold bind at 1, this. destruct (fgt _ _); reflexivity. Qed.

(** C6, as stated, for two samplers.  The first is the one the constructor
    builds without data, when the uninitialised [max_pi] happens to hold 2: no
    slice value is drawn, the least slice value stays 1, and the growth loop
    has to add a state.  The second has one state, [max_pi = 1/2] and a least
    slice value of 1/4.  In both the row of the new state reads
    [counts_[1][0]], which the 1 x 1 matrix of counts does not have.  With
    whatever fuel, the loop neither stops on its test nor reports that it
    failed to converge. *)
Lemma growth_neither_stops_nor_reports :
  hmm_new f1 f1 [f1] [] two = Ok (constructed [] [] two) /\
  (~ exists fuel,
       (exists w', sample_u (fixed 0) fuel (on 0 (constructed [] [] two)) = Ok (tt, w')) \/
       sample_u (fixed 0) fuel (on 0 (constructed [] [] two))
       = Raise NonConvergentGrowth) /\
  (~ exists fuel,
       (exists w', grow (fixed 0) fuel quarter (on 0 (toy [[0; 0]] f1)) = Ok (tt, w')) \/
       grow (fixed 0) fuel quarter (on 0 (toy [[0; 0]] f1)) = Raise NonConvergentGrowth).
Proof.
  split; [reflexivity|]. split.
  - intros [fuel H].
    assert (Hrun : sample_u (fixed 0) fuel (on 0 (constructed [] [] two)) = OutOfFuel \/
                   sample_u (fixed 0) fuel (on 0 (constructed [] [] two)) = Undefined).
    { unfold sample_u, bind.
      replace (sample_u_slices (fixed 0) (on 0 (constructed [] [] two)))
        with (Ok (f1, on 0 (constructed [] [] two))) by (vm_compute; reflexivity).
      destruct fuel as [|fuel]; [left; reflexivity | right].
      rewrite grow_unfold.
      replace (fgt (max_pi (self (on 0 (constructed [] [] two)))) f1) with true
        by reflexivity.
      unfold bind.
      replace (add_state (fixed 0) (on 0 (constructed [] [] two)))
        with (@Undefined (unit * world (fixed 0))) by (vm_compute; reflexivity).
      reflexivity. }
    destruct H as [[w' H]|H]; destruct Hrun as [Hr|Hr]; rewrite Hr in H; discriminate.
  - intros [fuel H].
    assert (Hrun : grow (fixed 0) fuel quarter (on 0 (toy [[0; 0]] f1)) = OutOfFuel \/
                   grow (fixed 0) fuel quarter (on 0 (toy [[0; 0]] f1)) = Undefined).
    { destruct fuel as [|fuel]; [left; reflexivity | right].
      rewrite grow_unfold.
      replace (fgt (max_pi (self (on 0 (toy [[0; 0]] f1)))) quarter) with true
        by reflexivity.
      unfold bind.
      replace (add_state (fixed 0) (on 0 (toy [[0; 0]] f1)))
        with (@Undefined (unit * world (fixed 0))) by (vm_compute; reflexivity).
      reflexivity. }
    destruct H as [[w' H]|H]; destruct Hrun as [Hr|Hr]; rewrite Hr in H; discriminate.
Qed.

(** C6, amended.  The growth loop has no bound on the number of states and
    no error to report.  It stops exactly on its test: when [max_pi] does not
    exceed the least slice value it returns at once and leaves the sampler as
    it is, whenever it returns the test fails, and as long as the test holds
    it adds one more state, whatever [K] has become. *)
Theorem grow_stops_only_on_its_test (P : distributions.Provider) :
  (forall fuel min_u w e, grow P fuel min_u w <> Raise e) /\
  (forall fuel min_u w w',
      grow P fuel min_u w = Ok (tt, w') -> fgt (max_pi (self w')) min_u = false) /\
  (forall fuel min_u w,
      fgt (max_pi (self w)) min_u = false ->
      grow P (Datatypes.S fuel) min_u w = Ok (tt, w)) /\
  (forall fuel min_u w,
      fgt (max_pi (self w)) min_u = true ->
      grow P (Datatypes.S fuel) min_u w = (add_state P ;; grow P fuel min_u) w).
Proof.
  split; [|split; [|split]].
  - intros fuel min_u w e. apply grow_silent.
  - intros fuel min_u. induction fuel as [|fuel IH]; intros w w' H.
    + discriminate.
    + rewrite grow_unfold in H. destruct (fgt (max_pi (self w)) min_u) eqn:E.
      * apply bind_Ok in H as ([] & w1 & _ & H). eapply IH. exact H.
      * injection H as <-. exact E.
  - intros fuel min_u w E. rewrite grow_unfold, E. reflexivity.
  - intros fuel min_u w E. rewrite grow_unfold, E. reflexivity.
Qed.

(** C6, amended, for a sampler without states: with [max_pi = 0] the loop
    returns at once; with [max_pi = 2] it adds one state and stops on its
    second test. *)
Lemma grow_stops_only_on_its_test_witness :
  (fgt (max_pi (self (on 0 (bare f0)))) f1 = false /\
   grow (fixed 0) 1 f1 (on 0 (bare f0)) = Ok (tt, on 0 (bare f0))) /\
  (fgt (max_pi (self (on 0 (bare two)))) f1 = true /\
   grow (fixed 0) 2 f1 (on 0 (bare two))
   = (add_state (fixed 0) ;; grow (fixed 0) 1 f1) (on 0 (bare two))) /\
  (exists w', grow (fixed 0) 2 f1 (on 0 (bare two)) = Ok (tt, w') /\
              K (self w') = 1 /\
              fgt (max_pi (self w')) f1 = false).
Proof.
  split; [|split].
  - split; [reflexivity|].
    apply (proj1 (proj2 (proj2 (grow_stops_only_on_its_test (fixed 0))))). reflexivity.
  - split; [reflexivity|].
    apply (proj2 (proj2 (proj2 (grow_stops_only_on_its_test (fixed 0))))). reflexivity.
  - eexists. split; [vm_compute; reflexivity|]. split; [reflexivity|].
    apply (proj1 (proj2 (grow_stops_only_on_its_test (fixed 0))) 2%nat f1 (on 0 (bare two))).
    vm_compute. reflexivity.
Defined.

(** C8.  No stage lowers the number of states.  [sample_u] can only raise it,
    by the [K++] that ends each turn of its growth loop; [sample_s],
    [sample_pi], [sample_phi] and [sample_beta] leave it as it is.  Hence [K]
    never decreases over a sweep, nor over any sequence of sweeps. *)
Theorem K_never_decreases (P : distributions.Provider) :
  (forall fuel w w', sample_u P fuel w = Ok (tt, w') -> K (self w) <= K (self w')) /\
  (forall w w', 0 <= K (self w) -> add_state P w = Ok (tt, w') ->
                K (self w') = K (self w) + 1) /\
  (forall w w', sample_s P w = Ok (tt, w') -> K (self w') = K (self w)) /\
  (forall w w', sample_pi P w = Ok (tt, w') -> K (self w') = K (self w)) /\
  (forall w w', sample_phi P w = Ok (tt, w') -> K (self w') = K (self w)) /\
  (forall w w', sample_beta P w = Ok (tt, w') -> K (self w') = K (self w)) /\
  (forall fuel w w', sample_beam P fuel w = Ok (tt, w') -> K (self w) <= K (self w')) /\
  (forall fuels w w', sweeps P fuels w = Ok (tt, w') -> K (self w) <= K (self w')).
Proof.
  repeat split.
  - intros fuel w w' H. exact (sample_u_K_le P fuel _ _ _ H).
  - intros w w' H0 H. exact (add_state_K_succ P _ _ H0 H).
  - intros w w' H. exact (sample_s_K P _ _ _ H).
  - intros w w' H. exact (sample_pi_K P _ _ _ H).
  - intros w w' H. exact (sample_phi_K P _ _ _ H).
  - intros w w' H. exact (sample_beta_K P _ _ _ H).
  - intros fuel w w' H. exact (sample_beam_K_le P fuel _ _ _ H).
  - intros fuels w w' H. exact (sweeps_K_le P fuels _ _ _ H).
Qed.

(** C8, on samplers for which the stages complete: [sample_u] and the body
    of its loop raise [K] from 0 to 1, the other stages leave it at 1, and
    three sweeps of a sampler without states leave it at 0. *)
Lemma K_never_decreases_witness :
  (exists w', sample_u (fixed 0) 2 (on 0 (bare two)) = Ok (tt, w') /\
              K (self w') = 1 /\ K (self (on 0 (bare two))) <= K (self w')) /\
  (exists w', 0 <= K (self (on 0 (bare two))) /\
              add_state (fixed 0) (on 0 (bare two)) = Ok (tt, w') /\
              K (self w') = K (self (on 0 (bare two))) + 1) /\
  (exists w', sample_s (fixed 0) (on 0 (toy [] f1)) = Ok (tt, w') /\
              K (self w') = K (self (on 0 (toy [] f1)))) /\
  (exists w', sample_pi (fixed 0) (on 0 (toy [[0; 0]] f1)) = Ok (tt, w') /\
              K (self w') = K (self (on 0 (toy [[0; 0]] f1)))) /\
  (exists w', sample_phi (fixed 0) (on 0 (toy [[0; 0]] f1)) = Ok (tt, w') /\
              K (self w') = K (self (on 0 (toy [[0; 0]] f1)))) /\
  (exists w', sample_beta (fixed 0) (on 0 (toy [[0; 0]] f1)) = Ok (tt, w') /\
              K (self w') = K (self (on 0 (toy [[0; 0]] f1)))) /\
  (exists w', sample_beam (fixed 0) 1 (on 0 (bare f0)) = Ok (tt, w') /\
              K (self (on 0 (bare f0))) <= K (self w')) /\
  (exists w', sweeps (fixed 0) [1; 1; 1]%nat (on 0 (bare f0)) = Ok (tt, w') /\
              K (self (on 0 (bare f0))) <= K (self w')).
Proof.
  pose proof (K_never_decreases (fixed 0))
    as (Hu & Hadd & Hs & Hpi & Hphi & Hbeta & Hbeam & Hsweeps).
  split.
  { eexists. split; [vm_compute; reflexivity|]. split; [reflexivity|].
    apply (Hu 2%nat). vm_compute. reflexivity. }
  split.
  { eexists. split; [vm_compute; discriminate|]. split; [vm_compute; reflexivity|].
    apply Hadd; [vm_compute; discriminate | vm_compute; reflexivity]. }
  split.
  { eexists. split; [vm_compute; reflexivity|]. apply Hs. vm_compute. reflexivity. }
  split.
  { eexists. split; [vm_compute; reflexivity|]. apply Hpi. vm_compute. reflexivity. }
  split.
  { eexists. split; [vm_compute; reflexivity|]. apply Hphi. vm_compute. reflexivity. }
  split.
  { eexists. split; [vm_compute; reflexivity|]. apply Hbeta. vm_compute. reflexivity. }
  split.
  { eexists. split; [vm_compute; reflexivity|].
    apply (Hbeam 1%nat). vm_compute. reflexivity. }
  eexists. split; [vm_compute; reflexivity|].
  apply (Hsweeps [1; 1; 1]%nat). vm_compute. reflexivity.
Defined.

(** C10.  [sample_phi] has an empty body: it returns at once and every
    component of the sampler, the emission matrix included, and the random
    generator are what they were.  A sweep is therefore the sequence of its
    other four stages. *)
Theorem sample_phi_changes_nothing (P : distributions.Provider) :
  (forall w : world P, sample_phi P w = Ok (tt, w)) /\
  (forall fuel w,
      sample_beam P fuel w
      = (sample_u P fuel ;; sample_s P ;; sample_pi P ;; sample_beta P) w).
Proof.
  split.
  - intros w. reflexivity.
  - intros fuel w. unfold sample_beam, sample_phi, bind, ret.
    destruct (sample_u P fuel w) as [[[] w1]| | |]; [|reflexivity..].
    destruct (sample_s P w1) as [[[] w2]| | |]; reflexivity.
Qed.

(** * A sweep needs the counts that [sample_s] has just emptied *)

Lemma get_make1 {T} (n i j : Z) : MetaVector.get (MetaVector.make1 n : meta_vector T) i j = None.
Proof.
  unfold MetaVector.get, MetaVector.make1, vmake, vget.
  destruct ((0 <=? i) && (i <? Z.of_nat (length (replicate (Z.to_nat n) ([] : list T))))); [|reflexivity].
  destruct (replicate (Z.to_nat n) [] !! Z.to_nat i) as [row|] eqn:E; [|reflexivity].
  apply lookup_replicate in E as [-> _]. cbn.
  destruct ((0 <=? j) && (j <? Z.of_nat 0)) eqn:E2; [|reflexivity].
  apply andb_true_iff in E2 as [E2 E3]. apply Z.leb_le in E2. apply Z.ltb_lt in E3. lia.
Qed.

(** A completed loop with a positive bound has completed its first turn. *)
Lemma for_int_first {S A} bound (body : Z -> A -> M S A) a s r :
  1 <= bound -> for_int bound body a s = Ok r ->
  exists a1 s1, body 0 a s = Ok (a1, s1).
Proof.
  intros Hb. unfold for_int. destruct (INT_MAX <? bound); [discriminate|].
  destruct (Z.to_nat bound) as [|n] eqn:En; [lia|].
  cbn [iter_from]. destruct r as [a' s']. intros H.
  apply bind_Ok in H as (a1 & s1 & H1 & _). exists a1, s1. exact H1.
Qed.

(** With at least one state, [sample_pi] reads [counts_[0][0]]; it cannot
    complete on counts whose rows are empty. *)
Lemma sample_pi_needs_counts P (w : world P) n r :
  1 <= K (self w) -> counts_ (self w) = MetaVector.make1 n -> sample_pi P w <> Ok r.
Proof.
  intros HK Hcounts H. destruct r as [[] w'].
  unfold sample_pi in H. unbind. subst.
  match goal with H : update _ _ _ = Ok _ |- _ => injection H as ? end. subst.
  cbn [self K set_max_pi] in H.
  apply for_int_first in H as ([] & w1 & Hrow); [|exact HK].
  unfold sample_pi_row in Hrow. unbind. subst.
  cbn [self K set_max_pi] in *.
  match goal with H : for_int _ _ _ _ = Ok _ |- _ =>
    apply for_int_first in H as (alphas & w2 & Hfirst); [|exact HK] end.
  unbind. subst. cbn [self counts_ set_max_pi] in *.
  match goal with H : MetaVector.get (counts_ (self w)) 0 0 = Some _ |- _ =>
    rewrite Hcounts, get_make1 in H; discriminate end.
Qed.

(** A sweep that starts with at least one state does not complete:
    [sample_s] has replaced the counts by empty rows when [sample_pi] reads
    them. *)
Lemma sample_beam_needs_no_state P fuel (w : world P) r :
  1 <= K (self w) -> sample_beam P fuel w <> Ok r.
Proof.
  intros HK H. destruct r as [[] w']. unfold sample_beam in H.
  apply bind_Ok in H as ([] & w1 & Hu & H).
  apply bind_Ok in H as ([] & w2 & Hs & H).
  apply bind_Ok in H as ([] & w3 & Hpi & _).
  apply sample_u_K_le in Hu. unfold K_le in Hu.
  pose proof (sample_s_resets_counts P _ _ Hs) as Hcounts.
  apply sample_s_K in Hs. unfold same in Hs.
  eapply (sample_pi_needs_counts P w2); [lia | exact Hcounts | exact Hpi].
Qed.

(** * The container, operation by operation *)

Section MoreVectorFacts.

Context {A : Type}.
Implicit Types (v : list A).

Lemma vget_lookup v i : 0 <= i -> vget v i = v !! Z.to_nat i.
Proof.
  intros Hi. unfold vget.
  destruct (i <? Z.of_nat (length v)) eqn:E.
  - replace (0 <=? i) with true by (symmetry; apply Z.leb_le; lia). reflexivity.
  - rewrite andb_false_r. symmetry. apply lookup_ge_None.
    apply Z.ltb_ge in E. lia.
Qed.

Lemma vget_negative v i : i < 0 -> vget v i = None.
Proof.
  intros Hi. unfold vget.
  replace (0 <=? i) with false by (symmetry; apply Z.leb_gt; lia). reflexivity.
Qed.

Lemma vget_None v i : vget v i = None <-> ~ 0 <= i < vsize v.
Proof.
  split.
  - intros H Hi. destruct (vget_in_range v i Hi) as [x Hx]. congruence.
  - intros Hi. destruct (vget v i) as [x|] eqn:E; [|reflexivity].
    apply vget_Some in E. contradiction.
Qed.

Lemma vset_None v i x : vset v i x = None <-> ~ 0 <= i < vsize v.
Proof.
  split.
  - intros H Hi. destruct (vset_in_range v i x Hi) as [y Hy]. congruence.
  - intros Hi. destruct (vset v i x) as [y|] eqn:E; [|reflexivity].
    apply vset_Some in E as [E _]. contradiction.
Qed.

Lemma vget_app v1 v2 i :
  vget (v1 ++ v2) i = if i <? vsize v1 then vget v1 i else vget v2 (i - vsize v1).
Proof.
  destruct (Z.lt_ge_cases i 0) as [Hneg|Hpos].
  - rewrite !vget_negative by (unfold vsize; lia). destruct (i <? vsize v1); reflexivity.
  - rewrite (vget_lookup (v1 ++ v2)) by lia. unfold vsize.
    destruct (i <? Z.of_nat (length v1)) eqn:E.
    + apply Z.ltb_lt in E. rewrite vget_lookup by lia.
      apply lookup_app_l. lia.
    + apply Z.ltb_ge in E. rewrite vget_lookup by lia.
      rewrite lookup_app_r by lia. f_equal. lia.
Qed.

Lemma vget_vmake n (d : A) i : vget (vmake n d) i = if (0 <=? i) && (i <? n) then Some d else None.
Proof.
  destruct ((0 <=? i) && (i <? n)) eqn:E.
  - apply andb_true_iff in E as [E1 E2]. apply Z.leb_le in E1. apply Z.ltb_lt in E2.
    rewrite vget_lookup by lia. unfold vmake. apply lookup_replicate. split; [reflexivity | lia].
  - apply vget_None. rewrite vsize_vmake. intros Hi.
    apply andb_false_iff in E as [E|E]; [apply Z.leb_gt in E | apply Z.ltb_ge in E]; lia.
Qed.

(** Two vectors with the same entries at every index are the same vector. *)
Lemma vget_ext v1 v2 :
  vsize v1 = vsize v2 -> (forall i, 0 <= i < vsize v1 -> vget v1 i = vget v2 i) -> v1 = v2.
Proof.
  intros Hsize Hget. apply list_eq. intros n.
  destruct (Nat.lt_ge_cases n (length v1)) as [Hn|Hn].
  - specialize (Hget (Z.of_nat n) ltac:(unfold vsize; lia)).
    rewrite !vget_lookup, !Nat2Z.id in Hget by lia. exact Hget.
  - rewrite (proj2 (lookup_ge_None v1 n)) by lia.
    symmetry. apply lookup_ge_None. unfold vsize in Hsize. lia.
Qed.

End MoreVectorFacts.

Section MoreRaggedFacts.

Context {A : Type}.
Implicit Types (mv : meta_vector A).

Lemma vget_shape mv i : vget (shape mv) i = vsize <$> vget mv i.
Proof.
  unfold vget, shape. rewrite length_fmap.
  destruct ((0 <=? i) && (i <? Z.of_nat (length mv))); [|reflexivity].
  apply list_lookup_fmap.
Qed.

Lemma get_set_other_row mv i j x mv' i' j' :
  MetaVector.set mv i j x = Some mv' -> i' <> i ->
  MetaVector.get mv' i' j' = MetaVector.get mv i' j'.
Proof.
  unfold MetaVector.get, MetaVector.set. intros H Hne.
  destruct (vget mv i) as [row|] eqn:Hrow; [|discriminate]. cbn in H.
  destruct (vset row j x) as [row'|] eqn:Hrow'; [|discriminate]. cbn in H.
  rewrite (vget_vset_ne _ _ _ _ _ H Hne). reflexivity.
Qed.

(** What a cell holds after an assignment to a cell. *)
Lemma get_set mv i j x mv' i' j' :
  MetaVector.set mv i j x = Some mv' ->
  MetaVector.get mv' i' j'
  = if (i' =? i) && (j' =? j) then Some x else MetaVector.get mv i' j'.
Proof.
  intros H. destruct (Z.eqb_spec i' i) as [->|Hi]; cbn [andb].
  - destruct (Z.eqb_spec j' j) as [->|Hj].
    + eapply get_set_eq. exact H.
    + eapply get_set_ne; eassumption.
  - eapply get_set_other_row; eassumption.
Qed.

Lemma get_Some_shape mv i j :
  is_Some (MetaVector.get mv i j) <->
  exists n, vget (shape mv) i = Some n /\ 0 <= j < n.
Proof.
  rewrite vget_shape. unfold MetaVector.get. split.
  - intros [x Hx]. destruct (vget mv i) as [row|]; [|discriminate]. cbn in *.
    exists (vsize row). split; [reflexivity|]. eapply vget_Some. exact Hx.
  - intros (n & Hn & Hj). destruct (vget mv i) as [row|]; [|discriminate]. cbn in *.
    injection Hn as <-. apply vget_in_range. exact Hj.
Qed.

Lemma set_Some_get mv i j x :
  is_Some (MetaVector.set mv i j x) <-> is_Some (MetaVector.get mv i j).
Proof.
  split; [|apply set_in_range].
  unfold MetaVector.get, MetaVector.set. intros [mv' H].
  destruct (vget mv i) as [row|]; [|discriminate]. cbn in *.
  destruct (vset row j x) as [row'|] eqn:Hrow'; [|discriminate].
  apply vset_Some in Hrow' as [Hj _]. apply vget_in_range. exact Hj.
Qed.

End MoreRaggedFacts.

(** The loop of the two-size constructor, and of the constructor from a
    vector of sizes, turn by turn: after [k] turns the first [k] rows have
    their sizes. *)
Lemma fill_rows {T} (row_of : Z -> option (list T)) (n : size_t)
    (body : Z -> unit -> M (meta_vector T) unit) :
  0 <= n <= INT_MAX ->
  (forall k data, 0 <= k < n -> vsize data = n ->
     exists row, row_of k = Some row /\ body k tt data = Ok (tt, <[Z.to_nat k := row]> data)) ->
  exists mv,
    for_int n body tt (vmake n []) = Ok (tt, mv) /\
    vsize mv = n /\ forall k, 0 <= k < n -> vget mv k = row_of k.
Proof.
  intros Hn Hbody.
  edestruct (for_int_total
    (fun k (_ : unit) (data : meta_vector T) =>
       vsize data = n /\ forall i, 0 <= i < k -> vget data i = row_of i) n body tt
    (vmake n [])) as ([] & mv & Hrun & Hsize & Hrows).
  - exact Hn.
  - intros k [] data Hk [Hsize Hrows].
    destruct (Hbody k data Hk Hsize) as (row & Hrow & Hrun).
    exists tt, (<[Z.to_nat k := row]> data). split; [exact Hrun|].
    assert (Hset : vset data k row = Some (<[Z.to_nat k := row]> data)).
    { unfold vset. unfold vsize in Hsize.
      replace ((0 <=? k) && (k <? Z.of_nat (length data))) with true
        by (symmetry; apply andb_true_iff; split; [apply Z.leb_le | apply Z.ltb_lt]; lia).
      reflexivity. }
    split; [rewrite (vset_size _ _ _ _ Hset); exact Hsize|].
    intros i Hi. destruct (Z.eq_dec i k) as [->|Hne].
    + rewrite (vget_vset_eq _ _ _ _ Hset). symmetry. exact Hrow.
    + rewrite (vget_vset_ne _ _ _ _ _ Hset Hne). apply Hrows. lia.
  - split; [rewrite vsize_vmake; lia | intros i Hi; lia].
  - exists mv. split; [exact Hrun|]. split; [exact Hsize | exact Hrows].
Qed.

Lemma make_sizes_eq {T} (d : T) (size : list size_t) :
  MetaVector.make_sizes d size
  = if INT_MAX <? vsize size then Undefined
    else Ok ((fun n => vmake n d) <$> size).
Proof.
  unfold MetaVector.make_sizes, exec. unfold bind at 1, load at 1.
  rewrite vsize_vmake. replace (Z.max 0 (vsize size)) with (vsize size) by (unfold vsize; lia).
  destruct (INT_MAX <? vsize size) eqn:Hb.
  { unfold for_int. rewrite Hb. reflexivity. }
  apply Z.ltb_ge in Hb.
  destruct (fill_rows (fun k => (fun n => vmake n d) <$> vget size k) (vsize size)
              (fun i _ =>
                 let* data := load in
                 let* n := must (vget size i) in
                 let* data' := must (vset data i (vmake n d)) in
                 store data')) as (mv & Hrun & Hsize & Hrows).
  - unfold vsize in *. lia.
  - intros k data Hk Hdata.
    destruct (vget_in_range size k Hk) as [n Hn]. rewrite Hn.
    exists (vmake n d). split; [reflexivity|].
    unfold bind, load, must. cbn. unfold vset. unfold vsize in Hdata, Hk.
    replace ((0 <=? k) && (k <? Z.of_nat (length data))) with true
      by (symmetry; apply andb_true_iff; split; [apply Z.leb_le | apply Z.ltb_lt]; lia).
    reflexivity.
  - unfold meta_vector in *. rewrite Hrun. f_equal. apply vget_ext.
    + unfold vsize in *. rewrite length_fmap. lia.
    + intros i Hi. rewrite Hrows by lia.
      unfold vget. rewrite length_fmap.
      destruct ((0 <=? i) && (i <? Z.of_nat (length size))); [|reflexivity].
      symmetry. apply list_lookup_fmap.
Qed.




(** X3.  An assignment [mv[i][j] = x] that is in range changes that cell and
    no other: afterwards [mv[i][j]] is [x], every other cell, of the same row
    or of another, holds what it held, and every row has the length it had. *)
Theorem assignment_changes_one_cell :
  forall (T : Type) (mv mv' : meta_vector T) (i j : Z) (x : T),
    MetaVector.set mv i j x = Some mv' ->
    shape mv' = shape mv /\
    forall i' j',
      MetaVector.get mv' i' j'
      = if (i' =? i) && (j' =? j) then Some x else MetaVector.get mv i' j'.
Proof.
  intros T mv mv' i j x H. split.
  - eapply set_shape. exact H.
  - intros i' j'. eapply get_set. exact H.
Qed.

Lemma assignment_changes_one_cell_witness :
  MetaVector.set [[7; 8]; [9]] 0 1 5 = Some [[7; 5]; [9]] /\
  shape [[7; 5]; [9]] = shape [[7; 8]; [9]] /\
  MetaVector.get [[7; 5]; [9]] 0 1 = Some 5 /\
  MetaVector.get [[7; 5]; [9]] 1 0 = MetaVector.get [[7; 8]; [9]] 1 0.
Proof.
  assert (H : MetaVector.set [[7; 8]; [9]] 0 1 5 = Some [[7; 5]; [9]]) by reflexivity.
  destruct (assignment_changes_one_cell Z _ _ 0 1 5 H) as [Hshape Hget].
  split; [exact H|]. split; [exact Hshape|].
  split; [exact (Hget 0 1) | exact (Hget 1 0)].
Defined.

(** X4.  The container checks no index.  A read [mv[i][j]] and a write
    [mv[i][j] = x] are defined for the same indices: those with [i] below
    the number of rows and [j] below the length of row [i]. *)
Theorem cell_access_is_defined_inside_the_shape :
  forall (T : Type) (mv : meta_vector T) (i j : Z) (x : T),
    (is_Some (MetaVector.get mv i j) <->
     exists n, vget (shape mv) i = Some n /\ 0 <= j < n) /\
    (is_Some (MetaVector.set mv i j x) <-> is_Some (MetaVector.get mv i j)).
Proof.
  intros T mv i j x. split; [apply get_Some_shape | apply set_Some_get].
Qed.

(** X5.  [push_back] adds the vector as the last row and leaves the rows
    before it as they were. *)
Theorem push_back_adds_the_last_row :
  forall (T : Type) (mv : meta_vector T) (vec : list T),
    shape (MetaVector.push_back mv vec) = shape mv ++ [vsize vec] /\
    forall i j,
      MetaVector.get (MetaVector.push_back mv vec) i j
      = if i =? vsize mv then vget vec j else MetaVector.get mv i j.
Proof.
  intros T mv vec. split.
  - unfold MetaVector.push_back, shape. rewrite fmap_app. reflexivity.
  - intros i j. unfold MetaVector.get, MetaVector.push_back.
    rewrite vget_app. destruct (Z.eqb_spec i (vsize mv)) as [->|Hne].
    + rewrite Z.ltb_irrefl, Z.sub_diag. reflexivity.
    + destruct (i <? vsize mv) eqn:E; [reflexivity|].
      apply Z.ltb_ge in E.
      rewrite (proj2 (vget_None [vec] (i - vsize mv))) by (unfold vsize in *; cbn; lia).
      rewrite (proj2 (vget_None mv i)) by lia. reflexivity.
Qed.

Lemma fold_wrap_sum (row : list size_t) (acc : Z) :
  fold_left (fun result t => wrap (result + t)) row (wrap acc)
  = wrap (acc + foldr Z.add 0 row).
Proof.
  revert acc. induction row as [|t row IH]; intros acc; cbn.
  - rewrite Z.add_0_r. reflexivity.
  - replace (wrap (wrap acc + t)) with (wrap (acc + t)).
    + rewrite IH. f_equal. lia.
    + unfold wrap. rewrite Zplus_mod_idemp_l. reflexivity.
Qed.

(** X6.  [sum(i)] at [T = size_t] is the sum of the entries of row [i]
    reduced modulo 2^64: the additions wrap around and nothing reports it.
    Outside the rows it is not defined. *)
Theorem sum_is_the_row_sum_modulo_2_64 :
  forall (mv : meta_vector size_t) (i : Z),
    MetaVector.sum mv i
    = (fun row => foldr Z.add 0 row mod 2 ^ 64) <$> vget mv i.
Proof.
  intros mv i. unfold MetaVector.sum.
  destruct (vget mv i) as [row|]; [|reflexivity]. cbn. f_equal.
  change 0 with (wrap 0) at 1. rewrite fold_wrap_sum. reflexivity.
Qed.

(** * The constructor of the sampler *)

(** A sampler that the constructor has built differs from any other one
    it builds only by what was passed and by its slice values. *)
Lemma hmm_new_Ok gamma alpha0 H data garbage h :
  hmm_new gamma alpha0 H data garbage = Ok h ->
  exists u,
    h = {| data_ := data; s_ := []; u_ := u; m_ := [[0]]; counts_ := [[0]];
           pi_ := [[f0; f0]]; phi_ := [vmake (vsize H) f0]; beta_ := [f0; f0];
           gamma_ := gamma; alpha0_ := alpha0; H_ := H;
           memoized_log_stirling_ := ∅; max_pi := garbage; K := 1 |}.
Proof.
  unfold hmm_new.
  destruct (MetaVector.make_sizes f0 (MetaVector.size data)) as [u| | |]; try discriminate.
  cbn [and_then]. rewrite !make2_one. cbn [and_then].
  intros E. injection E as <-. exists u. reflexivity.
Qed.

(** X7.  What the constructor builds.  It checks neither the
    hyperparameters nor the data.  The container of slice values gets one
    row per number of [data.size()], that is an empty row for every sequence
    followed by a row of zeros as long as the sequence; the container of
    states is left empty; there is one state, with a transition row and stick
    lengths that are all zero; [max_pi] holds what the memory held.  The only
    input it cannot handle is one whose number of sequences, doubled, exceeds
    [INT_MAX]. *)
Theorem hmm_new_builds :
  forall gamma alpha0 H data garbage,
    hmm_new gamma alpha0 H data garbage
    = if INT_MAX <? 2 * vsize data then Undefined
      else Ok {| data_ := data; s_ := [];
                 u_ := vmake (vsize data) []
                       ++ ((fun row => vmake (vsize row) f0) <$> data);
                 m_ := [[0]]; counts_ := [[0]]; pi_ := [[f0; f0]];
                 phi_ := [vmake (vsize H) f0]; beta_ := [f0; f0];
                 gamma_ := gamma; alpha0_ := alpha0; H_ := H;
                 memoized_log_stirling_ := ∅; max_pi := garbage; K := 1 |}.
Proof.
  intros gamma alpha0 H data garbage.
  unfold hmm_new. rewrite make_sizes_eq, vsize_size.
  destruct (INT_MAX <? 2 * vsize data); [reflexivity|].
  cbn [and_then]. rewrite !make2_one. cbn [and_then].
  rewrite size_eq, fmap_app, fmap_replicate. unfold shape.
  rewrite <- list_fmap_compose.
  replace (vmake (vsize data) ([] : list float)) with (replicate (length data) (vmake 0 f0))
    by (unfold vmake, vsize; rewrite Nat2Z.id; reflexivity).
  reflexivity.
Qed.

Lemma hmm_new_K gamma alpha0 H data garbage h :
  hmm_new gamma alpha0 H data garbage = Ok h -> K h = 1.
Proof. intros Hnew. apply hmm_new_Ok in Hnew as [u ->]. reflexivity. Qed.

(** * What [size()] makes of the loops over the sequences *)

Lemma vsize_replicate {A} (n : nat) (x : A) : vsize (replicate n x) = Z.of_nat n.
Proof. unfold vsize. rewrite length_replicate. reflexivity. Qed.

Lemma vget_replicate {A} (n : nat) (x : A) i :
  vget (replicate n x) i = if (0 <=? i) && (i <? Z.of_nat n) then Some x else None.
Proof.
  replace (replicate n x) with (vmake (Z.of_nat n) x)
    by (unfold vmake; rewrite Nat2Z.id; reflexivity).
  apply vget_vmake.
Qed.

Lemma vget_size {T} (mv : meta_vector T) i :
  vget (MetaVector.size mv) i
  = if i <? vsize mv then (if 0 <=? i then Some 0 else None)
    else vget (shape mv) (i - vsize mv).
Proof.
  rewrite size_eq, vget_app, vsize_replicate, vget_replicate. fold (vsize mv).
  destruct (i <? vsize mv); [|reflexivity].
  rewrite andb_true_r. reflexivity.
Qed.

Lemma vsize_nil {T} (row : list T) : vsize row = 0 -> row = [].
Proof. destruct row; [reflexivity | unfold vsize; cbn; lia]. Qed.

Section Sequences.

Context (P : distributions.Provider).

(** X8.  [sample_s] completes exactly on a sampler without any observation
    sequence, and then it only replaces the counts by twice as many empty rows
    as the transition matrix has rows.  With at least one sequence it is
    undefined behaviour: its loop runs over [data_.size()], whose first
    number is a zero, and for a length of zero line 156 reads
    [probs[sizes[i]-1]], the entry [SIZE_MAX] of an empty container. *)
Theorem sample_s_completes_only_without_data (w : world P) :
  sample_s P w
  = match data_ (self w) with
    | [] =>
        Ok (tt, Build_world P
                  (set_counts (MetaVector.make1 (2 * vsize (pi_ (self w)))) (self w))
                  (rng w))
    | _ :: _ => Undefined
    end.
Proof.
  unfold sample_s. unfold bind at 1, this at 1. unfold bind at 1, update at 1.
  cbn [self rng]. rewrite !vsize_size.
  destruct (data_ (self w)) as [|row rest] eqn:Hdata.
  - reflexivity.
  - unfold for_int. destruct (INT_MAX <? 2 * vsize (row :: rest)); [reflexivity|].
    destruct (Z.to_nat (2 * vsize (row :: rest))) as [|n] eqn:En;
      [unfold vsize in En; cbn in En; lia|].
    cbn [iter_from]. unfold bind at 1.
    unfold sample_s_seq. unfold bind at 1.
    rewrite vget_size.
    replace (0 <? vsize (row :: rest)) with true
      by (symmetry; apply Z.ltb_lt; unfold vsize; cbn; lia).
    reflexivity.
Qed.

Lemma sample_u_at_needs_row i j min_u (w : world P) r :
  sample_u_at P i j min_u w = Ok r -> 0 <= i < vsize (u_ (self w)).
Proof.
  destruct r as [m w']. intros H.
  unfold sample_u_at in H.
  apply bind_Ok in H as (h & w1 & Hthis & H). apply this_Ok in Hthis as [-> ->].
  apply bind_Ok in H as (prev & w1 & Hprev & H).
  assert (w1 = w) as ->.
  { destruct (j =? 0); [apply ret_Ok in Hprev | apply must_Ok in Hprev]; tauto. }
  apply bind_Ok in H as (r & w2 & Hdraw & H).
  apply bind_Ok in H as (cur & w3 & Hcur & H).
  apply bind_Ok in H as (p & w4 & Hp & H).
  apply bind_Ok in H as (u' & w5 & Hset & _). apply must_Ok in Hset as [Hset _].
  unfold MetaVector.set in Hset.
  destruct (vget (u_ (self w)) i) as [row|] eqn:Hrow; [|discriminate].
  eapply vget_Some. exact Hrow.
Qed.

Lemma sample_u_slices_Ok (w : world P) m w' :
  sample_u_slices P w = Ok (m, w') ->
  Forall (fun row => row = []) (u_ (self w)) /\ m = f1 /\ w' = w.
Proof.
  unfold sample_u_slices. intros H.
  apply bind_Ok in H as (h & w1 & Hthis & H). apply this_Ok in Hthis as [-> ->].
  set (sizes := MetaVector.size (u_ (self w))) in *.
  set (R := vsize (u_ (self w))).
  assert (Hinv : w' = w /\ m = f1 /\
                 forall i, 0 <= i < vsize sizes -> vget sizes i = Some 0).
  { refine (for_int_inv
              (fun k (acc : float) (s : world P) =>
                 s = w /\ acc = f1 /\ forall i, 0 <= i < k -> vget sizes i = Some 0)
              _ _ _ _ _ _ _ _ _ H).
    - unfold vsize. lia.
    - intros k acc s acc' s' Hk (-> & -> & Hlow) Hbody.
      apply bind_Ok in Hbody as (n & w1 & Hn & Hbody).
      apply must_Ok in Hn as [Hn ->].
      assert (Hzero : n = 0 /\ acc' = f1 /\ s' = w).
      { destruct (Z.lt_ge_cases n 1) as [Hsmall|Hbig].
        - assert (Hn0 : 0 <= n).
          { unfold sizes in Hn. rewrite vget_size in Hn.
            destruct (k <? vsize (u_ (self w))).
            - destruct (0 <=? k); [injection Hn as <-; lia | discriminate].
            - rewrite vget_shape in Hn.
              destruct (vget (u_ (self w)) (k - vsize (u_ (self w)))) as [row|];
                [|discriminate].
              injection Hn as <-. unfold vsize. lia. }
          assert (n = 0) as -> by lia.
          split; [reflexivity|]. cbn in Hbody. injection Hbody as <- <-.
          split; reflexivity.
        - apply for_int_first in Hbody as (a1 & s1 & Hfirst); [|exact Hbig].
          apply sample_u_at_needs_row in Hfirst.
          unfold sizes in Hn. rewrite vget_size in Hn.
          replace (k <? vsize (u_ (self w))) with true in Hn
            by (symmetry; apply Z.ltb_lt; lia).
          replace (0 <=? k) with true in Hn by (symmetry; apply Z.leb_le; lia).
          injection Hn as <-. lia. }
      destruct Hzero as (-> & -> & ->).
      split; [reflexivity|]. split; [reflexivity|].
      intros i Hi. destruct (Z.eq_dec i k) as [->|Hne]; [exact Hn | apply Hlow; lia].
    - split; [reflexivity|]. split; [reflexivity|]. intros i Hi. lia. }
  destruct Hinv as (-> & -> & Hzero).
  split; [|split; reflexivity].
  apply Forall_lookup. intros n row Hrow.
  specialize (Hzero (R + Z.of_nat n)).
  unfold sizes in Hzero. rewrite vsize_size, vget_size in Hzero. fold R in Hzero.
  replace (R + Z.of_nat n <? R) with false in Hzero by (symmetry; apply Z.ltb_ge; lia).
  rewrite vget_shape in Hzero.
  replace (R + Z.of_nat n - R) with (Z.of_nat n) in Hzero by lia.
  rewrite vget_lookup, Nat2Z.id, Hrow in Hzero by lia.
  apply lookup_lt_Some in Hrow.
  specialize (Hzero ltac:(unfold R, vsize; lia)). cbn in Hzero.
  injection Hzero as Hzero. apply vsize_nil. exact Hzero.
Qed.

Lemma sample_u_slices_of_empty_rows (w : world P) :
  Forall (fun row => row = []) (u_ (self w)) ->
  2 * vsize (u_ (self w)) <= INT_MAX ->
  sample_u_slices P w = Ok (f1, w).
Proof.
  intros Hrows Hb. unfold sample_u_slices. unfold bind at 1, this at 1.
  set (sizes := MetaVector.size (u_ (self w))).
  edestruct (for_int_total
               (fun (_ : Z) (acc : float) (s : world P) => s = w /\ acc = f1)
               (vsize sizes)) as (acc & s & -> & -> & ->).
  - unfold sizes. rewrite vsize_size. unfold vsize in *. lia.
  - intros k acc s Hk [-> ->]. exists f1, w. split; [|split; reflexivity].
    assert (Hn : vget sizes k = Some 0).
    { unfold sizes in *. rewrite vsize_size in Hk. rewrite vget_size.
      destruct (k <? vsize (u_ (self w))) eqn:E.
      - replace (0 <=? k) with true by (symmetry; apply Z.leb_le; lia). reflexivity.
      - apply Z.ltb_ge in E. rewrite vget_shape.
        destruct (vget_in_range (u_ (self w)) (k - vsize (u_ (self w))) ltac:(lia))
          as [row Hrow].
        rewrite Hrow. cbn. f_equal.
        rewrite vget_lookup in Hrow by lia.
        rewrite Forall_lookup in Hrows. rewrite (Hrows _ _ Hrow). reflexivity. }
    unfold bind. rewrite Hn. reflexivity.
  - split; reflexivity.
  - reflexivity.
Qed.

End Sequences.

(** X9.  The first part of [sample_u], the loops of lines 175 to 185,
    completes exactly when every row of the container of slice values is
    empty (and twice the number of rows fits the [int] counter): it then has
    drawn nothing, changed nothing, and left [min_u] at 1.  A slice value
    that exists is never resampled: the loop over [u_.size()] reaches the row
    of a timestep only under an index that is past the last row. *)
Theorem sample_u_slices_draws_no_slice_value :
  forall (P : distributions.Provider) (w w' : world P) (min_u : float),
    sample_u_slices P w = Ok (min_u, w') <->
    Forall (fun row => row = []) (u_ (self w)) /\
    2 * vsize (u_ (self w)) <= INT_MAX /\
    min_u = f1 /\ w' = w.
Proof.
  intros P w w' min_u. split.
  - intros H. pose proof (sample_u_slices_Ok P _ _ _ H) as (Hrows & -> & ->).
    split; [exact Hrows|]. split; [|split; reflexivity].
    unfold sample_u_slices in H.
    apply bind_Ok in H as (h & w1 & Hthis & H). apply this_Ok in Hthis as [-> ->].
    apply for_int_Ok_bound in H. rewrite vsize_size in H. exact H.
  - intros (Hrows & Hb & -> & ->). apply sample_u_slices_of_empty_rows; assumption.
Qed.

(** X10.  A sweep that starts with at least one state never completes, and
    neither does a sequence of sweeps: [sample_s] replaces the counts by
    empty rows and [sample_pi] then reads [counts_[0][0]].  No error is
    reported either: the run is undefined behaviour, unless the growth loop
    of [sample_u] is still running when its fuel is spent. *)
Theorem no_sweep_completes_with_a_state :
  forall (P : distributions.Provider) (w : world P),
    1 <= K (self w) ->
    (forall fuel,
        sample_beam P fuel w = Undefined \/ sample_beam P fuel w = OutOfFuel) /\
    (forall fuel fuels,
        sweeps P (fuel :: fuels) w = Undefined \/
        sweeps P (fuel :: fuels) w = OutOfFuel).
Proof.
  intros P w HK.
  assert (Hbeam : forall fuel,
             sample_beam P fuel w = Undefined \/ sample_beam P fuel w = OutOfFuel).
  { intros fuel. destruct (sample_beam P fuel w) as [r|e| |] eqn:E.
    - exfalso. exact (sample_beam_needs_no_state P fuel w r HK E).
    - exfalso. exact (sample_beam_silent P fuel w e E).
    - left. reflexivity.
    - right. reflexivity. }
  split; [exact Hbeam|].
  intros fuel fuels. cbn [sweeps]. unfold bind.
  destruct (Hbeam fuel) as [-> | ->]; [left | right]; reflexivity.
Qed.

Lemma no_sweep_completes_with_a_state_witness :
  1 <= K (self (on 0 (toy [[0; 0]] f1))) /\
  (sample_beam (fixed 0) 1 (on 0 (toy [[0; 0]] f1)) = Undefined \/
   sample_beam (fixed 0) 1 (on 0 (toy [[0; 0]] f1)) = OutOfFuel) /\
  (sweeps (fixed 0) [1; 1]%nat (on 0 (toy [[0; 0]] f1)) = Undefined \/
   sweeps (fixed 0) [1; 1]%nat (on 0 (toy [[0; 0]] f1)) = OutOfFuel).
Proof.
  assert (HK : 1 <= K (self (on 0 (toy [[0; 0]] f1)))) by (vm_compute; discriminate).
  destruct (no_sweep_completes_with_a_state (fixed 0) _ HK) as [Hbeam Hsweeps].
  split; [exact HK|]. split; [apply Hbeam | apply Hsweeps].
Defined.

(** X11.  No sweep of a sampler that the constructor has just built
    completes, whatever the data, the hyperparameters and the random
    generator: the constructor sets [K] to 1. *)
Theorem no_sweep_completes_after_construction :
  forall gamma alpha0 H data garbage h,
    hmm_new gamma alpha0 H data garbage = Ok h ->
    forall (P : distributions.Provider) (g : distributions.rng_t P) fuel,
      sample_beam P fuel (Build_world P h g) = Undefined \/
      sample_beam P fuel (Build_world P h g) = OutOfFuel.
Proof.
  intros gamma alpha0 H data garbage h Hnew P g fuel.
  apply hmm_new_K in Hnew.
  destruct (sample_beam P fuel (Build_world P h g)) as [r|e| |] eqn:E.
  - exfalso. apply (sample_beam_needs_no_state P fuel (Build_world P h g) r); [|exact E].
    cbn. lia.
  - exfalso. exact (sample_beam_silent P fuel _ e E).
  - left. reflexivity.
  - right. reflexivity.
Qed.

Lemma no_sweep_completes_after_construction_witness :
  hmm_new f1 f1 [f1] [[0; 0]] half = Ok (constructed [[0; 0]] [[]; [f0; f0]] half) /\
  (sample_beam (fixed 0) 1 (on 0 (constructed [[0; 0]] [[]; [f0; f0]] half)) = Undefined \/
   sample_beam (fixed 0) 1 (on 0 (constructed [[0; 0]] [[]; [f0; f0]] half)) = OutOfFuel).
Proof.
  assert (Hnew : hmm_new f1 f1 [f1] [[0; 0]] half
                 = Ok (constructed [[0; 0]] [[]; [f0; f0]] half)) by reflexivity.
  split; [exact Hnew|].
  exact (no_sweep_completes_after_construction _ _ _ _ _ _ Hnew (fixed 0) tt 1%nat).
Defined.

(** * The growth of the number of states *)

#[global] Instance keeps_sized_preorder {P} : PreOrder (@keeps_sized P).
Proof.
  split.
  - intros w H. exact H.
  - intros w1 w2 w3 H12 H23 H. apply H23, H12, H.
Qed.

Lemma raise_max_pi_eq P x (w : world P) :
  raise_max_pi P x w
  = Ok (tt, Build_world P
              (set_max_pi (if fgt (max_pi (self w)) x then max_pi (self w) else x)
                 (self w))
              (rng w)).
Proof. reflexivity. Qed.

Lemma update_eq P f (w : world P) :
  update P f w = Ok (tt, Build_world P (f (self w)) (rng w)).
Proof. reflexivity. Qed.

(** The shape after [mv[i].push_back(x)]. *)
Lemma vget_shape_extend {T} (mv mv' : meta_vector T) i row x k :
  vget mv i = Some row -> vset mv i (row ++ [x]) = Some mv' ->
  vget (shape mv') k = if k =? i then Some (vsize row + 1) else vget (shape mv) k.
Proof.
  intros Hrow Hset. rewrite !vget_shape.
  destruct (Z.eqb_spec k i) as [->|Hne].
  - rewrite (vget_vset_eq _ _ _ _ Hset). cbn. f_equal.
    unfold vsize. rewrite length_app. cbn. lia.
  - rewrite (vget_vset_ne _ _ _ _ _ Hset Hne). reflexivity.
Qed.

Section Growth.

Context (P : distributions.Provider).

(** In [sample_pi_row] the transition matrix is only assigned to, cell by
    cell. *)
Lemma sample_pi_row_shape i :
  respects (same (fun h => shape (pi_ h))) (sample_pi_row P i).
Proof.
  assert (Hcell : forall (o : option float) j,
            respects (same (fun h => shape (pi_ h)))
              (let* h := this P in
               let* x := must o in
               let* pi' := must (MetaVector.set (pi_ h) i j x) in
               update P (set_pi pi'))).
  { intros o j w [] w' H. unbind. subst.
    rewrite update_eq in H. injection H as <-. unfold same. cbn.
    eapply set_shape. eassumption. }
  unfold sample_pi_row, raise_max_pi.
  repeat first [solve [apply Hcell] | frame_step].
Qed.

Lemma sample_pi_row_rest i :
  respects (same (fun h => (beta_ h, K h))) (sample_pi_row P i).
Proof. unfold sample_pi_row, raise_max_pi. frame. Qed.

(** One more state: the matrix has one row and one column more, and there
    is one more stick length. *)
Lemma instantiate_state_sized (w w' : world P) :
  sized (self w) ->
  instantiate_state P w = Ok (tt, w') ->
  K (self w') = K (self w) /\
  shape (pi_ (self w')) = vmake (K (self w) + 1) (K (self w) + 2) /\
  vsize (beta_ (self w')) = K (self w) + 2.
Proof.
  intros (H0 & Hpi & Hbeta) H.
  pose proof (instantiate_state_Ok_bound P _ _ H) as Hb.
  pose proof (wrap_succ_small (K (self w)) ltac:(lia)) as Hwrap.
  unfold instantiate_state in H.
  apply bind_Ok in H as (h & w0 & Hthis & H). apply this_Ok in Hthis as [-> ->].
  rewrite Hwrap in H.
  apply bind_Ok in H as ([] & w1 & Hupd & H). rewrite update_eq in Hupd.
  injection Hupd as <-.
  apply bind_Ok in H as ([] & w2 & Hrow & H).
  pose proof (sample_pi_row_shape _ _ _ _ Hrow) as Hshape2.
  pose proof (sample_pi_row_rest _ _ _ _ Hrow) as Hrest2.
  unfold same in Hshape2, Hrest2. cbn in Hshape2, Hrest2.
  injection Hrest2 as Hbeta2 HK2. clear Hrow.
  apply bind_Ok in H as (h2 & w3 & Hthis & H). apply this_Ok in Hthis as [-> ->].
  rewrite HK2, Hwrap in H.
  apply bind_Ok in H as (bu & w3 & Hbu & H). apply must_Ok in Hbu as [_ ->].
  apply bind_Ok in H as (bk & w4 & Hdraw & H).
  rewrite draw_eq in Hdraw. injection Hdraw as _ <-.
  apply bind_Ok in H as (beta' & w5 & Hset & H). apply must_Ok in Hset as [Hset ->].
  apply vset_size in Hset.
  apply bind_Ok in H as ([] & w6 & Hupd & H). rewrite update_eq in Hupd.
  injection Hupd as <-.
  apply bind_Ok in H as ([] & w7 & Hupd & H). rewrite update_eq in Hupd.
  injection Hupd as <-.
  match type of H with for_int _ _ _ ?w5 = _ => set (start := w5) in * end.
  assert (Hinv :
    K (self w') = K (self w) /\ vsize (beta_ (self w')) = K (self w) + 2 /\
    vsize (pi_ (self w')) = K (self w) + 1 /\
    forall i, 0 <= i < K (self w) + 1 ->
      vget (shape (pi_ (self w'))) i
      = Some (if i <? K (self w) + 1 then K (self w) + 2 else K (self w) + 1)).
  { refine (for_int_inv
      (fun n (_ : unit) (s : world P) =>
         K (self s) = K (self w) /\ vsize (beta_ (self s)) = K (self w) + 2 /\
         vsize (pi_ (self s)) = K (self w) + 1 /\
         forall i, 0 <= i < K (self w) + 1 ->
           vget (shape (pi_ (self s))) i
           = Some (if i <? n then K (self w) + 2 else K (self w) + 1))
      _ _ _ _ _ _ _ _ _ H).
    - lia.
    - intros n [] s [] s' Hn (HK & Hb' & Hrows & Hcols) Hbody.
      apply bind_Ok in Hbody as (hs & s0 & Hthis & Hbody).
      apply this_Ok in Hthis as [-> ->].
      apply bind_Ok in Hbody as (pu & s0 & Hpu & Hbody). apply must_Ok in Hpu as [_ ->].
      apply bind_Ok in Hbody as (bK & s0 & HbK & Hbody). apply must_Ok in HbK as [_ ->].
      apply bind_Ok in Hbody as (bK1 & s0 & HbK1 & Hbody).
      apply must_Ok in HbK1 as [_ ->].
      apply bind_Ok in Hbody as (pk & s1 & Hdraw & Hbody).
      rewrite draw_eq in Hdraw. injection Hdraw as _ <-.
      apply bind_Ok in Hbody as (pi' & s2 & Hset' & Hbody).
      apply must_Ok in Hset' as [Hset' ->]. cbn [self] in Hset'.
      apply bind_Ok in Hbody as (row & s2 & Hrow & Hbody).
      apply must_Ok in Hrow as [Hrow ->].
      apply bind_Ok in Hbody as (pi'' & s2 & Hext & Hbody).
      apply must_Ok in Hext as [Hext ->].
      apply bind_Ok in Hbody as ([] & s3 & Hupd & Hbody). rewrite update_eq in Hupd.
      injection Hupd as <-.
      apply bind_Ok in Hbody as (h3 & s4 & Hthis & Hbody).
      apply this_Ok in Hthis as [-> ->].
      apply bind_Ok in Hbody as (a & s4 & Ha & Hbody). apply must_Ok in Ha as [_ ->].
      apply bind_Ok in Hbody as ([] & s5 & Hmax & Hbody).
      rewrite raise_max_pi_eq in Hmax. injection Hmax as <-.
      apply bind_Ok in Hbody as (b & s6 & Hb2 & Hbody). apply must_Ok in Hb2 as [_ ->].
      rewrite raise_max_pi_eq in Hbody. injection Hbody as <-.
      cbn [self rng K beta_ pi_ set_max_pi set_pi].
      pose proof (set_shape _ _ _ _ _ Hset') as Hshape'.
      assert (Hlen : vsize row = K (self w) + 1).
      { pose proof (vget_shape pi' n) as Hs. rewrite Hrow, Hshape', Hcols in Hs by lia.
        rewrite Z.ltb_irrefl in Hs. cbn in Hs. injection Hs as <-. reflexivity. }
      split; [exact HK|]. split; [exact Hb'|]. split.
      + rewrite (vset_size _ _ _ _ Hext).
        assert (Hv : vsize (shape pi') = vsize (shape (pi_ (self s))))
          by (rewrite Hshape'; reflexivity).
        unfold vsize, shape in Hv. rewrite !length_fmap in Hv.
        unfold vsize in *. lia.
      + intros i Hi. rewrite (vget_shape_extend _ _ _ _ _ i Hrow Hext).
        rewrite Hshape', Hlen.
        destruct (Z.eqb_spec i n) as [->|Hne].
        * replace (n <? n + 1) with true by (symmetry; apply Z.ltb_lt; lia).
          f_equal. lia.
        * rewrite Hcols by lia.
          destruct (i <? n) eqn:E1; destruct (i <? n + 1) eqn:E2; try reflexivity.
          -- apply Z.ltb_lt in E1. apply Z.ltb_ge in E2. lia.
          -- apply Z.ltb_ge in E1. apply Z.ltb_lt in E2. lia.
    - unfold start. cbn [self rng K beta_ pi_ set_max_pi set_beta].
      split; [exact HK2|]. split.
      + unfold vsize in *. rewrite length_app. cbn. rewrite Hbeta2 in Hset. lia.
      + assert (Hshape : shape (pi_ (self w2))
                         = vmake (K (self w) + 1) (K (self w) + 1)).
        { rewrite Hshape2. unfold MetaVector.push_back, shape. rewrite fmap_app.
          fold (shape (pi_ (self w))). rewrite Hpi. cbn.
          rewrite vsize_vmake. unfold vmake.
          replace (Z.to_nat (K (self w) + 1)) with (Z.to_nat (K (self w)) + 1)%nat by lia.
          rewrite replicate_add. cbn. do 2 f_equal. lia. }
        split.
        * assert (Hv : vsize (shape (pi_ (self w2))) = K (self w) + 1)
            by (rewrite Hshape, vsize_vmake; lia).
          unfold vsize, shape in Hv. rewrite length_fmap in Hv. exact Hv.
        * intros i Hi. rewrite Hshape, vget_vmake.
          replace ((0 <=? i) && (i <? K (self w) + 1)) with true
            by (symmetry; apply andb_true_iff; split;
                [apply Z.leb_le | apply Z.ltb_lt]; lia).
          replace (i <? 0) with false by (symmetry; apply Z.ltb_ge; lia).
          reflexivity. }
  destruct Hinv as (HK & Hb' & Hrows & Hcols).
  split; [exact HK|]. split; [|exact Hb'].
  apply vget_ext.
  - rewrite vsize_vmake. unfold vsize, shape in *. rewrite length_fmap. lia.
  - intros i Hi.
    assert (Hi' : 0 <= i < K (self w) + 1).
    { unfold vsize, shape in *. rewrite length_fmap in Hi. lia. }
    rewrite Hcols, vget_vmake by exact Hi'.
    replace ((0 <=? i) && (i <? K (self w) + 1)) with true
      by (symmetry; apply andb_true_iff; split; [apply Z.leb_le | apply Z.ltb_lt]; lia).
    replace (i <? K (self w) + 1) with true by (symmetry; apply Z.ltb_lt; lia).
    reflexivity.
Qed.

Lemma add_state_sized (w w' : world P) :
  sized (self w) -> add_state P w = Ok (tt, w') ->
  sized (self w') /\ K (self w') = K (self w) + 1.
Proof.
  intros Hsized H. pose proof (add_state_K P _ _ H) as [HK Hb].
  pose proof Hsized as (H0 & _ & _).
  rewrite wrap_succ_small in HK by lia.
  unfold add_state in H.
  apply bind_Ok in H as ([] & w1 & Hinst & H).
  apply (instantiate_state_sized _ _ Hsized) in Hinst as (HK1 & Hpi1 & Hbeta1).
  apply bind_Ok in H as (h & w2 & Hthis & H). apply this_Ok in Hthis as [-> ->].
  rewrite update_eq in H. injection H as <-.
  split; [|cbn; rewrite HK1; apply wrap_succ_small; lia].
  unfold sized. cbn [self K pi_ beta_ set_K].
  rewrite HK1, wrap_succ_small by lia.
  split; [lia|]. split.
  - rewrite Hpi1. f_equal. lia.
  - rewrite Hbeta1. lia.
Qed.

Lemma add_state_keeps_sized : respects keeps_sized (add_state P).
Proof.
  intros w [] w' H Hsized. exact (proj1 (add_state_sized _ _ Hsized H)).
Qed.

Lemma grow_keeps_sized fuel min_u : respects keeps_sized (grow P fuel min_u).
Proof.
  induction fuel as [|fuel IH]; cbn [grow].
  - frame.
  - repeat first [solve [apply add_state_keeps_sized | apply IH] | frame_step].
Qed.

Lemma sample_u_keeps_sized fuel : respects keeps_sized (sample_u P fuel).
Proof.
  unfold sample_u. apply respects_bind; [exact _ | | intros min_u; apply grow_keeps_sized].
  intros w m w' H. apply sample_u_slices_Ok in H as (_ & _ & ->). reflexivity.
Qed.

(** What the growth loop leaves alone. *)
Lemma sample_pi_row_frame i :
  respects (same (fun h => (data_ h, s_ h, u_ h, m_ h, counts_ h, phi_ h,
                            gamma_ h, alpha0_ h, H_ h, memoized_log_stirling_ h)))
    (sample_pi_row P i).
Proof. unfold sample_pi_row, raise_max_pi. frame. Qed.

Lemma add_state_frame :
  respects (same (fun h => (data_ h, s_ h, u_ h, m_ h, counts_ h, phi_ h,
                            gamma_ h, alpha0_ h, H_ h, memoized_log_stirling_ h)))
    (add_state P).
Proof.
  unfold add_state, instantiate_state, raise_max_pi.
  repeat first [solve [apply sample_pi_row_frame] | frame_step].
Qed.

Lemma grow_frame fuel min_u :
  respects (same (fun h => (data_ h, s_ h, u_ h, m_ h, counts_ h, phi_ h,
                            gamma_ h, alpha0_ h, H_ h, memoized_log_stirling_ h)))
    (grow P fuel min_u).
Proof.
  induction fuel as [|fuel IH]; cbn [grow].
  - frame.
  - repeat first [solve [apply add_state_frame | apply IH] | frame_step].
Qed.

End Growth.

(** X12.  [sample_u] never resizes the table counts and the transition
    counts: when it completes, however many states it has added, [m_] and
    [counts_] are what they were, and so are the observations, the state
    sequences, the slice values, the emission matrix, the hyperparameters and
    the table of Stirling numbers. *)
Theorem sample_u_leaves_the_counts_alone :
  forall (P : distributions.Provider) fuel (w w' : world P),
    sample_u P fuel w = Ok (tt, w') ->
    m_ (self w') = m_ (self w) /\
    counts_ (self w') = counts_ (self w) /\
    data_ (self w') = data_ (self w) /\
    s_ (self w') = s_ (self w) /\
    u_ (self w') = u_ (self w) /\
    phi_ (self w') = phi_ (self w) /\
    gamma_ (self w') = gamma_ (self w) /\
    alpha0_ (self w') = alpha0_ (self w) /\
    H_ (self w') = H_ (self w) /\
    memoized_log_stirling_ (self w') = memoized_log_stirling_ (self w).
Proof.
  intros P fuel w w' H. unfold sample_u in H.
  apply bind_Ok in H as (min_u & w1 & Hslices & H).
  apply sample_u_slices_Ok in Hslices as (_ & _ & ->).
  apply grow_frame in H. unfold same in H.
  injection H as -> -> -> -> -> -> -> -> -> ->.
  repeat split; reflexivity.
Qed.

Lemma sample_u_leaves_the_counts_alone_witness :
  exists w',
    sample_u (fixed 0) 2 (on 0 (bare two)) = Ok (tt, w') /\
    K (self w') = 1 /\
    m_ (self w') = [] /\ counts_ (self w') = [].
Proof.
  destruct (sample_u (fixed 0) 2 (on 0 (bare two))) as [[[] w']| | |] eqn:E;
    try (vm_compute in E; discriminate).
  exists w'. split; [reflexivity|].
  destruct (sample_u_leaves_the_counts_alone _ _ _ _ E) as (Hm & Hc & _).
  vm_compute in E. injection E as <-.
  split; [reflexivity|]. split; [exact Hm | exact Hc].
Defined.

(** * The stages that resample the matrix, the table counts and the sticks *)

#[global] Instance cache_le_preorder {P} : PreOrder (@cache_le P).
Proof.
  split.
  - intros w n. destruct (memoized_log_stirling_ (self w) !! n); [reflexivity | left; reflexivity].
  - intros w1 w2 w3 H12 H23 n. specialize (H12 n). specialize (H23 n).
    destruct (memoized_log_stirling_ (self w1) !! n) as [row|].
    + rewrite H12 in H23. exact H23.
    + destruct H12 as [H12|H12]; rewrite H12 in H23; [exact H23 | right; exact H23].
Qed.

Section Resampling.

Context (P : distributions.Provider).

(** ** [sample_pi] *)

Lemma sample_pi_shape : respects (same (fun h => shape (pi_ h))) (sample_pi P).
Proof.
  unfold sample_pi.
  repeat first [solve [apply sample_pi_row_shape] | frame_step].
Qed.

Lemma sample_pi_frame :
  respects (same (fun h => (data_ h, s_ h, u_ h, m_ h, counts_ h, phi_ h, beta_ h,
                            gamma_ h, alpha0_ h, H_ h, memoized_log_stirling_ h, K h)))
    (sample_pi P).
Proof. unfold sample_pi, sample_pi_row, raise_max_pi. frame. Qed.

(** ** [sample_m] *)

Lemma sample_m_at_frame i j :
  respects (same (fun h => (data_ h, s_ h, u_ h, counts_ h, pi_ h, phi_ h, beta_ h,
                            gamma_ h, alpha0_ h, H_ h, max_pi h, K h)))
    (sample_m_at P i j).
Proof. unfold sample_m_at. frame. Qed.

(** What one turn of the inner loop of [sample_m] does to the sampler. *)
Lemma sample_m_at_Ok i j (w w' : world P) :
  sample_m_at P i j w = Ok (tt, w') ->
  exists n r,
    MetaVector.get (counts_ (self w)) i j = Some n /\
    MetaVector.set (m_ (self w)) i j r = Some (m_ (self w')) /\
    memoized_log_stirling_ (self w')
    = (if decide (memoized_log_stirling_ (self w) !! n = None)
       then <[n := distributions.log_stirling1_row P n]> (memoized_log_stirling_ (self w))
       else memoized_log_stirling_ (self w)).
Proof.
  unfold sample_m_at. intros H.
  apply bind_Ok in H as (h & w0 & Hthis & H). apply this_Ok in Hthis as [-> ->].
  apply bind_Ok in H as (n & w0 & Hn & H). apply must_Ok in Hn as [Hn ->].
  apply bind_Ok in H as ([] & w1 & Hmemo & H).
  assert (Hw1 : m_ (self w1) = m_ (self w) /\
                memoized_log_stirling_ (self w1)
                = (if decide (memoized_log_stirling_ (self w) !! n = None)
                   then <[n := distributions.log_stirling1_row P n]>
                          (memoized_log_stirling_ (self w))
                   else memoized_log_stirling_ (self w))).
  { destruct (decide (memoized_log_stirling_ (self w) !! n = None)).
    - rewrite update_eq in Hmemo. injection Hmemo as <-. split; reflexivity.
    - apply ret_Ok in Hmemo as [_ ->]. split; reflexivity. }
  destruct Hw1 as [Hm1 Hmemo1]. clear Hmemo.
  apply bind_Ok in H as (h1 & w2 & Hthis & H). apply this_Ok in Hthis as [-> ->].
  apply bind_Ok in H as (stirling_row & w2 & Hrow & H). apply must_Ok in Hrow as [_ ->].
  apply bind_Ok in H as (scores & w3 & Hscores & H).
  assert (w3 = w1) as ->.
  { symmetry. revert Hscores. apply respects_for_int; [exact _|].
    intros m scores0. frame. }
  apply bind_Ok in H as (r & w4 & Hdraw & H).
  rewrite draw_eq in Hdraw. injection Hdraw as _ <-.
  apply bind_Ok in H as (h4 & w5 & Hthis & H). apply this_Ok in Hthis as [-> ->].
  apply bind_Ok in H as (m' & w5 & Hset & H). apply must_Ok in Hset as [Hset ->].
  rewrite update_eq in H. injection H as <-.
  cbn [self m_ set_m memoized_log_stirling_] in *.
  exists n, (wrap (wrap r + 1)). split; [exact Hn|]. split.
  - rewrite <- Hm1. exact Hset.
  - exact Hmemo1.
Qed.

Lemma sample_m_at_cache i j : respects cache_le (sample_m_at P i j).
Proof.
  intros w [] w' H. apply sample_m_at_Ok in H as (n & r & _ & _ & Hmemo).
  intros k. rewrite Hmemo.
  destruct (decide (memoized_log_stirling_ (self w) !! n = None)) as [Hnone|Hsome].
  - destruct (Z.eq_dec k n) as [->|Hne].
    + rewrite Hnone, lookup_insert_eq. right. reflexivity.
    + rewrite lookup_insert_ne by congruence.
      destruct (memoized_log_stirling_ (self w) !! k); [reflexivity | left; reflexivity].
  - destruct (memoized_log_stirling_ (self w) !! k); [reflexivity | left; reflexivity].
Qed.

Lemma sample_m_at_shape i j : respects (same (fun h => shape (m_ h))) (sample_m_at P i j).
Proof.
  intros w [] w' H. apply sample_m_at_Ok in H as (n & r & _ & Hset & _).
  unfold same. eapply set_shape. exact Hset.
Qed.

(** The two loops of [sample_m], cell by cell: what a turn establishes for
    its cell, and the later turns do not undo, holds for every cell at the
    end. *)
Lemma sample_m_cells (R : world P -> world P -> Prop) (Q : Z -> Z -> world P -> Prop)
    (w w' : world P) :
  PreOrder R ->
  (forall i j, respects R (sample_m_at P i j)) ->
  (forall i j s s', R w s -> sample_m_at P i j s = Ok (tt, s') -> Q i j s') ->
  (forall i j i' j' s s',
      (i' <> i \/ j' <> j) -> R w s -> Q i j s ->
      sample_m_at P i' j' s = Ok (tt, s') -> Q i j s') ->
  sample_m P w = Ok (tt, w') ->
  R w w' /\
  forall i j, 0 <= i < K (self w) -> 0 <= j < K (self w) -> Q i j w'.
Proof.
  intros HR Hresp Hnew Hkeep H. unfold sample_m in H.
  apply bind_Ok in H as (h & w0 & Hthis & H). apply this_Ok in Hthis as [-> ->].
  destruct (Z.lt_ge_cases (K (self w)) 0) as [Hneg|Hpos].
  { split; [|intros i j Hi; lia].
    revert H. apply respects_for_int; [exact HR|]. intros i a.
    apply respects_for_int; [exact HR|]. intros j b. apply Hresp. }
  refine (for_int_inv
            (fun a (_ : unit) (s : world P) =>
               R w s /\
               forall i j, 0 <= i < a -> 0 <= j < K (self w) -> Q i j s)
            _ _ _ _ _ _ Hpos _ _ H).
  - intros a [] s [] s' Ha [HRs Hdone] Hrow.
    assert (Hin : R w s' /\
                  forall i j, 0 <= i <= a -> 0 <= j < K (self w) ->
                              i < a \/ j < K (self w) -> Q i j s').
    { refine (for_int_inv
                (fun b (_ : unit) (s : world P) =>
                   R w s /\
                   forall i j, 0 <= i <= a -> 0 <= j < K (self w) ->
                               i < a \/ j < b -> Q i j s)
                _ _ _ _ _ _ Hpos _ _ Hrow).
      - intros b [] t [] t' Hb [HRt Hcells] Hcell. split.
        + transitivity t; [exact HRt | exact (Hresp _ _ _ _ _ Hcell)].
        + intros i j Hi Hj Hlt.
          destruct (Z.eq_dec i a) as [->|Hia].
          * destruct (Z.eq_dec j b) as [->|Hjb].
            -- eapply Hnew; eassumption.
            -- eapply (Hkeep a j a b); [right; congruence | exact HRt | | exact Hcell].
               apply Hcells; lia.
          * eapply (Hkeep i j a b); [left; congruence | exact HRt | | exact Hcell].
            apply Hcells; lia.
      - split; [exact HRs|]. intros i j Hi Hj Hlt. apply Hdone; lia. }
    destruct Hin as [HRs' Hcells]. split; [exact HRs'|].
    intros i j Hi Hj. apply Hcells; lia.
  - split; [reflexivity|]. intros i j Hi. lia.
Qed.

End Resampling.

Lemma sample_m_at_counts P i j : respects (same counts_) (sample_m_at P i j).
Proof. unfold sample_m_at. frame. Qed.

Lemma sample_m_at_other_cell P i j i' j' (s s' : world P) :
  i' <> i \/ j' <> j ->
  sample_m_at P i' j' s = Ok (tt, s') ->
  MetaVector.get (m_ (self s')) i j = MetaVector.get (m_ (self s)) i j.
Proof.
  intros Hne H. apply sample_m_at_Ok in H as (n & r & _ & Hset & _).
  rewrite (get_set _ _ _ _ _ i j Hset).
  destruct (Z.eqb_spec i i') as [->|Hi]; [|reflexivity].
  destruct (Z.eqb_spec j j') as [->|Hj]; [|reflexivity].
  destruct Hne as [Hne|Hne]; contradiction.
Qed.

Lemma sample_m_cache P (w w' : world P) :
  sample_m P w = Ok (tt, w') ->
  cache_le w w' /\
  forall i j, 0 <= i < K (self w) -> 0 <= j < K (self w) ->
    exists n,
      MetaVector.get (counts_ (self w)) i j = Some n /\
      memoized_log_stirling_ (self w') !! n
      = Some (default (distributions.log_stirling1_row P n)
                (memoized_log_stirling_ (self w) !! n)).
Proof.
  intros H.
  destruct (sample_m_cells P
              (fun w s => counts_ (self s) = counts_ (self w) /\ cache_le w s)
              (fun i j s =>
                 exists n,
                   MetaVector.get (counts_ (self w)) i j = Some n /\
                   memoized_log_stirling_ (self s) !! n
                   = Some (default (distributions.log_stirling1_row P n)
                             (memoized_log_stirling_ (self w) !! n)))
              w w') as [[_ Hcache] Hcells].
  - split.
    + intros x. split; reflexivity.
    + intros x y z [Hc1 Hm1] [Hc2 Hm2]. split; [congruence | etransitivity; eassumption].
  - intros i j s [] s' Hrun. split.
    + exact (sample_m_at_counts P i j _ _ _ Hrun).
    + exact (sample_m_at_cache P i j _ _ _ Hrun).
  - intros i j s s' [Hc Hm] Hrun.
    apply sample_m_at_Ok in Hrun as (n & r & Hn & _ & Hmemo).
    exists n. split; [rewrite <- Hc; exact Hn|]. rewrite Hmemo.
    specialize (Hm n).
    destruct (memoized_log_stirling_ (self w) !! n) as [row|]; cbn [default].
    + rewrite Hm. destruct (decide (Some row = None)); [discriminate | exact Hm].
    + destruct (decide (memoized_log_stirling_ (self s) !! n = None)) as [E|E].
      * apply lookup_insert_eq.
      * destruct Hm as [Hm|Hm]; [contradiction | exact Hm].
  - intros i j i' j' s s' _ _ (n & Hn & Hrow) Hrun.
    exists n. split; [exact Hn|].
    pose proof (sample_m_at_cache P i' j' _ _ _ Hrun n) as Hle.
    rewrite Hrow in Hle. exact Hle.
  - exact H.
  - split; [exact Hcache | exact Hcells].
Qed.

(** X13.  [sample_pi] rewrites the transition matrix in place: the matrix
    keeps the number and the lengths of its rows, and nothing but the matrix,
    [max_pi] and the random generator is changed. *)
Theorem sample_pi_rewrites_the_matrix_in_place :
  forall (P : distributions.Provider) (w w' : world P),
    sample_pi P w = Ok (tt, w') ->
    shape (pi_ (self w')) = shape (pi_ (self w)) /\
    K (self w') = K (self w) /\
    beta_ (self w') = beta_ (self w) /\
    counts_ (self w') = counts_ (self w) /\
    m_ (self w') = m_ (self w) /\
    data_ (self w') = data_ (self w) /\
    s_ (self w') = s_ (self w) /\
    u_ (self w') = u_ (self w) /\
    phi_ (self w') = phi_ (self w) /\
    gamma_ (self w') = gamma_ (self w) /\
    alpha0_ (self w') = alpha0_ (self w) /\
    H_ (self w') = H_ (self w) /\
    memoized_log_stirling_ (self w') = memoized_log_stirling_ (self w).
Proof.
  intros P w w' H.
  pose proof (sample_pi_shape P _ _ _ H) as Hshape.
  apply sample_pi_frame in H. unfold same in H, Hshape.
  injection H as -> -> -> -> -> -> -> -> -> -> -> ->.
  repeat split; try reflexivity. exact Hshape.
Qed.

Lemma sample_pi_rewrites_the_matrix_in_place_witness :
  exists w',
    sample_pi (fixed 0) (on 0 (toy [[0; 0]] f1)) = Ok (tt, w') /\
    shape (pi_ (self w')) = [2] /\ beta_ (self w') = [half; half].
Proof.
  destruct (sample_pi (fixed 0) (on 0 (toy [[0; 0]] f1))) as [[[] w']| | |] eqn:E;
    try (vm_compute in E; discriminate).
  exists w'. split; [reflexivity|].
  destruct (sample_pi_rewrites_the_matrix_in_place _ _ _ E) as (Hshape & _ & Hbeta & _).
  split; [exact Hshape | exact Hbeta].
Defined.

(** X14.  With a library that returns an index into the scores it is given,
    a completed [sample_m] leaves, for every pair of states whose transition
    count is positive, a table count between 1 and that transition count.
    (For a count of zero the vector of scores is empty and nothing bounds the
    table count.) *)
Theorem sample_m_bounds_the_table_counts :
  forall (P : distributions.Provider) (w w' : world P),
    (forall g scores, scores <> [] ->
       0 <= fst (distributions.sample_from_scores_overwrite P g scores) < vsize scores) ->
    sample_m P w = Ok (tt, w') ->
    forall i j n,
      0 <= i < K (self w) -> 0 <= j < K (self w) ->
      MetaVector.get (counts_ (self w)) i j = Some n -> 0 < n ->
      exists m, MetaVector.get (m_ (self w')) i j = Some m /\ 1 <= m <= n.
Proof.
  intros P w w' Hindex H i j n Hi Hj Hn Hpos.
  destruct (sample_m_cells P (same counts_)
              (fun i j s =>
                 forall n, MetaVector.get (counts_ (self w)) i j = Some n -> 0 < n ->
                           exists m, MetaVector.get (m_ (self s)) i j = Some m /\
                                     1 <= m <= n)
              w w') as [_ Hcells].
  - exact _.
  - intros a b. apply sample_m_at_counts.
  - intros a b s s' Hc Hrun n0 Hn0 Hpos0. unfold same in Hc.
    eapply sample_m_at_positive_count; [exact Hindex | | exact Hpos0 | exact Hrun].
    rewrite Hc. exact Hn0.
  - intros a b a' b' s s' Hne _ Hq Hrun n0 Hn0 Hpos0.
    rewrite (sample_m_at_other_cell P a b a' b' _ _ Hne Hrun).
    apply Hq; assumption.
  - exact H.
  - exact (Hcells i j Hi Hj n Hn Hpos).
Qed.

Lemma sample_m_bounds_the_table_counts_witness :
  exists w' m,
    sample_m (fixed 0) (on 0 (counted 2)) = Ok (tt, w') /\
    MetaVector.get (counts_ (counted 2)) 0 0 = Some 2 /\
    MetaVector.get (m_ (self w')) 0 0 = Some m /\ 1 <= m <= 2.
Proof.
  destruct (sample_m (fixed 0) (on 0 (counted 2))) as [[[] w']| | |] eqn:E;
    try (vm_compute in E; discriminate).
  assert (Hindex : forall g scores, scores <> [] ->
            0 <= fst (distributions.sample_from_scores_overwrite (fixed 0) g scores)
            < vsize scores).
  { intros g [|x scores] Hne; [contradiction|]. unfold vsize. cbn. lia. }
  destruct (sample_m_bounds_the_table_counts (fixed 0) _ _ Hindex E 0 0 2)
    as (m & Hm & Hbounds); try reflexivity; try (vm_compute; split; [discriminate | reflexivity]).
  exists w', m. split; [reflexivity|]. split; [reflexivity|].
  split; [exact Hm | exact Hbounds].
Defined.

(** X15.  The table of Stirling numbers is a cache that [sample_m] only
    fills.  A key keeps the row it has: a row is never recomputed, replaced
    or removed.  After a completed [sample_m] every transition count of a
    pair of states is a key of the table, with the row it had before or,
    if it had none, the row [log_stirling1_row] computes for it. *)
Theorem sample_m_only_fills_the_cache :
  forall (P : distributions.Provider) (w w' : world P),
    sample_m P w = Ok (tt, w') ->
    (forall (n : size_t) row,
        memoized_log_stirling_ (self w) !! n = Some row ->
        memoized_log_stirling_ (self w') !! n = Some row) /\
    (forall (n : size_t) row,
        memoized_log_stirling_ (self w) !! n = None ->
        memoized_log_stirling_ (self w') !! n = Some row ->
        row = distributions.log_stirling1_row P n) /\
    (forall i j, 0 <= i < K (self w) -> 0 <= j < K (self w) ->
       exists n,
         MetaVector.get (counts_ (self w)) i j = Some n /\
         memoized_log_stirling_ (self w') !! n
         = Some (default (distributions.log_stirling1_row P n)
                   (memoized_log_stirling_ (self w) !! n))).
Proof.
  intros P w w' H. apply sample_m_cache in H as [Hle Hcells].
  split; [|split; [|exact Hcells]].
  - intros n row Hrow. specialize (Hle n). rewrite Hrow in Hle. exact Hle.
  - intros n row Hnone Hrow. specialize (Hle n). rewrite Hnone, Hrow in Hle.
    destruct Hle as [Hle|Hle]; [discriminate | congruence].
Qed.

Lemma sample_m_only_fills_the_cache_witness :
  exists w',
    sample_m (fixed 0) (on 0 (counted 2)) = Ok (tt, w') /\
    memoized_log_stirling_ (self w') !! 2 = Some [f0; f0; f0].
Proof.
  destruct (sample_m (fixed 0) (on 0 (counted 2))) as [[[] w']| | |] eqn:E;
    try (vm_compute in E; discriminate).
  exists w'. split; [reflexivity|].
  destruct (sample_m_only_fills_the_cache _ _ _ E) as (_ & _ & Hcells).
  destruct (Hcells 0 0) as (n & Hn & Hrow);
    try (vm_compute; split; [discriminate | reflexivity]).
  vm_compute in Hn. injection Hn as <-. exact Hrow.
Defined.

(** ** [sample_beta] *)

Lemma vget_take {A} (v : list A) (n : nat) i x :
  vget (take n v) i = Some x -> vget v i = Some x.
Proof.
  intros H. pose proof (vget_Some _ _ _ H) as Hi.
  rewrite vget_lookup in H by lia. rewrite vget_lookup by lia.
  apply lookup_take_Some in H as [H _]. exact H.
Qed.

Section Sticks.

Context (P : distributions.Provider).

Lemma sample_m_frame :
  respects (same (fun h => (data_ h, s_ h, u_ h, counts_ h, pi_ h, phi_ h, beta_ h,
                            gamma_ h, alpha0_ h, H_ h, max_pi h, K h)))
    (sample_m P).
Proof.
  unfold sample_m. repeat first [solve [apply sample_m_at_frame] | frame_step].
Qed.

Lemma sample_m_shape : respects (same (fun h => shape (m_ h))) (sample_m P).
Proof.
  unfold sample_m. repeat first [solve [apply sample_m_at_shape] | frame_step].
Qed.

Lemma sample_m_Ok_bound (w : world P) r : sample_m P w = Ok r -> K (self w) <= INT_MAX.
Proof.
  unfold sample_m. destruct r as [[] w']. intros H.
  apply bind_Ok in H as (h & w0 & Hthis & H). apply this_Ok in Hthis as [-> ->].
  eapply for_int_Ok_bound. exact H.
Qed.

(** X16.  [sample_beta] hands the library one parameter per state, the sum
    of row [k] of the table counts that [sample_m] has just drawn, followed
    by [gamma], and stores the [K + 1] numbers that the Dirichlet draw
    returns as the first [K + 1] stick lengths, entry by entry; the stick
    lengths after them, if any, are left as they were. *)
Theorem sample_beta_stores_the_draw (w w' : world P) :
  0 <= K (self w) ->
  sample_beta P w = Ok (tt, w') ->
  exists w1 alphas,
    sample_m P w = Ok (tt, w1) /\
    vsize alphas = K (self w) + 1 /\
    (forall k, 0 <= k < K (self w) ->
       vget alphas k = float_of_size <$> MetaVector.sum (m_ (self w1)) k) /\
    vget alphas (K (self w)) = Some (gamma_ (self w)) /\
    (forall k, 0 <= k <= K (self w) ->
       exists x,
         vget (fst (distributions.sample_dirichlet P (rng w1) (K (self w) + 1) alphas)) k
         = Some x /\
         vget (beta_ (self w')) k = Some x) /\
    (forall k, K (self w) < k -> vget (beta_ (self w')) k = vget (beta_ (self w)) k) /\
    m_ (self w') = m_ (self w1) /\
    rng w' = snd (distributions.sample_dirichlet P (rng w1) (K (self w) + 1) alphas).
Proof.
  intros H0 H. unfold sample_beta in H.
  apply bind_Ok in H as ([] & w1 & Hm & H).
  pose proof (sample_m_Ok_bound _ _ Hm) as Hb.
  pose proof (sample_m_frame _ _ _ Hm) as Hframe. unfold same in Hframe.
  injection Hframe as _ _ _ _ _ _ Hbeta1 Hgamma1 _ _ _ HK1.
  apply bind_Ok in H as (h & w0 & Hthis & H). apply this_Ok in Hthis as [-> ->].
  rewrite HK1, Hgamma1, (wrap_succ_small (K (self w))) in H by lia.
  apply bind_Ok in H as (alphas & w2 & Hal & H).
  assert (Halphas :
    w2 = w1 /\ vsize alphas = K (self w) /\
    forall k, 0 <= k < K (self w) ->
      vget alphas k = float_of_size <$> MetaVector.sum (m_ (self w1)) k).
  { refine (for_int_inv
      (fun n (al : list float) (s : world P) =>
         s = w1 /\ vsize al = n /\
         forall k, 0 <= k < n ->
           vget al k = float_of_size <$> MetaVector.sum (m_ (self w1)) k)
      _ _ _ _ _ _ H0 _ _ Hal).
    - intros n al s al' s' Hn (-> & Hsize & Hlow) Hbody.
      apply bind_Ok in Hbody as (h & s0 & Hthis & Hbody).
      apply this_Ok in Hthis as [-> ->].
      apply bind_Ok in Hbody as (sm & s0 & Hsm & Hbody). apply must_Ok in Hsm as [Hsm ->].
      apply ret_Ok in Hbody as [-> ->].
      split; [reflexivity|]. split.
      + unfold vsize in *. rewrite length_app. cbn. lia.
      + intros k Hk. rewrite vget_app, Hsize.
        destruct (k <? n) eqn:E.
        * apply Z.ltb_lt in E. apply Hlow. lia.
        * apply Z.ltb_ge in E. assert (k = n) as -> by lia.
          rewrite Z.sub_diag, Hsm. reflexivity.
    - split; [reflexivity|]. split; [reflexivity|]. intros k Hk. lia. }
  destruct Halphas as (-> & Hsize & Hlow). clear Hal.
  apply bind_Ok in H as (drawn & w3 & Hdraw & H).
  rewrite draw_eq in Hdraw. injection Hdraw as <- <-.
  set (alphas' := alphas ++ [gamma_ (self w)]) in *.
  set (drawn := fst (distributions.sample_dirichlet P (rng w1) (K (self w) + 1) alphas')) in *.
  set (start := Build_world P (self w1)
                  (snd (distributions.sample_dirichlet P (rng w1) (K (self w) + 1) alphas')))
    in *.
  assert (Hcopy :
    rng w' = rng start /\ m_ (self w') = m_ (self w1) /\
    (forall k, 0 <= k < K (self w) + 1 ->
       exists x, vget drawn k = Some x /\ vget (beta_ (self w')) k = Some x) /\
    (forall k, K (self w) + 1 <= k ->
       vget (beta_ (self w')) k = vget (beta_ (self w1)) k)).
  { refine (for_int_inv
      (fun n (_ : unit) (s : world P) =>
         rng s = rng start /\ m_ (self s) = m_ (self w1) /\
         (forall k, 0 <= k < n ->
            exists x, vget drawn k = Some x /\ vget (beta_ (self s)) k = Some x) /\
         (forall k, n <= k -> vget (beta_ (self s)) k = vget (beta_ (self w1)) k))
      _ _ _ _ _ _ _ _ _ H).
    - lia.
    - intros n [] s [] s' Hn (Hrng & Hm' & Hlow' & Hhigh) Hbody.
      apply bind_Ok in Hbody as (h & s0 & Hthis & Hbody).
      apply this_Ok in Hthis as [-> ->].
      apply bind_Ok in Hbody as (x & s0 & Hx & Hbody). apply must_Ok in Hx as [Hx ->].
      apply bind_Ok in Hbody as (beta' & s0 & Hset & Hbody).
      apply must_Ok in Hset as [Hset ->].
      rewrite update_eq in Hbody. injection Hbody as <-.
      cbn [self rng beta_ m_ set_beta].
      split; [exact Hrng|]. split; [exact Hm'|]. split.
      + intros k Hk. destruct (Z.eq_dec k n) as [->|Hne].
        * exists x. split; [eapply vget_take; exact Hx | eapply vget_vset_eq; exact Hset].
        * rewrite (vget_vset_ne _ _ _ _ _ Hset Hne). apply Hlow'. lia.
      + intros k Hk. rewrite (vget_vset_ne _ _ _ _ k Hset) by lia. apply Hhigh. lia.
    - split; [reflexivity|]. split; [reflexivity|]. split; [intros k Hk; lia | reflexivity]. }
  destruct Hcopy as (Hrng & Hm' & Hlow' & Hhigh).
  exists w1, alphas'. split; [exact Hm|]. split.
  { unfold alphas', vsize in *. rewrite length_app. cbn. lia. }
  split.
  { intros k Hk. unfold alphas'. rewrite vget_app, Hsize.
    replace (k <? K (self w)) with true by (symmetry; apply Z.ltb_lt; lia).
    apply Hlow. exact Hk. }
  split.
  { unfold alphas'. rewrite vget_app, Hsize, Z.ltb_irrefl, Z.sub_diag. reflexivity. }
  split; [intros k Hk; apply Hlow'; lia|].
  split; [intros k Hk; rewrite <- Hbeta1; apply Hhigh; lia|].
  split; [exact Hm' | exact Hrng].
Qed.

Lemma sample_beta_frame :
  respects (same (fun h => (data_ h, s_ h, u_ h, counts_ h, pi_ h, phi_ h,
                            gamma_ h, alpha0_ h, H_ h, max_pi h, K h)))
    (sample_beta P).
Proof.
  unfold sample_beta, sample_m, sample_m_at. frame.
Qed.

Lemma sample_beta_sizes :
  respects (same (fun h => (shape (m_ h), vsize (beta_ h)))) (sample_beta P).
Proof.
  assert (Hcell : forall (o : option float) k,
            respects (same (fun h => (shape (m_ h), vsize (beta_ h))))
              (let* h := this P in
               let* x := must o in
               let* beta' := must (vset (beta_ h) k x) in
               update P (set_beta beta'))).
  { intros o k w [] w' H. unbind. subst.
    rewrite update_eq in H. injection H as <-. unfold same. cbn.
    f_equal. eapply vset_size. eassumption. }
  assert (Hm : respects (same (fun h => (shape (m_ h), vsize (beta_ h)))) (sample_m P)).
  { intros w [] w' H. unfold same.
    rewrite (sample_m_shape _ _ _ H).
    apply sample_m_frame in H. unfold same in H.
    injection H as _ _ _ _ _ _ -> _ _ _ _ _. reflexivity. }
  unfold sample_beta.
  repeat first [solve [apply Hcell | apply Hm] | frame_step].
Qed.

End Sticks.

Lemma sample_beta_stores_the_draw_witness :
  0 <= K (self (on 0 (toy [[0; 0]] f1))) /\
  exists w' w1 alphas,
    sample_beta (fixed 0) (on 0 (toy [[0; 0]] f1)) = Ok (tt, w') /\
    sample_m (fixed 0) (on 0 (toy [[0; 0]] f1)) = Ok (tt, w1) /\
    vget alphas 0 = float_of_size <$> MetaVector.sum (m_ (self w1)) 0 /\
    vget alphas 1 = Some f1 /\
    vget (beta_ (self w')) 0
    = vget (fst (distributions.sample_dirichlet (fixed 0) (rng w1) 2 alphas)) 0 /\
    vget (beta_ (self w')) 1
    = vget (fst (distributions.sample_dirichlet (fixed 0) (rng w1) 2 alphas)) 1.
Proof.
  assert (H0 : 0 <= K (self (on 0 (toy [[0; 0]] f1)))) by (vm_compute; discriminate).
  split; [exact H0|].
  destruct (sample_beta (fixed 0) (on 0 (toy [[0; 0]] f1))) as [[[] w']| | |] eqn:E;
    try (vm_compute in E; discriminate).
  destruct (sample_beta_stores_the_draw _ _ _ H0 E)
    as (w1 & alphas & Hm & _ & Hlow & Hgamma & Hcopy & _).
  exists w', w1, alphas. split; [reflexivity|]. split; [exact Hm|].
  split; [apply Hlow; vm_compute; split; [discriminate | reflexivity]|].
  split; [exact Hgamma|].
  destruct (Hcopy 0) as (x0 & Hx0 & Hb0); [vm_compute; split; discriminate|].
  destruct (Hcopy 1) as (x1 & Hx1 & Hb1); [vm_compute; split; discriminate|].
  split.
  - rewrite Hb0. symmetry. exact Hx0.
  - rewrite Hb1. symmetry. exact Hx1.
Defined.

(** X17.  [sample_beta] changes the table counts, the stick lengths and the
    table of Stirling numbers, and nothing else of the sampler: the counts,
    the transition matrix, the data, the states, the slice values, the
    emission matrix, the hyperparameters, [max_pi] and [K] are what they
    were.  The table counts keep their shape and the stick lengths their
    number. *)
Theorem sample_beta_changes_only_tables_and_sticks :
  forall (P : distributions.Provider) (w w' : world P),
    sample_beta P w = Ok (tt, w') ->
    shape (m_ (self w')) = shape (m_ (self w)) /\
    vsize (beta_ (self w')) = vsize (beta_ (self w)) /\
    counts_ (self w') = counts_ (self w) /\
    pi_ (self w') = pi_ (self w) /\
    K (self w') = K (self w) /\
    max_pi (self w') = max_pi (self w) /\
    data_ (self w') = data_ (self w) /\
    s_ (self w') = s_ (self w) /\
    u_ (self w') = u_ (self w) /\
    phi_ (self w') = phi_ (self w) /\
    gamma_ (self w') = gamma_ (self w) /\
    alpha0_ (self w') = alpha0_ (self w) /\
    H_ (self w') = H_ (self w).
Proof.
  intros P w w' H.
  pose proof (sample_beta_sizes P _ _ _ H) as Hsizes.
  apply sample_beta_frame in H. unfold same in H, Hsizes.
  injection Hsizes as -> ->.
  injection H as -> -> -> -> -> -> -> -> -> -> ->.
  repeat split; reflexivity.
Qed.

Lemma sample_beta_changes_only_tables_and_sticks_witness :
  exists w',
    sample_beta (fixed 0) (on 0 (toy [[0; 0]] f1)) = Ok (tt, w') /\
    shape (m_ (self w')) = [1] /\ vsize (beta_ (self w')) = 2 /\
    pi_ (self w') = [[half; half]].
Proof.
  destruct (sample_beta (fixed 0) (on 0 (toy [[0; 0]] f1))) as [[[] w']| | |] eqn:E;
    try (vm_compute in E; discriminate).
  exists w'. split; [reflexivity|].
  destruct (sample_beta_changes_only_tables_and_sticks _ _ _ E)
    as (Hm & Hbeta & _ & Hpi & _).
  split; [exact Hm|]. split; [exact Hbeta | exact Hpi].
Defined.

(** * The two passes of [sample_s] over one sequence *)

#[global] Instance same_outside_row_preorder {P T} (f : hmm -> meta_vector T) (i : Z) :
  PreOrder (@same_outside_row P T f i).
Proof.
  split.
  - intros w. split; [reflexivity | intros i' j _; reflexivity].
  - intros w1 w2 w3 [Hs12 Hg12] [Hs23 Hg23]. split.
    + congruence.
    + intros i' j Hne. rewrite Hg23, Hg12 by exact Hne. reflexivity.
Qed.

Lemma same_outside_row_self {P T} (f : hmm -> meta_vector T) i (w w' : world P) :
  f (self w') = f (self w) -> same_outside_row f i w w'.
Proof.
  intros H. unfold same_outside_row. rewrite H.
  split; [reflexivity | intros; reflexivity].
Qed.

Section Passes.

Context (P : distributions.Provider).

(** The forward filter reads the sampler and the generator and writes to
    neither. *)
Lemma filter_step_pure i t probs : respects eq (filter_step P i t probs).
Proof. unfold filter_step, accumulate_step, normalize_step, fill_prob. frame. Qed.

Lemma forward_filter_pure i n : respects eq (forward_filter P i n).
Proof.
  unfold forward_filter. apply respects_for_int; [exact _|].
  intros t probs. apply filter_step_pure.
Qed.

Lemma normalize_step_shape t total probs (w : world P) q w' :
  normalize_step P t total probs w = Ok (q, w') -> shape q = shape probs.
Proof.
  unfold normalize_step. intros H.
  apply bind_Ok in H as (h & w0 & Hthis & H). apply this_Ok in Hthis as [-> ->].
  apply (for_int_yields (fun q => shape q = shape probs)) in H; [exact H | | reflexivity].
  intros k q0 s0 q1 s1 Hq0 Hbody. unbind. subst.
  etransitivity; [eapply set_shape; eassumption | exact Hq0].
Qed.

Lemma filter_step_shape i t probs (w : world P) q w' :
  filter_step P i t probs w = Ok (q, w') ->
  exists probs1,
    vset probs t (vmake (K (self w)) f0) = Some probs1 /\ shape q = shape probs1.
Proof.
  unfold filter_step. intros H.
  apply bind_Ok in H as ([q0 total] & w1 & Hacc & Hnorm).
  apply normalize_step_shape in Hnorm. rewrite Hnorm.
  unfold accumulate_step in Hacc.
  apply bind_Ok in Hacc as (h & w0 & Hthis & Hacc). apply this_Ok in Hthis as [-> ->].
  apply bind_Ok in Hacc as (probs1 & w0 & Hset & Hacc). apply must_Ok in Hset as [Hset ->].
  exists probs1. split; [exact Hset|].
  apply (for_int_yields (fun '(q, _) => shape q = shape probs1)) in Hacc;
    [exact Hacc | | reflexivity].
  intros k [q1 tot1] s1 [q2 tot2] s2 Hq1 Hbody. unbind. subst.
  match goal with H : (_, _) = (_, _) |- _ => injection H as ? ? end. subst.
  erewrite fill_prob_shape by eassumption. exact Hq1.
Qed.

(** X18.  The forward filter of a sequence only reads: when it completes,
    the sampler and the random generator are what they were, and the
    probabilities it returns form one row per timestep with one entry per
    state. *)
Theorem forward_filter_reads_only i n (w : world P) probs w' :
  forward_filter P i n w = Ok (probs, w') ->
  w' = w /\ shape probs = vmake n (Z.max 0 (K (self w))).
Proof.
  intros H. pose proof (forward_filter_pure _ _ _ _ _ H) as Hw. symmetry in Hw.
  split; [exact Hw|]. unfold forward_filter in H.
  destruct (Z.lt_ge_cases n 0) as [Hneg|Hpos].
  { unfold for_int in H. destruct (INT_MAX <? n); [discriminate|].
    replace (Z.to_nat n) with 0%nat in H by lia. cbn in H. injection H as <- _.
    unfold MetaVector.make1, vmake. replace (Z.to_nat n) with 0%nat by lia. reflexivity. }
  assert (Hinv : w' = w /\ vsize probs = n /\
                 forall r, 0 <= r < n ->
                   vget (shape probs) r = Some (Z.max 0 (K (self w)))).
  { refine (for_int_inv
      (fun t (q : meta_vector float) (s : world P) =>
         s = w /\ vsize q = n /\
         forall r, 0 <= r < t -> vget (shape q) r = Some (Z.max 0 (K (self w))))
      _ _ _ _ _ _ Hpos _ _ H).
    - intros t q s q' s' Ht (-> & Hsize & Hrows) Hstep.
      assert (s' = w) as -> by (symmetry; exact (filter_step_pure _ _ _ _ _ _ Hstep)).
      apply filter_step_shape in Hstep as (probs1 & Hset & Hshape).
      split; [reflexivity|]. split.
      + assert (Hv : vsize (shape q') = vsize (shape probs1))
          by (rewrite Hshape; reflexivity).
        unfold vsize, shape in Hv. rewrite !length_fmap in Hv.
        apply vset_size in Hset. unfold vsize in *. lia.
      + intros r Hr. rewrite Hshape, vget_shape.
        destruct (Z.eq_dec r t) as [->|Hne].
        * rewrite (vget_vset_eq _ _ _ _ Hset). cbn. rewrite vsize_vmake. reflexivity.
        * rewrite (vget_vset_ne _ _ _ _ _ Hset Hne), <- vget_shape.
          apply Hrows. lia.
    - split; [reflexivity|]. split.
      + unfold MetaVector.make1. rewrite vsize_vmake. lia.
      + intros r Hr. lia. }
  destruct Hinv as (_ & Hsize & Hrows).
  apply vget_ext.
  - rewrite vsize_vmake. unfold vsize, shape in *. rewrite length_fmap. lia.
  - intros r Hr.
    assert (Hr' : 0 <= r < n) by (unfold vsize, shape in *; rewrite length_fmap in Hr; lia).
    rewrite Hrows, vget_vmake by exact Hr'.
    replace ((0 <=? r) && (r <? n)) with true
      by (symmetry; apply andb_true_iff; split; [apply Z.leb_le | apply Z.ltb_lt]; lia).
    reflexivity.
Qed.

(** The backward pass assigns to the states of sequence [i] and to nothing
    else. *)
Lemma backward_sample_row i n probs :
  respects (same_outside_row s_ i) (backward_sample P i n probs).
Proof.
  assert (Hassign : forall (h : hmm) (g : distributions.rng_t P) j x s',
            MetaVector.set (s_ h) i j x = Some s' ->
            same_outside_row s_ i (Build_world P h g) (Build_world P (set_s s' h) g)).
  { intros h g j x s' Hset. split; cbn.
    - eapply set_shape. exact Hset.
    - intros i' j' Hne. eapply get_set_other_row; eassumption. }
  assert (Hdraw : forall A (f : distributions.rng_t P -> A * distributions.rng_t P),
            respects (same_outside_row s_ i) (draw P f)).
  { intros A f. apply respects_draw. intros h g g'. apply same_outside_row_self. reflexivity. }
  assert (Hcell : forall (o : option (list float)) j (probs : meta_vector float),
            respects (same_outside_row s_ i)
              (let* row := must o in
               let* r := draw P (fun g => distributions.sample_from_likelihoods P g row) in
               let* h := this P in
               let* s' := must (MetaVector.set (s_ h) i j (wrap r)) in
               update P (set_s s') ;;
               ret probs)).
  { intros o j q w q' w' H.
    apply bind_Ok in H as (row & w0 & Hrow & H). apply must_Ok in Hrow as [_ ->].
    apply bind_Ok in H as (r & w1 & Hr & H).
    rewrite draw_eq in Hr. injection Hr as _ <-.
    apply bind_Ok in H as (h & w2 & Hthis & H). apply this_Ok in Hthis as [-> ->].
    apply bind_Ok in H as (s' & w2 & Hset & H). apply must_Ok in Hset as [Hset ->].
    apply bind_Ok in H as ([] & w3 & Hupd & H). rewrite update_eq in Hupd.
    injection Hupd as <-. apply ret_Ok in H as [_ ->].
    transitivity (Build_world P (self w)
                    (snd (distributions.sample_from_likelihoods P (rng w) row))).
    - apply same_outside_row_self. reflexivity.
    - eapply Hassign. exact Hset. }
  intros w [] w' H. unfold backward_sample in H.
  apply bind_Ok in H as (h & w0 & Hthis & H). apply this_Ok in Hthis as [-> ->].
  apply bind_Ok in H as (last & w0 & Hlast & H). apply must_Ok in Hlast as [_ ->].
  apply bind_Ok in H as (r & w1 & Hr & H).
  rewrite draw_eq in Hr. injection Hr as _ <-.
  apply bind_Ok in H as (s' & w2 & Hset & H). apply must_Ok in Hset as [Hset ->].
  apply bind_Ok in H as ([] & w3 & Hupd & H). rewrite update_eq in Hupd.
  injection Hupd as <-. cbn [self rng] in H.
  apply bind_Ok in H as (probs' & w4 & Hloop & H). apply ret_Ok in H as [_ ->].
  transitivity (Build_world P (self w)
                  (snd (distributions.sample_from_likelihoods P (rng w) last))).
  { apply same_outside_row_self. reflexivity. }
  etransitivity; [eapply Hassign; exact Hset|].
  revert Hloop. apply respects_for_down; [exact _|].
  intros t q.
  apply respects_bind; [exact _ | apply respects_this; exact _ | intros h].
  apply respects_bind; [exact _ | | intros q1; apply Hcell].
  apply respects_for_int; [exact _|]. intros k q0.
  repeat first [solve [apply Hdraw] | frame_step].
Qed.

Lemma sample_s_seq_row sizes i :
  respects (same_outside_row s_ i) (sample_s_seq P sizes i).
Proof.
  unfold sample_s_seq.
  apply respects_bind; [exact _ | apply respects_must; exact _ | intros n].
  apply respects_bind; [exact _ | | intros probs; apply backward_sample_row].
  eapply respects_weaken; [|apply forward_filter_pure].
  intros s s' ->. reflexivity.
Qed.

Lemma sample_s_seq_frame sizes i :
  respects (same (fun h => (data_ h, u_ h, m_ h, counts_ h, pi_ h, phi_ h, beta_ h,
                            gamma_ h, alpha0_ h, H_ h, memoized_log_stirling_ h,
                            max_pi h, K h)))
    (sample_s_seq P sizes i).
Proof.
  unfold sample_s_seq, forward_filter, filter_step, accumulate_step, normalize_step,
    fill_prob, backward_sample.
  frame.
Qed.

End Passes.

Lemma forward_filter_reads_only_witness :
  exists probs,
    forward_filter (fixed 0) 0 2 (on 0 (toy [[0; 0]] f1))
    = Ok (probs, on 0 (toy [[0; 0]] f1)) /\
    shape probs = [1; 1].
Proof.
  destruct (forward_filter (fixed 0) 0 2 (on 0 (toy [[0; 0]] f1)))
    as [[probs w']| | |] eqn:E; try (vm_compute in E; discriminate).
  destruct (forward_filter_reads_only _ _ _ _ _ _ E) as [-> Hshape].
  exists probs. split; [reflexivity | exact Hshape].
Defined.

(** X19.  Sampling the states of sequence [i] assigns to row [i] of the
    state sequences only: the rows keep their lengths, the states of every
    other sequence are what they were, and so is everything else in the
    sampler, the transition counts included. *)
Theorem sample_s_seq_rewrites_one_row :
  forall (P : distributions.Provider) (sizes : list size_t) (i : Z) (w w' : world P),
    sample_s_seq P sizes i w = Ok (tt, w') ->
    shape (s_ (self w')) = shape (s_ (self w)) /\
    (forall i' j, i' <> i ->
       MetaVector.get (s_ (self w')) i' j = MetaVector.get (s_ (self w)) i' j) /\
    counts_ (self w') = counts_ (self w) /\
    data_ (self w') = data_ (self w) /\
    u_ (self w') = u_ (self w) /\
    m_ (self w') = m_ (self w) /\
    pi_ (self w') = pi_ (self w) /\
    phi_ (self w') = phi_ (self w) /\
    beta_ (self w') = beta_ (self w) /\
    memoized_log_stirling_ (self w') = memoized_log_stirling_ (self w) /\
    max_pi (self w') = max_pi (self w) /\
    K (self w') = K (self w).
Proof.
  intros P sizes i w w' H.
  destruct (sample_s_seq_row P _ _ _ _ _ H) as [Hshape Hrows].
  apply sample_s_seq_frame in H. unfold same in H.
  injection H as -> -> -> -> -> -> -> _ _ _ -> -> ->.
  repeat split; try reflexivity; assumption.
Qed.

Lemma sample_s_seq_rewrites_one_row_witness :
  exists w',
    sample_s_seq (fixed 0) [2; 1] 0 (on 0 (toy [[0; 0]; [0]] f1)) = Ok (tt, w') /\
    shape (s_ (self w')) = [2] /\
    counts_ (self w') = [[0]].
Proof.
  destruct (sample_s_seq (fixed 0) [2; 1] 0 (on 0 (toy [[0; 0]; [0]] f1)))
    as [[[] w']| | |] eqn:E; try (vm_compute in E; discriminate).
  exists w'. split; [reflexivity|].
  destruct (sample_s_seq_rewrites_one_row _ _ _ _ _ E) as (Hshape & _ & Hcounts & _).
  split; [exact Hshape | exact Hcounts].
Defined.

(** * One row of the transition matrix *)

Section Rows.

Context (P : distributions.Provider).

Lemma sample_pi_row_Ok i (w w' : world P) :
  0 <= K (self w) ->
  sample_pi_row P i w = Ok (tt, w') ->
  exists alphas top,
    vsize alphas = K (self w) + 1 /\
    (forall k, 0 <= k < K (self w) ->
       exists c b,
         MetaVector.get (counts_ (self w)) i k = Some c /\
         vget (beta_ (self w)) k = Some b /\
         vget alphas k = Some (fadd (float_of_size c) (fmul (alpha0_ (self w)) b))) /\
    (exists b,
        vget (beta_ (self w)) (K (self w)) = Some b /\
        vget alphas (K (self w)) = Some (fmul (alpha0_ (self w)) b)) /\
    vget (fst (distributions.sample_dirichlet P (rng w) (K (self w) + 1) alphas))
      (K (self w)) = Some top /\
    max_pi (self w') = (if fgt (max_pi (self w)) top then max_pi (self w) else top) /\
    rng w' = snd (distributions.sample_dirichlet P (rng w) (K (self w) + 1) alphas) /\
    same_outside_row pi_ i w w'.
Proof.
  intros H0 H. pose proof (sample_pi_row_Ok_bound P _ _ _ H) as Hb.
  unfold sample_pi_row in H.
  apply bind_Ok in H as (h & w0 & Hthis & H). apply this_Ok in Hthis as [-> ->].
  apply bind_Ok in H as (alphas & w1 & Hal & H).
  assert (Halphas :
    w1 = w /\ vsize alphas = K (self w) /\
    forall k, 0 <= k < K (self w) ->
      exists c b,
        MetaVector.get (counts_ (self w)) i k = Some c /\
        vget (beta_ (self w)) k = Some b /\
        vget alphas k = Some (fadd (float_of_size c) (fmul (alpha0_ (self w)) b))).
  { refine (for_int_inv
      (fun n (al : list float) (s : world P) =>
         s = w /\ vsize al = n /\
         forall k, 0 <= k < n ->
           exists c b,
             MetaVector.get (counts_ (self w)) i k = Some c /\
             vget (beta_ (self w)) k = Some b /\
             vget al k = Some (fadd (float_of_size c) (fmul (alpha0_ (self w)) b)))
      _ _ _ _ _ _ H0 _ _ Hal).
    - intros n al s al' s' Hn (-> & Hsize & Hlow) Hbody.
      apply bind_Ok in Hbody as (h & s0 & Hthis & Hbody).
      apply this_Ok in Hthis as [-> ->].
      apply bind_Ok in Hbody as (c & s0 & Hc & Hbody). apply must_Ok in Hc as [Hc ->].
      apply bind_Ok in Hbody as (b & s0 & Hb' & Hbody). apply must_Ok in Hb' as [Hb' ->].
      apply ret_Ok in Hbody as [-> ->].
      split; [reflexivity|]. split.
      + unfold vsize in *. rewrite length_app. cbn. lia.
      + intros k Hk. rewrite vget_app, Hsize.
        destruct (k <? n) eqn:E.
        * apply Z.ltb_lt in E. apply Hlow. lia.
        * apply Z.ltb_ge in E. assert (k = n) as -> by lia.
          exists c, b. split; [exact Hc|]. split; [exact Hb'|].
          rewrite Z.sub_diag. reflexivity.
    - split; [reflexivity|]. split; [reflexivity|]. intros k Hk. lia. }
  destruct Halphas as (-> & Hsize & Hlow). clear Hal.
  apply bind_Ok in H as (h & w0 & Hthis & H). apply this_Ok in Hthis as [-> ->].
  rewrite (wrap_succ_small (K (self w))) in H by lia.
  apply bind_Ok in H as (bK & w0 & HbK & H). apply must_Ok in HbK as [HbK ->].
  apply bind_Ok in H as (drawn & w2 & Hdraw & H).
  rewrite draw_eq in Hdraw. injection Hdraw as <- <-.
  set (alphas' := alphas ++ [fmul (alpha0_ (self w)) bK]) in *.
  set (drawn := fst (distributions.sample_dirichlet P (rng w) (K (self w) + 1) alphas'))
    in *.
  set (start := Build_world P (self w)
                  (snd (distributions.sample_dirichlet P (rng w) (K (self w) + 1) alphas')))
    in *.
  apply bind_Ok in H as ([] & w3 & Hloop & H).
  assert (Hcopy : rng w3 = rng start /\ max_pi (self w3) = max_pi (self w) /\
                  K (self w3) = K (self w) /\ same_outside_row pi_ i w w3).
  { refine (for_int_inv
      (fun (_ : Z) (_ : unit) (s : world P) =>
         rng s = rng start /\ max_pi (self s) = max_pi (self w) /\
         K (self s) = K (self w) /\ same_outside_row pi_ i w s)
      _ _ _ _ _ _ _ _ _ Hloop).
    - lia.
    - intros n [] s [] s' Hn (Hrng & Hmax & HK & Hrow) Hbody.
      apply bind_Ok in Hbody as (h & s0 & Hthis & Hbody).
      apply this_Ok in Hthis as [-> ->].
      apply bind_Ok in Hbody as (x & s0 & Hx & Hbody). apply must_Ok in Hx as [_ ->].
      apply bind_Ok in Hbody as (pi' & s0 & Hset & Hbody).
      apply must_Ok in Hset as [Hset ->].
      rewrite update_eq in Hbody. injection Hbody as <-.
      cbn [self rng max_pi K set_pi].
      split; [exact Hrng|]. split; [exact Hmax|]. split; [exact HK|].
      etransitivity; [exact Hrow|]. split; cbn.
      + eapply set_shape. exact Hset.
      + intros i' j' Hne. eapply get_set_other_row; eassumption.
    - split; [reflexivity|]. split; [reflexivity|]. split; [reflexivity|].
      apply same_outside_row_self. reflexivity. }
  destruct Hcopy as (Hrng & Hmax & HK & Hrow).
  apply bind_Ok in H as (h & w4 & Hthis & H). apply this_Ok in Hthis as [-> ->].
  apply bind_Ok in H as (top & w4 & Htop & H). apply must_Ok in Htop as [Htop ->].
  rewrite raise_max_pi_eq in H. injection H as <-.
  rewrite HK in Htop. apply vget_take in Htop.
  exists alphas', top. split.
  { unfold alphas', vsize in *. rewrite length_app. cbn. lia. }
  split.
  { intros k Hk. destruct (Hlow k Hk) as (c & b & Hc & Hb' & Hk').
    exists c, b. split; [exact Hc|]. split; [exact Hb'|].
    unfold alphas'. rewrite vget_app, Hsize.
    replace (k <? K (self w)) with true by (symmetry; apply Z.ltb_lt; lia).
    exact Hk'. }
  split.
  { exists bK. split; [exact HbK|].
    unfold alphas'. rewrite vget_app, Hsize, Z.ltb_irrefl, Z.sub_diag. reflexivity. }
  split; [exact Htop|]. cbn [self rng max_pi set_max_pi].
  split; [rewrite Hmax; reflexivity|]. split; [exact Hrng|].
  etransitivity; [exact Hrow|]. apply same_outside_row_self. reflexivity.
Qed.

End Rows.

(** X20.  [sample_pi_row(i)] asks the library for a Dirichlet draw in
    dimension [K + 1] whose parameters are, for each state [k], the
    transition count from [i] to [k] plus [alpha0] times the stick length of
    [k], and for the states not yet seen [alpha0] times the last stick
    length.  It then raises [max_pi] to the last component of the draw if
    that is greater, and writes to row [i] of the matrix only: the other
    rows, and the lengths of all rows, are what they were. *)
Theorem sample_pi_row_draws_from_the_posterior :
  forall (P : distributions.Provider) (i : Z) (w w' : world P),
    0 <= K (self w) ->
    sample_pi_row P i w = Ok (tt, w') ->
    exists alphas top,
      vsize alphas = K (self w) + 1 /\
      (forall k, 0 <= k < K (self w) ->
         exists c b,
           MetaVector.get (counts_ (self w)) i k = Some c /\
           vget (beta_ (self w)) k = Some b /\
           vget alphas k = Some (fadd (float_of_size c) (fmul (alpha0_ (self w)) b))) /\
      (exists b,
          vget (beta_ (self w)) (K (self w)) = Some b /\
          vget alphas (K (self w)) = Some (fmul (alpha0_ (self w)) b)) /\
      vget (fst (distributions.sample_dirichlet P (rng w) (K (self w) + 1) alphas))
        (K (self w)) = Some top /\
      max_pi (self w') = (if fgt (max_pi (self w)) top then max_pi (self w) else top) /\
      rng w' = snd (distributions.sample_dirichlet P (rng w) (K (self w) + 1) alphas) /\
      shape (pi_ (self w')) = shape (pi_ (self w)) /\
      forall i' j, i' <> i ->
        MetaVector.get (pi_ (self w')) i' j = MetaVector.get (pi_ (self w)) i' j.
Proof.
  intros P i w w' H0 H.
  destruct (sample_pi_row_Ok P _ _ _ H0 H)
    as (alphas & top & H1 & H2 & H3 & H4 & H5 & H6 & H7 & H8).
  exists alphas, top. repeat (split; [assumption|]). exact H8.
Qed.

Lemma sample_pi_row_draws_from_the_posterior_witness :
  0 <= K (self (on 0 (toy [[0; 0]] f1))) /\
  exists w' alphas,
    sample_pi_row (fixed 0) 0 (on 0 (toy [[0; 0]] f1)) = Ok (tt, w') /\
    vsize alphas = 2 /\
    vget alphas 0 = Some (fadd (float_of_size 0) (fmul f1 half)) /\
    vget alphas 1 = Some (fmul f1 half) /\
    max_pi (self w') = three_quarters.
Proof.
  assert (H0 : 0 <= K (self (on 0 (toy [[0; 0]] f1)))) by (vm_compute; discriminate).
  split; [exact H0|].
  destruct (sample_pi_row (fixed 0) 0 (on 0 (toy [[0; 0]] f1)))
    as [[[] w']| | |] eqn:E; try (vm_compute in E; discriminate).
  destruct (sample_pi_row_draws_from_the_posterior _ _ _ _ H0 E)
    as (alphas & top & Hsize & Hlow & (b & Hb & Hlast) & _).
  destruct (Hlow 0) as (c & b0 & Hc & Hb0 & Hk);
    [vm_compute; split; [discriminate | reflexivity]|].
  vm_compute in Hc. injection Hc as <-.
  vm_compute in Hb0. injection Hb0 as <-.
  vm_compute in Hb. injection Hb as <-.
  exists w', alphas. split; [reflexivity|]. split; [exact Hsize|].
  split; [exact Hk|]. split; [exact Hlast|].
  vm_compute in E. injection E as <-. reflexivity.
Defined.

(** * The sizes of the matrix and of the sticks, stage by stage *)

Lemma same_sizes_keeps_sized {P} (w w' : world P) :
  same (fun h => (shape (pi_ h), vsize (beta_ h), K h)) w w' -> keeps_sized w w'.
Proof.
  unfold same, keeps_sized, sized. intros H. injection H as Hpi Hbeta HK.
  rewrite Hpi, Hbeta, HK. tauto.
Qed.

Section Sizes.

Context (P : distributions.Provider).

Lemma sample_s_keeps_sized : respects keeps_sized (sample_s P).
Proof.
  eapply respects_weaken; [apply same_sizes_keeps_sized|].
  unfold sample_s, sample_s_seq, forward_filter, filter_step, accumulate_step,
    normalize_step, fill_prob, backward_sample.
  frame.
Qed.

Lemma sample_pi_keeps_sized : respects keeps_sized (sample_pi P).
Proof.
  eapply respects_weaken; [apply same_sizes_keeps_sized|].
  intros w [] w' H. unfold same.
  rewrite (sample_pi_shape P _ _ _ H).
  apply sample_pi_frame in H. unfold same in H.
  injection H as _ _ _ _ _ _ -> _ _ _ _ ->. reflexivity.
Qed.

Lemma sample_beta_keeps_sized : respects keeps_sized (sample_beta P).
Proof.
  eapply respects_weaken; [apply same_sizes_keeps_sized|].
  intros w [] w' H. unfold same.
  pose proof (sample_beta_sizes P _ _ _ H) as Hsizes. unfold same in Hsizes.
  injection Hsizes as _ ->.
  apply sample_beta_frame in H. unfold same in H.
  injection H as _ _ _ _ -> _ _ _ _ _ ->. reflexivity.
Qed.

Lemma sample_beam_keeps_sized fuel : respects keeps_sized (sample_beam P fuel).
Proof.
  unfold sample_beam, sample_phi.
  repeat first [solve [apply sample_u_keeps_sized | apply sample_s_keeps_sized
                       | apply sample_pi_keeps_sized | apply sample_beta_keeps_sized]
               | frame_step].
Qed.

End Sizes.

(** X21.  The sizes that the comments of the class announce for the
    transition matrix and the stick lengths, [K] rows of [K + 1] entries and
    [K + 1] lengths, are an invariant of the sampler.  The constructor
    establishes them.  A turn of the growth loop of [sample_u] adds one state
    and with it one row, one column and one stick length; every stage that
    completes, and a sweep that completes, leaves them in force. *)
Theorem the_sizes_are_kept :
  (forall gamma alpha0 H data garbage h,
      hmm_new gamma alpha0 H data garbage = Ok h -> sized h) /\
  forall (P : distributions.Provider) (w w' : world P),
    sized (self w) ->
    (add_state P w = Ok (tt, w') -> sized (self w') /\ K (self w') = K (self w) + 1) /\
    (forall fuel, sample_u P fuel w = Ok (tt, w') -> sized (self w')) /\
    (sample_s P w = Ok (tt, w') -> sized (self w')) /\
    (sample_pi P w = Ok (tt, w') -> sized (self w')) /\
    (sample_beta P w = Ok (tt, w') -> sized (self w')) /\
    (forall fuel, sample_beam P fuel w = Ok (tt, w') -> sized (self w')).
Proof.
  split.
  - intros gamma alpha0 H data garbage h Hnew. apply hmm_new_Ok in Hnew as [u ->].
    split; [cbn; lia|]. split; reflexivity.
  - intros P w w' Hsized.
    split; [intros H; exact (add_state_sized P _ _ Hsized H)|].
    split; [intros fuel H; exact (sample_u_keeps_sized P fuel _ _ _ H Hsized)|].
    split; [intros H; exact (sample_s_keeps_sized P _ _ _ H Hsized)|].
    split; [intros H; exact (sample_pi_keeps_sized P _ _ _ H Hsized)|].
    split; [intros H; exact (sample_beta_keeps_sized P _ _ _ H Hsized)|].
    intros fuel H. exact (sample_beam_keeps_sized P fuel _ _ _ H Hsized).
Qed.

Lemma the_sizes_are_kept_witness :
  sized (constructed [[0; 0]] [[]; [f0; f0]] half) /\
  sized (bare two) /\
  (exists w', add_state (fixed 0) (on 0 (bare two)) = Ok (tt, w') /\
              sized (self w') /\ K (self w') = 1) /\
  (exists w', sample_u (fixed 0) 2 (on 0 (bare two)) = Ok (tt, w') /\
              sized (self w')) /\
  sized (toy [[0; 0]] f1) /\
  (exists w', sample_pi (fixed 0) (on 0 (toy [[0; 0]] f1)) = Ok (tt, w') /\
              sized (self w')) /\
  (exists w', sample_beta (fixed 0) (on 0 (toy [[0; 0]] f1)) = Ok (tt, w') /\
              sized (self w')).
Proof.
  destruct the_sizes_are_kept as [Hnew Hstages].
  assert (Hbare : sized (self (on 0 (bare two)))).
  { split; [vm_compute; discriminate|]. split; reflexivity. }
  assert (Htoy : sized (self (on 0 (toy [[0; 0]] f1)))).
  { split; [vm_compute; discriminate|]. split; reflexivity. }
  split.
  { apply (Hnew f1 f1 [f1] [[0; 0]] half). reflexivity. }
  split; [exact Hbare|]. split.
  { destruct (add_state (fixed 0) (on 0 (bare two))) as [[[] w']| | |] eqn:E;
      try (vm_compute in E; discriminate).
    exists w'. split; [reflexivity|].
    exact (proj1 (Hstages (fixed 0) _ w' Hbare) E). }
  split.
  { destruct (sample_u (fixed 0) 2 (on 0 (bare two))) as [[[] w']| | |] eqn:E;
      try (vm_compute in E; discriminate).
    exists w'. split; [reflexivity|].
    exact (proj1 (proj2 (Hstages (fixed 0) _ w' Hbare)) 2%nat E). }
  split; [exact Htoy|]. split.
  { destruct (sample_pi (fixed 0) (on 0 (toy [[0; 0]] f1))) as [[[] w']| | |] eqn:E;
      try (vm_compute in E; discriminate).
    exists w'. split; [reflexivity|].
    exact (proj1 (proj2 (proj2 (proj2 (Hstages (fixed 0) _ w' Htoy)))) E). }
  destruct (sample_beta (fixed 0) (on 0 (toy [[0; 0]] f1))) as [[[] w']| | |] eqn:E;
    try (vm_compute in E; discriminate).
  exists w'. split; [reflexivity|].
  exact (proj1 (proj2 (proj2 (proj2 (proj2 (Hstages (fixed 0) _ w' Htoy))))) E).
Defined.

(** * The forward recursion *)

Lemma seqZ_snoc (n : Z) : 0 <= n -> seqZ 0 (n + 1) = seqZ 0 n ++ [n].
Proof.
  intros Hn. rewrite seqZ_app by lia. reflexivity.
Qed.

(** A completed loop has carried its invariant as far as its bound, or
    nowhere if the bound is negative. *)
Lemma for_int_inv_max {S A} (Inv : Z -> A -> S -> Prop) bound (body : Z -> A -> M S A)
    a s a' s' :
  (forall k a s a' s', 0 <= k < bound -> Inv k a s ->
                       body k a s = Ok (a', s') -> Inv (k + 1) a' s') ->
  Inv 0 a s ->
  for_int bound body a s = Ok (a', s') ->
  Inv (Z.max 0 bound) a' s'.
Proof.
  intros Hbody Hinv H. destruct (Z.lt_ge_cases bound 0) as [Hneg|Hpos].
  - unfold for_int in H. destruct (INT_MAX <? bound); [discriminate|].
    replace (Z.to_nat bound) with 0%nat in H by lia. cbn in H. injection H as <- <-.
    replace (Z.max 0 bound) with 0 by lia. exact Hinv.
  - replace (Z.max 0 bound) with bound by lia.
    eapply for_int_inv; eassumption.
Qed.

Lemma set_other_row {T} (mv mv' : meta_vector T) i j x i' :
  MetaVector.set mv i j x = Some mv' -> i' <> i -> vget mv' i' = vget mv i'.
Proof.
  unfold MetaVector.set. intros H Hne.
  destruct (vget mv i) as [row|]; [|discriminate]. cbn in H.
  destruct (vset row j x) as [row'|]; [|discriminate]. cbn in H.
  eapply vget_vset_ne; eassumption.
Qed.

(** Two containers with the same shape and the same cells in row [t] have
    the same row [t]. *)
Lemma vget_row_ext {T} (mv mv' : meta_vector T) t :
  shape mv' = shape mv ->
  (forall k, MetaVector.get mv' t k = MetaVector.get mv t k) ->
  vget mv' t = vget mv t.
Proof.
  intros Hshape Hcells.
  pose proof (vget_shape mv' t) as H'. pose proof (vget_shape mv t) as H.
  rewrite Hshape, H in H'. unfold MetaVector.get in Hcells.
  destruct (vget mv' t) as [row'|], (vget mv t) as [row|]; try discriminate; [|reflexivity].
  cbn in *. injection H' as H'. f_equal. apply vget_ext; [congruence|].
  intros k _. apply Hcells.
Qed.

Section Recursion.

Context (P : distributions.Provider).

(** X22.  The forward recursion of one cell.  [fill_prob] changes cell
    [(t, k)] of the probabilities and no other cell, and it changes nothing
    in the sampler.  At the first timestep the cell receives the emission
    probability of the observation if the slice value is below the
    transition from state 0 to [k], and zero otherwise.  At a later timestep
    it receives the emission probability times the sum, taken from state 0
    upwards, of the probabilities that the previous timestep gives to the
    states [l] whose transition to [k] exceeds the slice value. *)
Theorem fill_prob_is_the_forward_recursion
    (i t k : Z) (probs q : meta_vector float) (w w' : world P) :
  fill_prob P i t k probs w = Ok (q, w') ->
  w' = w /\
  (forall t' k', t' <> t \/ k' <> k ->
     MetaVector.get q t' k' = MetaVector.get probs t' k') /\
  exists d e,
    MetaVector.get (data_ (self w)) i t = Some d /\
    MetaVector.get (phi_ (self w)) k d = Some e /\
    MetaVector.get q t k
    = if t =? 0 then
        u ← MetaVector.get (u_ (self w)) i t;
        p ← MetaVector.get (pi_ (self w)) 0 k;
        Some (fmul e (if flt u p then f1 else f0))
      else
        mass ← foldl
                 (fun acc l =>
                    a ← acc;
                    u ← MetaVector.get (u_ (self w)) i t;
                    p ← MetaVector.get (pi_ (self w)) l k;
                    if flt u p
                    then prev ← MetaVector.get probs (t - 1) l; Some (fadd a prev)
                    else Some a)
                 (Some f0) (seqZ 0 (K (self w)));
        Some (fmul mass e).
Proof.
  intros H.
  assert (Hother : forall (mv mv' : meta_vector float) x t' k',
            MetaVector.set mv t k x = Some mv' -> t' <> t \/ k' <> k ->
            MetaVector.get mv' t' k' = MetaVector.get mv t' k').
  { intros mv mv' x t' k' Hset Hne. rewrite (get_set _ _ _ _ _ t' k' Hset).
    destruct (Z.eqb_spec t' t) as [->|Ht]; [|reflexivity].
    destruct (Z.eqb_spec k' k) as [->|Hk]; [|reflexivity].
    destruct Hne; contradiction. }
  unfold fill_prob in H.
  apply bind_Ok in H as (h & w0 & Hthis & H). apply this_Ok in Hthis as [-> ->].
  destruct (Z.eqb_spec t 0) as [->|Ht].
  - apply bind_Ok in H as (d & w0 & Hd & H). apply must_Ok in Hd as [Hd ->].
    apply bind_Ok in H as (e & w0 & He & H). apply must_Ok in He as [He ->].
    apply bind_Ok in H as (u & w0 & Hu & H). apply must_Ok in Hu as [Hu ->].
    apply bind_Ok in H as (p & w0 & Hp & H). apply must_Ok in Hp as [Hp ->].
    apply must_Ok in H as [Hset ->].
    split; [reflexivity|]. split; [intros t' k' Hne; eapply Hother; eassumption|].
    exists d, e. split; [exact Hd|]. split; [exact He|].
    rewrite (get_set_eq _ _ _ _ _ Hset), Hu, Hp. reflexivity.
  - apply bind_Ok in H as (probs0 & w0 & Hset0 & H). apply must_Ok in Hset0 as [Hset0 ->].
    apply bind_Ok in H as (probs1 & w1 & Hloop & H).
    set (step := fun (acc : option float) (l : Z) =>
                   a ← acc;
                   u ← MetaVector.get (u_ (self w)) i t;
                   p ← MetaVector.get (pi_ (self w)) l k;
                   if flt u p
                   then prev ← MetaVector.get probs (t - 1) l; Some (fadd a prev)
                   else Some a).
    assert (Hinv :
      w1 = w /\
      (forall t' k', t' <> t \/ k' <> k ->
         MetaVector.get probs1 t' k' = MetaVector.get probs t' k') /\
      exists a, foldl step (Some f0) (seqZ 0 (Z.max 0 (K (self w)))) = Some a /\
                MetaVector.get probs1 t k = Some a).
    { refine (for_int_inv_max
        (fun n (pr : meta_vector float) (s : world P) =>
           s = w /\
           (forall t' k', t' <> t \/ k' <> k ->
              MetaVector.get pr t' k' = MetaVector.get probs t' k') /\
           exists a, foldl step (Some f0) (seqZ 0 n) = Some a /\
                     MetaVector.get pr t k = Some a)
        _ _ _ _ _ _ _ _ Hloop).
      - intros n pr s pr' s' Hn (-> & Hcells & a & Hfold & Hcur) Hbody.
        apply bind_Ok in Hbody as (u & s0 & Hu & Hbody). apply must_Ok in Hu as [Hu ->].
        apply bind_Ok in Hbody as (p & s0 & Hp & Hbody). apply must_Ok in Hp as [Hp ->].
        rewrite seqZ_snoc, foldl_snoc, Hfold by lia.
        unfold step at 1. cbn [mbind option_bind]. rewrite Hu, Hp. cbn [mbind option_bind].
        destruct (flt u p).
        + apply bind_Ok in Hbody as (cur & s0 & Hc & Hbody).
          apply must_Ok in Hc as [Hc ->].
          apply bind_Ok in Hbody as (prev & s0 & Hprev & Hbody).
          apply must_Ok in Hprev as [Hprev ->].
          apply must_Ok in Hbody as [Hset ->].
          rewrite Hcells in Hprev by (left; lia).
          rewrite Hcur in Hc. injection Hc as <-.
          split; [reflexivity|]. split.
          * intros t' k' Hne. rewrite (Hother _ _ _ _ _ Hset Hne). apply Hcells, Hne.
          * exists (fadd a prev). rewrite Hprev. split; [reflexivity|].
            eapply get_set_eq. exact Hset.
        + apply ret_Ok in Hbody as [-> ->].
          split; [reflexivity|]. split; [exact Hcells|].
          exists a. split; [reflexivity | exact Hcur].
      - split; [reflexivity|]. split.
        + intros t' k' Hne. eapply Hother; eassumption.
        + exists f0. split; [reflexivity|]. eapply get_set_eq. exact Hset0. }
    destruct Hinv as (-> & Hcells & a & Hfold & Hcur).
    apply bind_Ok in H as (cur & w0 & Hc & H). apply must_Ok in Hc as [Hc ->].
    apply bind_Ok in H as (d & w0 & Hd & H). apply must_Ok in Hd as [Hd ->].
    apply bind_Ok in H as (e & w0 & He & H). apply must_Ok in He as [He ->].
    apply must_Ok in H as [Hset ->].
    rewrite Hcur in Hc. injection Hc as <-.
    split; [reflexivity|]. split.
    + intros t' k' Hne. rewrite (Hother _ _ _ _ _ Hset Hne). apply Hcells, Hne.
    + exists d, e. split; [exact Hd|]. split; [exact He|].
      rewrite (get_set_eq _ _ _ _ _ Hset).
      replace (seqZ 0 (K (self w))) with (seqZ 0 (Z.max 0 (K (self w)))).
      * fold step. rewrite Hfold. reflexivity.
      * destruct (Z.lt_ge_cases (K (self w)) 0).
        -- rewrite !seqZ_nil by lia. reflexivity.
        -- f_equal. lia.
Qed.

End Recursion.

Lemma fill_prob_is_the_forward_recursion_witness :
  exists q,
    fill_prob (fixed 0) 0 1 0 [[f1]; [f0]] (on 0 (toy [[0; 0]] f1))
    = Ok (q, on 0 (toy [[0; 0]] f1)) /\
    MetaVector.get q 0 0 = Some f1 /\
    MetaVector.get q 1 0 = Some f1.
Proof.
  destruct (fill_prob (fixed 0) 0 1 0 [[f1]; [f0]] (on 0 (toy [[0; 0]] f1)))
    as [[q w']| | |] eqn:E; try (vm_compute in E; discriminate).
  destruct (fill_prob_is_the_forward_recursion _ _ _ _ _ _ _ _ E)
    as (-> & Hcells & d & e & Hd & He & Hcell).
  exists q. split; [reflexivity|]. split.
  - rewrite Hcells by (left; discriminate). reflexivity.
  - vm_compute in Hd. injection Hd as <-.
    vm_compute in He. injection He as <-.
    rewrite Hcell. vm_compute. reflexivity.
Defined.

(** * The normalisation of a timestep *)

Section Normalisation.

Context (P : distributions.Provider).

Lemma fill_prob_cells i t k probs (w : world P) q w' :
  fill_prob P i t k probs w = Ok (q, w') ->
  w' = w /\
  forall t' k', t' <> t \/ k' <> k ->
    MetaVector.get q t' k' = MetaVector.get probs t' k'.
Proof.
  intros H. unfold fill_prob in H.
  assert (Hother : forall (mv mv' : meta_vector float) x t' k',
            MetaVector.set mv t k x = Some mv' -> t' <> t \/ k' <> k ->
            MetaVector.get mv' t' k' = MetaVector.get mv t' k').
  { intros mv mv' x t' k' Hset Hne. rewrite (get_set _ _ _ _ _ t' k' Hset).
    destruct (Z.eqb_spec t' t) as [->|Ht]; [|reflexivity].
    destruct (Z.eqb_spec k' k) as [->|Hk]; [|reflexivity].
    destruct Hne; contradiction. }
  apply bind_Ok in H as (h & w0 & Hthis & H). apply this_Ok in Hthis as [-> ->].
  destruct (t =? 0).
  - unbind. subst. split; [reflexivity|].
    intros t' k' Hne. eapply Hother; eassumption.
  - apply bind_Ok in H as (probs0 & w0 & Hset0 & H). apply must_Ok in Hset0 as [Hset0 ->].
    apply bind_Ok in H as (probs1 & w1 & Hloop & H).
    assert (Hinv : w1 = w /\
                   forall t' k', t' <> t \/ k' <> k ->
                     MetaVector.get probs1 t' k' = MetaVector.get probs t' k').
    { refine (for_int_inv_max
        (fun (_ : Z) (pr : meta_vector float) (s : world P) =>
           s = w /\
           forall t' k', t' <> t \/ k' <> k ->
             MetaVector.get pr t' k' = MetaVector.get probs t' k')
        _ _ _ _ _ _ _ _ Hloop).
      - intros n pr s pr' s' _ (-> & Hcells) Hbody.
        apply bind_Ok in Hbody as (u & s0 & Hu & Hbody). apply must_Ok in Hu as [_ ->].
        apply bind_Ok in Hbody as (p & s0 & Hp & Hbody). apply must_Ok in Hp as [_ ->].
        destruct (flt u p).
        + unbind. subst. split; [reflexivity|].
          intros t' k' Hne. erewrite Hother by eassumption. apply Hcells, Hne.
        + apply ret_Ok in Hbody as [-> ->]. split; [reflexivity | exact Hcells].
      - split; [reflexivity|]. intros t' k' Hne. eapply Hother; eassumption. }
    destruct Hinv as (-> & Hcells).
    unbind. subst. split; [reflexivity|].
    intros t' k' Hne. erewrite Hother by eassumption. apply Hcells, Hne.
Qed.

(** The total that the accumulation returns is the sum of the row it has
    filled, from its first entry to its last. *)
Lemma accumulate_step_total i t probs (w : world P) q total w1 :
  accumulate_step P i t probs w = Ok ((q, total), w1) ->
  w1 = w /\
  (forall t', t' <> t -> vget q t' = vget probs t') /\
  exists row,
    vget q t = Some row /\ vsize row = Z.max 0 (K (self w)) /\
    total = foldl fadd f0 row.
Proof.
  intros H. unfold accumulate_step in H.
  apply bind_Ok in H as (h & w0 & Hthis & H). apply this_Ok in Hthis as [-> ->].
  apply bind_Ok in H as (probs1 & w0 & Hset & H). apply must_Ok in Hset as [Hset ->].
  assert (Hinv :
    w1 = w /\ shape q = shape probs1 /\
    (forall t', t' <> t -> vget q t' = vget probs1 t') /\
    exists row, vget q t = Some row /\
                total = foldl fadd f0 (take (Z.to_nat (Z.max 0 (K (self w)))) row)).
  { refine (for_int_inv_max
      (fun n '(qn, tot) (s : world P) =>
         s = w /\ shape qn = shape probs1 /\
         (forall t', t' <> t -> vget qn t' = vget probs1 t') /\
         exists row, vget qn t = Some row /\
                     tot = foldl fadd f0 (take (Z.to_nat n) row))
      _ _ (probs1, f0) w (q, total) w1 _ _ H).
    - intros n [qn tot] s [qn' tot'] s' Hn (-> & Hshape & Hrows & row & Hrow & Htot) Hbody.
      apply bind_Ok in Hbody as (q1 & s0 & Hfill & Hbody).
      pose proof (fill_prob_shape P _ _ _ _ _ _ _ Hfill) as Hshape1.
      apply fill_prob_cells in Hfill as [-> Hcells].
      apply bind_Ok in Hbody as (x & s0 & Hx & Hbody). apply must_Ok in Hx as [Hx ->].
      apply ret_Ok in Hbody as [Hpair ->]. injection Hpair as -> ->.
      split; [reflexivity|]. split; [congruence|]. split.
      + intros t' Hne. rewrite <- Hrows by exact Hne.
        apply vget_row_ext; [exact Hshape1|].
        intros k'. apply Hcells. left. exact Hne.
      + unfold MetaVector.get in Hx.
        destruct (vget q1 t) as [row1|] eqn:Hrow1; [|discriminate]. cbn in Hx.
        exists row1. split; [reflexivity|].
        rewrite vget_lookup in Hx by lia.
        replace (Z.to_nat (n + 1)) with (Datatypes.S (Z.to_nat n)) by lia.
        rewrite (take_S_r _ _ _ Hx), foldl_snoc. f_equal.
        rewrite Htot. f_equal.
        apply list_eq. intros j.
        destruct (Nat.lt_ge_cases j (Z.to_nat n)) as [Hj|Hj].
        * rewrite !lookup_take_lt by exact Hj.
          specialize (Hcells t (Z.of_nat j) ltac:(right; lia)).
          unfold MetaVector.get in Hcells. rewrite Hrow1, Hrow in Hcells. cbn in Hcells.
          rewrite !vget_lookup, Nat2Z.id in Hcells by lia. symmetry. exact Hcells.
        * rewrite !lookup_take_ge by exact Hj. reflexivity.
    - split; [reflexivity|]. split; [reflexivity|]. split; [reflexivity|].
      exists (vmake (K (self w)) f0). split; [eapply vget_vset_eq; exact Hset|].
      reflexivity. }
  destruct Hinv as (-> & Hshape & Hrows & row & Hrow & Htot).
  assert (Hlen : vsize row = Z.max 0 (K (self w))).
  { pose proof (vget_shape q t) as Hs.
    rewrite Hshape, vget_shape, Hrow, (vget_vset_eq _ _ _ _ Hset) in Hs. cbn in Hs.
    injection Hs as Hs. rewrite vsize_vmake in Hs. congruence. }
  split; [reflexivity|]. split.
  - intros t' Hne. rewrite Hrows by exact Hne. eapply vget_vset_ne; eassumption.
  - exists row. split; [exact Hrow|]. split; [exact Hlen|].
    rewrite Htot. f_equal. apply take_ge. unfold vsize in Hlen. lia.
Qed.

Lemma normalize_step_rows t total probs (w : world P) q w' :
  normalize_step P t total probs w = Ok (q, w') ->
  forall t', t' <> t -> vget q t' = vget probs t'.
Proof.
  unfold normalize_step. intros H.
  apply bind_Ok in H as (h & w0 & Hthis & H). apply this_Ok in Hthis as [-> ->].
  refine (for_int_yields (fun q => forall t', t' <> t -> vget q t' = vget probs t')
            _ _ _ _ _ _ _ _ H).
  - intros k q0 s0 q1 s1 Hq0 Hbody. unbind. subst.
    intros t' Hne. erewrite set_other_row by eassumption. apply Hq0, Hne.
  - intros t' Hne. reflexivity.
Qed.

(** X23.  A timestep of the forward filter leaves, in row [t] of the
    probabilities, the unnormalised probabilities of the [K] states each
    divided by their sum, the sum being taken in [float] from the first
    state to the last.  The rows of the other timesteps and the sampler are
    what they were.  Nothing is done about a sum that is zero. *)
Theorem filter_step_divides_by_the_sum
    (i t : Z) (probs q' : meta_vector float) (w w' : world P) :
  filter_step P i t probs w = Ok (q', w') ->
  w' = w /\
  (forall t', t' <> t -> vget q' t' = vget probs t') /\
  exists q row,
    accumulate_step P i t probs w = Ok ((q, foldl fadd f0 row), w) /\
    vget q t = Some row /\
    vsize row = Z.max 0 (K (self w)) /\
    vget q' t = Some ((fun x => fdiv x (foldl fadd f0 row)) <$> row).
Proof.
  intros H. unfold filter_step in H.
  apply bind_Ok in H as ([q total] & w1 & Hacc & Hnorm).
  pose proof (accumulate_step_row P _ _ _ _ _ _ _ Hacc) as [Hb Hcells].
  pose proof (accumulate_step_total _ _ _ _ _ _ _ Hacc) as (-> & Hrows & row & Hrow & Hlen & ->).
  destruct (normalize_step_Ok P t (foldl fadd f0 row) q w Hb Hcells) as (q2 & Hq2 & Hdiv).
  rewrite Hq2 in Hnorm. injection Hnorm as <- <-.
  pose proof (normalize_step_shape P _ _ _ _ _ _ Hq2) as Hshape.
  pose proof (normalize_step_rows _ _ _ _ _ _ Hq2) as Hrows2.
  split; [reflexivity|]. split.
  { intros t' Hne. rewrite Hrows2, Hrows by exact Hne. reflexivity. }
  exists q, row. split; [exact Hacc|]. split; [exact Hrow|]. split; [exact Hlen|].
  pose proof (vget_shape q2 t) as Hs. rewrite Hshape, vget_shape, Hrow in Hs. cbn in Hs.
  destruct (vget q2 t) as [row2|] eqn:Hrow2; [|discriminate]. cbn in Hs.
  injection Hs as Hs. f_equal. apply vget_ext.
  - unfold vsize in *. rewrite length_fmap. lia.
  - intros k Hk.
    assert (Hk' : 0 <= k < K (self w)) by lia.
    destruct (Hdiv k Hk') as (x & Hx & Hx').
    unfold MetaVector.get in Hx, Hx'. rewrite Hrow in Hx. rewrite Hrow2 in Hx'.
    cbn in Hx, Hx'. rewrite Hx'.
    rewrite vget_lookup in Hx by lia. rewrite vget_lookup by lia.
    rewrite list_lookup_fmap, Hx. reflexivity.
Qed.

End Normalisation.

Lemma filter_step_divides_by_the_sum_witness :
  exists q',
    filter_step (fixed 0) 0 0 [[]; []] (on 0 (toy [[0; 0]] f1))
    = Ok (q', on 0 (toy [[0; 0]] f1)) /\
    vget q' 0 = Some [fdiv f1 (fadd f0 f1)] /\
    vget q' 1 = Some [].
Proof.
  destruct (filter_step (fixed 0) 0 0 [[]; []] (on 0 (toy [[0; 0]] f1)))
    as [[q' w']| | |] eqn:E; try (vm_compute in E; discriminate).
  destruct (filter_step_divides_by_the_sum _ _ _ _ _ _ _ E)
    as (-> & Hrows & q & row & Hacc & Hrow & _ & Hdiv).
  exists q'. split; [reflexivity|]. split.
  - vm_compute in Hacc. injection Hacc as <- _.
    vm_compute in Hrow. injection Hrow as <-. exact Hdiv.
  - rewrite Hrows by discriminate. reflexivity.
Defined.
